(** * jhcTofCam: a shallow embedding of the MaixSense A010 depth driver

    The development follows [src/src/jhcTofCam.cpp] (Linux build) and
    [src/include/jhcTofCam.h].  Every C [int] is a [Z]; an [unsigned char]
    is a [Z] in [0, 255] and an [unsigned short] a [Z] in [0, 65535], the
    narrowing conversions being written out as [uchar] and [ushort].
    Member arrays are stdpp lists read with [rd] and written with [wr];
    a call that can trap or whose loop has no static bound returns an
    [option].  The model comes first, the properties after it. *)

From Stdlib Require Import ZArith Lia Bool.
From stdpp Require Import base tactics option list numbers.

Local Open Scope Z_scope.

(** ** Machine integers and arrays *)

Module Mach.

(** Conversion of an [int] to [unsigned char]: reduction modulo 2^8. *)
Definition uchar (z : Z) : Z := z mod 256.

(** Conversion of an [int] to [unsigned short]: reduction modulo 2^16. *)
Definition ushort (z : Z) : Z := z mod 65536.

(** Array read [a[i]]; the sources only index inside the array. *)
Definition rd (a : list Z) (i : Z) : Z := a !!! Z.to_nat i.

(** Array write [a[i] = v]. *)
Definition wr (a : list Z) (i : Z) (v : Z) : list Z := <[Z.to_nat i := v]> a.

(** Row [t[r]] of a two-dimensional table. *)
Definition row (t : list (list Z)) (r : Z) : list Z := t !!! Z.to_nat r.

(** An [unsigned char] array: every cell holds a value in [0, 255]. *)
Definition bytes (a : list Z) : Prop := Forall (fun b => 0 <= b <= 255) a.

(** A value stored in a 32-bit [int]: two's complement wrap-around. *)
Definition int32 (z : Z) : Z := (z + 2147483648) mod 4294967296 - 2147483648.

(** Integer division [n / d] of C: truncation towards zero; it traps
    ([None]) on a zero divisor and on [INT_MIN / -1]. *)
Definition idiv (n d : Z) : option Z :=
  if (d =? 0) || ((n =? -2147483648) && (d =? -1)) then None
  else Some (Z.quot n d).

(** The idiom [(val <= 0) ? 0 : ((val < 255) ? val : 255)]. *)
Definition clamp255 (val : Z) : Z :=
  if val <=? 0 then 0 else if val <? 255 then val else 255.

(** A block write of the bytes [bs] at [a + n], as [read] and [memcpy]
    perform it. *)
Definition store (a : list Z) (n : Z) (bs : list Z) : list Z :=
  take (Z.to_nat n) a ++ bs ++ drop (Z.to_nat n + length bs) a.

(** The value [z] is one that a 32-bit [int] holds. *)
Definition in_int (z : Z) : Prop := -2147483648 <= z < 2147483648.

End Mach.

Import Mach.

(** ** Resolution lookup table and 16-bit reformatting *)

Module Lut.

(** [build_lut]: [norm[u - 1][pel] = (unsigned short)(4 * u * pel)] for
    [u] in 1..9 and [pel] in 0..255. *)
Definition lut_row (u : Z) : list Z :=
  (fun pel => ushort (4 * u * pel)) <$> seqZ 0 256.

Definition build_lut : list (list Z) := lut_row <$> seqZ 1 9.

(** The test of [reformat] on one pixel: sensor sample [s], smoothed
    value [p], variance [v]; [sc] is the table row [norm[unit - 1]]. *)
Definition reformat_pel (sc : list Z) (vlim s p v : Z) : Z :=
  if (s >=? 255) || (p >=? 255) || (v >? vlim) then 65535 else rd sc p.

(** The loop [for (i = 0; i < 10000; i++, d++, s++, p++, v++)], with [n]
    iterations left and all four pointers at offset [i]. *)
Fixpoint reformat_loop (n : nat) (i : Z) (sc : list Z) (vlim : Z)
    (s p v d : list Z) : list Z :=
  match n with
  | O => d
  | S n' =>
      reformat_loop n' (i + 1) sc vlim s p v
        (wr d i (reformat_pel sc vlim (rd s i) (rd p i) (rd v i)))
  end.

(** [raw = pkt + 16]: the sensor image starts 16 bytes into the packet. *)
Definition raw (pkt : list Z) : list Z := drop 16 pkt.

(** [reformat]: writes the buffer [fill], seen as 10000 16-bit words. *)
Definition reformat (norm : list (list Z)) (unit vlim : Z)
    (pkt avg var fill : list Z) : list Z :=
  reformat_loop (Z.to_nat 10000) 0 (row norm (unit - 1)) vlim
    (raw pkt) avg var fill.

(** A pixel is masked when the sensor saturated, the smoothed value
    saturated, or the flicker estimate is above [vlim]. *)
Definition masked (vlim s p v : Z) : Prop :=
  s = 255 \/ p = 255 \/ vlim < v.

#[global] Instance masked_dec vlim s p v : Decision (masked vlim s p v).
Proof. unfold masked. apply _. Defined.

End Lut.

(** ** Temporal filter and resolution change *)

Module Filter.

(** One pixel of [flywheel]: measurement [m], running average [p] and
    variance [v].  [fi] and [mn] are the integers the function derives from
    the float parameters, [(int)(256.0 * f0 + 0.5)] and
    [(int)(256.0 * nv + 0.5)]; [cfi = 256 - fi]. *)
Definition flywheel_pel (fi cfi mn m p v : Z) : option (Z * Z) :=
  let diff := m - p in
  let vm := int32 (cfi * v + fi * diff * diff) in
  k ← idiv (int32 (Z.shiftl vm 8)) (int32 (vm + mn));
  let val := Z.shiftr (int32 (Z.shiftl p 8 + k * diff + 128)) 8 in
  let p' := clamp255 val in
  let val := Z.shiftr (int32 ((256 - k) * Z.shiftr vm 1 + 16384)) 15 in
  let v' := clamp255 val in
  Some (p', v').

(** The loop [for (i = 10000; i > 0; i--, m++, p++, v++)]: [n] iterations
    left, the three pointers at offset [j]. *)
Fixpoint flywheel_loop (n : nat) (j : Z) (fi cfi mn : Z)
    (m p v : list Z) : option (list Z * list Z) :=
  match n with
  | O => Some (p, v)
  | S n' =>
      '(p', v') ← flywheel_pel fi cfi mn (rd m j) (rd p j) (rd v j);
      flywheel_loop n' (j + 1) fi cfi mn m (wr p j p') (wr v j v')
  end.

(** [flywheel]: on the first frame [memcpy(p, m, 10000)] and
    [memset(v, 0, 10000)], afterwards the per-pixel update. *)
Definition flywheel (fi mn frame : Z) (med avg var : list Z)
    : option (list Z * list Z) :=
  let cfi := 256 - fi in
  if frame <=? 0 then
    Some (store avg 0 (take (Z.to_nat 10000) med),
          store var 0 (replicate (Z.to_nat 10000) 0))
  else flywheel_loop (Z.to_nat 10000) 0 fi cfi mn med avg var.

(** The frame counter after [swap_bufs]: [frame++]. *)
Definition next_frame (frame : Z) : Z := int32 (frame + 1).

(** [n] successive frames of the temporal filter on the same median
    image [med], the frame counter advancing as in [main_loop]. *)
Fixpoint flywheel_frames (n : nat) (fi mn frame : Z) (med avg var : list Z)
    : option (list Z * list Z) :=
  match n with
  | O => Some (avg, var)
  | S n' =>
      '(a, v) ← flywheel fi mn frame med avg var;
      flywheel_frames n' fi mn (next_frame frame) med a v
  end.

(** State of the estimator that a resolution change touches. *)
Record est := Est { avg : list Z; var : list Z; unit : Z; pend : Z }.

(** The table [sc[i] = (f * i + 128) >> 8] for [i] in 0..255. *)
Definition scale_tab (f : Z) : list Z :=
  (fun i => Z.shiftr (int32 (f * i + 128)) 8) <$> seqZ 0 256.

(** The loop [for (i = 10000; i > 0; i--, p++) *p = sc[*p]]; the store
    into the [unsigned char] cell keeps the low eight bits. *)
Fixpoint rescale_loop (n : nat) (j : Z) (sc p : list Z) : list Z :=
  match n with
  | O => p
  | S n' => rescale_loop n' (j + 1) sc (wr p j (uchar (rd sc (rd p j))))
  end.

Definition rescale (sc p : list Z) : list Z :=
  rescale_loop (Z.to_nat 10000) 0 sc p.

(** [depth_step]: re-express the estimator in the pending resolution. *)
Definition depth_step (e : est) : option est :=
  f ← idiv (int32 (Z.shiftl (unit e) 8)) (pend e);
  let avg' := rescale (scale_tab f) (avg e) in
  f ← idiv (int32 (Z.shiftl (int32 (unit e * unit e)) 8))
           (int32 (pend e * pend e));
  let var' := rescale (scale_tab f) (var e) in
  Some (Est avg' var' (pend e) (pend e)).

(** What section 4.5 of the specification asks of the re-scaler for one
    cell: the rounded product, saturated to a byte. *)
Definition saturated_scale (f x : Z) : Z :=
  Z.min 255 (Z.shiftr (f * x + 128) 8).

(** The pixel update of [flywheel] evaluated without wrap-around on the
    measurement [m], the average [p] and the variance [v]: every
    sub-expression of the loop body has a value that an [int] holds, the
    two left shifts are applied to values that are not negative, and the
    divisor is not zero. *)
Definition flywheel_fits (fi cfi mn m p v : Z) : Prop :=
  let diff := m - p in
  let vm := cfi * v + fi * diff * diff in
  let k := Z.quot (vm * 256) (vm + mn) in
  in_int diff /\ in_int (cfi * v) /\ in_int (fi * diff)
  /\ in_int (fi * diff * diff) /\ in_int vm
  /\ 0 <= vm /\ in_int (vm * 256) /\ in_int (vm + mn) /\ vm + mn <> 0
  /\ 0 <= p /\ in_int (p * 256) /\ in_int (k * diff)
  /\ in_int (p * 256 + k * diff) /\ in_int (p * 256 + k * diff + 128)
  /\ in_int (256 - k) /\ in_int ((256 - k) * Z.shiftr vm 1)
  /\ in_int ((256 - k) * Z.shiftr vm 1 + 16384).

(** The same update in exact arithmetic: the new average and the new
    variance of the pixel. *)
Definition flywheel_exact (fi cfi mn m p v : Z) : Z * Z :=
  let diff := m - p in
  let vm := cfi * v + fi * diff * diff in
  let k := vm * 256 / (vm + mn) in
  (clamp255 ((p * 256 + k * diff + 128) / 256),
   clamp255 (((256 - k) * (vm / 2) + 16384) / 32768)).

End Filter.

(** ** Serial transport and packet framing *)

Module Framer.

Import Filter.

(** The byte source behind [ser].  The stream arrives in bursts; one
    [read] call returns bytes of the first burst only, and an empty burst
    (or the end of the list) is a call that times out, hits end of file or
    fails, all of which the driver tests as [rc <= 0]. *)
Definition transport := list (list Z).

(** The bytes still to come on a transport. *)
Definition pending (t : transport) : list Z := concat t.

(** [read(ser, buf, cnt)]: the return code, the bytes delivered, and the
    transport afterwards. *)
Definition read (t : transport) (cnt : Z) : Z * list Z * transport :=
  match t with
  | [] => (0, [], [])
  | [] :: t' => (0, [], t')
  | b :: t' =>
      let k := Nat.min (Z.to_nat cnt) (length b) in
      (Z.of_nat k, take k b,
       match drop k b with [] => t' | rest => rest :: t' end)
  end.

(** [read(ser, &b, 1) <= 0] and the byte [b] otherwise. *)
Definition read1 (t : transport) : option Z * transport :=
  match read t 1 with
  | (_, [b], t') => (Some b, t')
  | (_, _, t') => (None, t')
  end.

(** The [while (1)] loop of [sync], entered with the attempt counter
    [start].  The result is the return code, the final [start] and the
    transport; [None] only when the fuel runs out. *)
Fixpoint sync_loop (fuel : nat) (start : Z) (t : transport)
    : option (Z * Z * transport) :=
  match fuel with
  | O => None
  | S fuel' =>
      if start >? 20000 then Some (0, int32 (start + 1), t)
      else
        let start := int32 (start + 1) in
        match read1 t with
        | (None, t) => Some (0, start, t)
        | (Some b, t) =>
            if negb (b =? 0) then sync_loop fuel' start t
            else
              match read1 t with
              | (None, t) => Some (0, start, t)
              | (Some b, t) =>
                  if negb (b =? 255) then sync_loop fuel' start t
                  else
                    match read1 t with
                    | (None, t) => Some (0, start, t)
                    | (Some b, t) =>
                        if negb (b =? 32) then sync_loop fuel' start t
                        else
                          match read1 t with
                          | (None, t) => Some (0, start, t)
                          | (Some b, t) =>
                              if b =? 39 then Some (1, start, t)
                              else sync_loop fuel' start t
                          end
                    end
              end
        end
  end.

(** Loop iterations that [sync] can start: the counter runs from 0 to
    20001. *)
Definition sync_fuel : nat := Z.to_nat 20002.

(** [sync]: find the start code, then take stray bytes after the warm-up
    as the answer to a resolution command. *)
Definition sync (frame : Z) (e : est) (t : transport)
    : option (Z * est * transport) :=
  '(rc, start, t') ← sync_loop sync_fuel 0 t;
  if rc =? 0 then Some (0, e, t')
  else if (start >? 1) && (frame >? 2) then
    e' ← depth_step e; Some (1, e', t')
  else Some (1, e, t').

(** The [while (1)] loop of [fill_raw], entered with [n] bytes already in
    [pkt]; [None] only when the fuel runs out. *)
Fixpoint fill_raw_loop (fuel : nat) (n : Z) (pkt : list Z) (t : transport)
    : option (Z * list Z * transport) :=
  match fuel with
  | O => None
  | S fuel' =>
      let '(rc, bs, t') := read t (10018 - n) in
      if rc <=? 0 then Some (0, pkt, t')
      else
        let pkt' := store pkt n bs in
        let n' := n + rc in
        if n' >=? 10018 then Some (1, pkt', t')
        else fill_raw_loop fuel' n' pkt' t'
  end.

(** Every successful [read] delivers a byte, so 10018 calls are enough. *)
Definition fill_fuel : nat := Z.to_nat 10018.

Definition fill_raw (pkt : list Z) (t : transport)
    : option (Z * list Z * transport) :=
  fill_raw_loop fill_fuel 0 pkt t.

(** The four bytes [00 FF 20 27] that open a packet. *)
Definition sentinel : list Z := [0; 255; 32; 39].

(** What a return of the scanning loop, entered with the counter at
    [start], says about the stream: the bytes [used] were taken off the
    transport, between one and four for each attempt that was completed;
    a success ends exactly on the start code; a failure comes from the
    attempt budget or from a read that yielded nothing. *)
Definition scanned (start : Z) (t : transport) (rc start' : Z)
    (t' : transport) : Prop :=
  exists used,
    pending t = used ++ pending t'
    /\ start < start' <= 20002
    /\ start' - start - 1 <= Z.of_nat (length used) <= 4 * (start' - start)
    /\ ((rc = 1 /\ start' <= 20001
         /\ exists skipped, used = skipped ++ sentinel)
        \/ (rc = 0
            /\ (start' = 20002 \/ exists t1, read1 t1 = (None, t')))).




End Framer.

(** ** 5x5 median filter with a sliding histogram *)

Module Median.

(** Working state of [median5x5]: the histogram [vals], the cache
    [lowest] of low occupied bins, and the lowest occupied bin [bot]. *)
Record hist := Hist { vals : list Z; lowest : list Z; bot : Z }.

(** [now = ((now <= 0) ? 0 : ((now < 9900) ? now : 9900))]. *)
Definition clamp_row (now : Z) : Z :=
  if now <=? 0 then 0 else if now <? 9900 then now else 9900.

(** The row offsets [j = -200; j < 300; j += 100]. *)
Definition rows5 : list Z := [-200; -100; 0; 100; 200].

(** [bot = ((pel < bot) ? pel : bot); vals[pel] += k]. *)
Definition add_pel (pel k : Z) (h : hist) : hist :=
  Hist (wr (vals h) pel (rd (vals h) pel + k)) (lowest h)
       (if pel <? bot h then pel else bot h).

(** Body of the seeding loop for the row offset [j]: the left edge pixel
    three times, then its two right neighbours. *)
Definition seed_row (s : list Z) (y : Z) (h : hist) (j : Z) : hist :=
  let now := clamp_row (y + j) in
  let h := add_pel (rd s now) 3 h in
  let h := add_pel (rd s (now + 1)) 1 h in
  add_pel (rd s (now + 2)) 1 h.

(** Histogram for [x = 0] of the row at offset [y], from a cleared
    [vals] and [bot = 255]. *)
Definition seed (s : list Z) (y : Z) (h : hist) : hist :=
  fold_left (seed_row s y) rows5
    (Hist (replicate (Z.to_nat 256) 0) (lowest h) 255).

(** The scan [for (hi = bot; hi < 256; hi++)] with [n] bins left to
    visit; returns the final [hi] and the cache. *)
Fixpoint scan (n : nat) (vals : list Z) (hi sub cnt : Z) (lowest : list Z)
    : Z * list Z :=
  match n with
  | O => (hi, lowest)
  | S n' =>
      let v := rd vals hi in
      if v >? 0 then
        let '(lowest, cnt) :=
          if cnt <? 6 then (wr lowest cnt hi, cnt + 1) else (lowest, cnt) in
        let sub := sub + v in
        if sub >=? 13 then (hi, lowest)
        else scan n' vals (hi + 1) sub cnt lowest
      else scan n' vals (hi + 1) sub cnt lowest
  end.

(** Body of the loop that removes the old left column; the local [cnt]
    is threaded with the histogram. *)
Definition drop_pel (s : list Z) (y nowx : Z) (st : hist * Z) (j : Z)
    : hist * Z :=
  let '(h, cnt) := st in
  let now := clamp_row (y + j) in
  let pel := rd s (now + nowx) in
  let '(bot', cnt') :=
    if (pel =? bot h) && (rd (vals h) pel <=? 1)
    then (rd (lowest h) (cnt + 1), cnt + 1) else (bot h, cnt) in
  (Hist (wr (vals h) pel (rd (vals h) pel - 1)) (lowest h) bot', cnt').

(** Body of the loop that adds the next right column. *)
Definition push_pel (s : list Z) (y nowx : Z) (h : hist) (j : Z) : hist :=
  let now := clamp_row (y + j) in
  add_pel (rd s (now + nowx)) 1 h.

(** Shift of the histogram box from column [x] to column [x + 1]. *)
Definition slide (s : list Z) (y x : Z) (h : hist) : hist :=
  let nowx := x - 2 in
  let nowx := if nowx <=? 0 then 0 else nowx in
  let h := fst (fold_left (drop_pel s y nowx) rows5 (h, 0)) in
  let nowx := x + 3 in
  let nowx := if nowx <? 99 then nowx else 99 in
  fold_left (push_pel s y nowx) rows5 h.

(** The loop [for (x = 0; x < 100; x++, d++)] with [n] columns left;
    [d] is the offset of the output pointer in [med]. *)
Fixpoint row_loop (n : nat) (s : list Z) (y x d : Z) (h : hist)
    (med : list Z) : hist * list Z * Z :=
  match n with
  | O => (h, med, d)
  | S n' =>
      let '(hi, low) :=
        scan (Z.to_nat (256 - bot h)) (vals h) (bot h) 0 0 (lowest h) in
      let med := wr med d (uchar hi) in
      let h := Hist (vals h) low (bot h) in
      if x >=? 99 then row_loop n' s y (x + 1) (d + 1) h med
      else row_loop n' s y (x + 1) (d + 1) (slide s y x h) med
  end.

(** The loop [for (y = 0; y < 10000; y += 100)] with [n] rows left. *)
Fixpoint image_loop (n : nat) (s : list Z) (y d : Z) (h : hist)
    (med : list Z) : hist * list Z :=
  match n with
  | O => (h, med)
  | S n' =>
      let '(h, med, d) :=
        row_loop (Z.to_nat 100) s y 0 d (seed s y h) med in
      image_loop n' s (y + 100) d h med
  end.

(** [median5x5]: filters the image [s] into [med]; [h] holds what the
    member arrays contained on entry. *)
Definition median5x5 (s : list Z) (h : hist) (med : list Z)
    : hist * list Z :=
  image_loop (Z.to_nat 100) s 0 0 h med.

(** An image whose 10000 pixels all hold [c]. *)
Definition uniform (s : list Z) (c : Z) : Prop :=
  forall i, 0 <= i < 10000 -> rd s i = c.

(** A histogram whose [n] samples all sit in bin [c], with [bot] on that
    bin. *)
Definition level (c n : Z) (h : hist) : Prop :=
  vals h = wr (replicate (Z.to_nat 256) 0) c n /\ bot h = c.

(** *** What the filter is meant to compute *)

(** Replication of the border: a row or column number outside the image
    is moved to the nearest one inside. *)
Definition edge (v : Z) : Z := Z.max 0 (Z.min 99 v).

(** The pixel at row [r] and column [c] of the 100 by 100 image [s]. *)
Definition pix (s : list Z) (r c : Z) : Z := rd s (100 * edge r + edge c).

(** The five pixels of column [c] around row [r]. *)
Definition column (s : list Z) (r c : Z) : list Z :=
  (fun dr => pix s (r + dr) c) <$> [-2; -1; 0; 1; 2].

(** The 25 pixels of the 5 by 5 box centred on row [r] and column [c]. *)
Definition box (s : list Z) (r c : Z) : list Z :=
  column s r (c - 2) ++ column s r (c - 1) ++ column s r c
  ++ column s r (c + 1) ++ column s r (c + 2).

(** Number of samples of [w] smaller than [m]. *)
Definition below (w : list Z) (m : Z) : Z :=
  Z.of_nat (length (filter (fun v => v < m) w)).

(** [m] is the 13th smallest of the samples [w]: fewer than 13 samples
    are smaller than [m] and at least 13 are at most [m]. *)
Definition median_of (w : list Z) (m : Z) : Prop :=
  below w m < 13 <= below w (m + 1).

(** *** Invariants of the sliding histogram *)

(** Number of samples of [w] equal to [b]. *)
Definition occ (w : list Z) (b : Z) : Z := below w (b + 1) - below w b.

Definition ind (a b : Z) : Z := if decide (a = b) then 1 else 0.

(** The pixel read at row offset [y + j], clamped, and column [c]. *)
Definition sample (s : list Z) (y c j : Z) : Z :=
  rd s (clamp_row (y + j) + c).

(** The array [v] is the histogram of the samples [w]. *)
Definition tally (v w : list Z) : Prop :=
  Z.of_nat (length v) = 256 /\ forall b, 0 <= b < 256 -> rd v b = occ w b.

(** No sample of [w] is smaller than [bot]. *)
Definition floor_ok (w : list Z) (bot : Z) : Prop :=
  0 <= bot <= 255 /\ forall b, 0 <= b < bot -> occ w b = 0.

(** The first [k] cells of [low] list, in increasing order, the occupied
    bins of [bot0 <= b < hi]: all of them, or the lowest six. *)
Definition cache_ok (w : list Z) (bot0 hi : Z) (low : list Z) (k : Z) : Prop :=
  Z.of_nat (length low) = 6 /\ 0 <= k <= 6
  /\ (forall i, 0 <= i < k -> bot0 <= rd low i < hi)
  /\ (forall i j, 0 <= i < j -> j < k -> rd low i < rd low j)
  /\ (forall b, bot0 <= b < hi -> 0 < occ w b ->
        (exists i, 0 <= i < k /\ rd low i = b) \/ (k = 6 /\ rd low 5 < b)).

(** The state at the top of the column loop: the histogram holds the box
    of column [x], and [bot] is at most its smallest sample. *)
Definition primed (s : list Z) (r x : Z) (h : hist) : Prop :=
  tally (vals h) (box s r x) /\ floor_ok (box s r x) (bot h)
  /\ Z.of_nat (length (lowest h)) = 6.

End Median.

(** ** Triple buffer between the worker and the consumer *)

Module Rotor.

(** The three output arrays, named as in the class. *)
Inductive buf := d0 | d1 | d2.

#[global] Instance buf_eq_dec : EqDecision buf.
Proof. solve_decision. Defined.

(** The members shared by the two threads; a buffer pointer is [None]
    when it is [NULL]. *)
Record rotor := Rot {
  ok : Z;
  fill : option buf;
  done : option buf;
  lock : option buf;
  fresh : Z;
  frame : Z
}.

(** [Start], given the result [usb] of [open_usb]. *)
Definition Start (usb : Z) (r : rotor) : rotor :=
  if usb <=? 0 then Rot (-1) (fill r) (done r) (lock r) (fresh r) (frame r)
  else Rot 1 (Some d0) None None (-2) (frame r).

(** [swap_bufs]: the critical section, then [frame++]. *)
Definition swap_bufs (r : rotor) : rotor :=
  let done' := fill r in
  let fresh' := int32 (fresh r + 1) in
  let fill' :=
    if decide (fill r = Some d0) then
      (if decide (lock r <> Some d1) then Some d1 else Some d2)
    else if decide (fill r = Some d1) then
      (if decide (lock r <> Some d0) then Some d0 else Some d2)
    else
      (if decide (lock r <> Some d0) then Some d0 else Some d1) in
  Rot (ok r) fill' done' (lock r) fresh' (int32 (frame r + 1)).

(** The worker completing [n] frames while the consumer is not looking. *)
Definition worker (n : nat) (r : rotor) : rotor := Nat.iter n swap_bufs r.

(** The polling loop of [Range].  [w k] is the number of frames the
    worker publishes during the [k]-th call of [usleep(1000)], and [k]
    counts the calls made so far.  The result tells whether a fresh frame
    was seen; [None] only when the fuel runs out. *)
Fixpoint Range_poll (fuel : nat) (block wait : Z) (w : nat -> nat)
    (k : nat) (r : rotor) : option (bool * rotor * nat) :=
  match fuel with
  | O => None
  | S fuel' =>
      if fresh r <=? 0 then
        if block <=? 0 then Some (false, r, k)
        else if wait >? 500 then Some (false, r, k)
        else Range_poll fuel' block (int32 (wait + 1)) w (S k)
               (worker (w k) r)
      else Some (true, r, k)
  end.

(** The critical section of [Range]: [lock = done; fresh = 0]. *)
Definition take_done (r : rotor) : rotor :=
  Rot (ok r) (fill r) (done r) (done r) 0 (frame r).

(** The loop test is evaluated for [wait] from 0 to 501. *)
Definition poll_fuel : nat := Z.to_nat 502.

(** [Range(block)]: returned pointer, state, and number of 1 ms sleeps.
    [late] frames are published between the last poll and the moment the
    consumer holds the mutex. *)
Definition Range (block : Z) (w : nat -> nat) (late : nat) (r : rotor)
    : option (option buf * rotor * nat) :=
  if ok r <=? 0 then Some (None, r, O)
  else
    '(seen, r, k) ← Range_poll poll_fuel block 0 w O r;
    if seen : bool then
      let r := take_done (worker late r) in
      Some (lock r, r, k)
    else Some (None, r, k).

(** The worker leaving [main_loop]: [ok = 0]. *)
Definition stream_end (r : rotor) : rotor :=
  Rot 0 (fill r) (done r) (lock r) (fresh r) (frame r).

(** States the two threads can reach once [Start] has succeeded. *)
Inductive reachable : rotor -> Prop :=
  | reach_start usb r : 0 < usb -> reachable (Start usb r)
  | reach_swap r : reachable r -> reachable (swap_bufs r)
  | reach_range r block w late res r' k :
      reachable r -> Range block w late r = Some (res, r', k) ->
      reachable r'
  | reach_end r : reachable r -> reachable (stream_end r).

(** What both threads rely on: the worker's target is an array, and it is
    neither the one the consumer holds nor the last one published. *)
Definition safe (r : rotor) : Prop :=
  is_Some (fill r) /\ fill r <> lock r /\ fill r <> done r.

(** The state the consumer finds at its [k]-th look at [fresh] after the
    first one, the worker following the schedule [w]. *)
Fixpoint polled (w : nat -> nat) (k : nat) (r : rotor) : rotor :=
  match k with
  | O => r
  | S k' => worker (w k') (polled w k' r)
  end.

(** How many of the three roles name the array [b]. *)
Definition uses (b : buf) (r : rotor) : nat :=
  length (filter (fun p => p = Some b) [fill r; done r; lock r]).

End Rotor.

(** ** Debugging view of the held buffer *)

Module Debug.

(** One pixel of [Night]: [v = *s >> dn], capped at 255, then
    [(unsigned char)(255 - v)]. *)
Definition Night_pel (dn s : Z) : Z :=
  let v := Z.shiftr s dn in
  let v := if v <? 255 then v else 255 in
  uchar (255 - v).

(** The loop [for (i = 10000; i > 0; i--, s++, d++)]: [n] iterations left,
    both pointers at offset [j]. *)
Fixpoint Night_loop (n : nat) (j dn : Z) (s nite : list Z) : list Z :=
  match n with
  | O => nite
  | S n' => Night_loop n' (j + 1) dn s (wr nite j (Night_pel dn (rd s j)))
  end.

(** [Night(sh)]: [lock] is the 16-bit image the consumer holds ([None]
    for [NULL]).  The inner result is the returned pointer, [None] for
    [NULL] and the contents of [nite] otherwise; the outer one is [None]
    when the shift count [sh + 2] is outside 0..31, which C leaves
    undefined. *)
Definition Night (sh : Z) (lock : option (list Z)) (nite : list Z)
    : option (option (list Z)) :=
  let dn := int32 (sh + 2) in
  match lock with
  | None => Some None
  | Some s =>
      if (dn <? 0) || (dn >=? 32) then None
      else Some (Some (Night_loop (Z.to_nat 10000) 0 dn s nite))
  end.

(** A 16-bit image: every cell holds a value in [0, 65535]. *)
Definition words (a : list Z) : Prop := Forall (fun w => 0 <= w <= 65535) a.

End Debug.

(** ** Automatic ranging and the acquisition loop *)

Module Driver.

(** The three floating-point expressions of [auto_range], left abstract:
    [miss_of c255 area] is [(int)((100.0 * c255) / area + 0.5)],
    [stop_of pct n] is [(int)(0.01 * pct * n + 0.5)] and
    [goal_of ub ihi] is [(int)(ub / (float) ihi + 0.5)]. *)
Record fpu := Fpu {
  miss_of : Z -> Z -> Z;
  stop_of : Z -> Z -> Z;
  goal_of : Z -> Z -> Z
}.

(** The public tuning members; [fi] and [mn] stand for [f0] and [nv]
    through the integers [flywheel] derives from them. *)
Record tuning := Tuning {
  sat : Z; pct : Z; ihi : Z; cx0 : Z; cy0 : Z; cw : Z; ch : Z;
  fi : Z; mn : Z; vlim : Z
}.

(** The command buffer ["AT+UNIT=2\r"] after [cmd[8] = '0' + d]. *)
Definition cmd_unit (d : Z) : list Z :=
  [65; 84; 43; 85; 78; 73; 84; 61; uchar (48 + d); 13].

(** The loop [for (x = 0; x < cw; x++, s++) cent[*s] += 1] with [n]
    iterations left and [s] at offset [k] of the raw image. *)
Fixpoint roi_x (n : nat) (s : list Z) (k : Z) (cent : list Z)
    : list Z * Z :=
  match n with
  | O => (cent, k)
  | S n' => roi_x n' s (k + 1) (wr cent (rd s k) (rd cent (rd s k) + 1))
  end.

(** The loop [for (y = 0; y < ch; y++, s += skip)]. *)
Fixpoint roi_y (n : nat) (cw skip : Z) (s : list Z) (k : Z)
    (cent : list Z) : list Z :=
  match n with
  | O => cent
  | S n' =>
      let '(cent, k) := roi_x (Z.to_nat cw) s k cent in
      roi_y n' cw skip s (k + skip) cent
  end.

(** The loop [for (bulk = 0; bulk < 255; bulk++)] that looks for the
    percentile bin; returns the final [bulk]. *)
Fixpoint pct_scan (n : nat) (cent : list Z) (bulk sum stop : Z) : Z :=
  match n with
  | O => bulk
  | S n' =>
      let sum := sum + rd cent bulk in
      if sum >=? stop then bulk
      else pct_scan n' cent (bulk + 1) sum stop
  end.

(** [auto_range]: the histogram [cent] afterwards, the new [pend], and
    the commands written to the sensor, on the raw image as an array of
    its own; [auto_range_chk] below is the same code on the packet
    buffer, with the bounds of that buffer. *)
Definition auto_range (F : fpu) (T : tuning) (frame : Z) (raw cent : list Z)
    (unit pend : Z) : list Z * Z * list (list Z) :=
  if frame <? 2 then (cent, pend, [])
  else
    let area := int32 (cw T * ch T) in
    let skip := 100 - cw T in
    let cent := replicate (Z.to_nat 256) 0 in
    let cent :=
      roi_y (Z.to_nat (ch T)) (cw T) skip raw (100 * cy0 T + cx0 T) cent in
    let miss := miss_of F (rd cent 255) area in
    let stop := stop_of F (pct T) (area - rd cent 255) in
    let bulk := pct_scan (Z.to_nat 255) cent 0 0 stop in
    let goal := goal_of F (int32 (unit * bulk)) (ihi T) in
    let goal := if goal <=? 1 then 1 else if goal <? 9 then goal else 9 in
    let goal :=
      if (miss >? sat T) && (goal <=? unit) && (unit <? 9)
      then unit + 1 else goal in
    if negb (goal =? unit) && (pend =? unit)
    then (cent, goal, [cmd_unit goal])
    else (cent, pend, []).

(** The read [*s] with [s] at offset [k] of [raw = pkt + 16], as the
    machine performs it: [None] when the address lies outside the cells
    of [pkt]. *)
Definition fetch (pkt : list Z) (k : Z) : option Z :=
  if 16 + k <? 0 then None else pkt !! Z.to_nat (16 + k).

(** The loops of [auto_range] over the region of interest, every read
    of [*s] checked against the packet buffer. *)
Fixpoint roi_x_chk (n : nat) (pkt : list Z) (k : Z) (cent : list Z)
    : option (list Z * Z) :=
  match n with
  | O => Some (cent, k)
  | S n' =>
      v ← fetch pkt k;
      roi_x_chk n' pkt (k + 1) (wr cent v (rd cent v + 1))
  end.

Fixpoint roi_y_chk (n : nat) (cw skip : Z) (pkt : list Z) (k : Z)
    (cent : list Z) : option (list Z) :=
  match n with
  | O => Some cent
  | S n' =>
      '(cent, k) ← roi_x_chk (Z.to_nat cw) pkt k cent;
      roi_y_chk n' cw skip pkt (k + skip) cent
  end.

(** [auto_range] as [main_loop] runs it, on the packet buffer itself:
    [None] when one of its reads falls outside [pkt]. *)
Definition auto_range_chk (F : fpu) (T : tuning) (frame : Z)
    (pkt cent : list Z) (unit pend : Z)
    : option (list Z * Z * list (list Z)) :=
  if frame <? 2 then Some (cent, pend, [])
  else
    let area := int32 (cw T * ch T) in
    let skip := 100 - cw T in
    let cent := replicate (Z.to_nat 256) 0 in
    cent ←
      roi_y_chk (Z.to_nat (ch T)) (cw T) skip pkt (100 * cy0 T + cx0 T) cent;
    let miss := miss_of F (rd cent 255) area in
    let stop := stop_of F (pct T) (area - rd cent 255) in
    let bulk := pct_scan (Z.to_nat 255) cent 0 0 stop in
    let goal := goal_of F (int32 (unit * bulk)) (ihi T) in
    let goal := if goal <=? 1 then 1 else if goal <? 9 then goal else 9 in
    let goal :=
      if (miss >? sat T) && (goal <=? unit) && (unit <? 9)
      then unit + 1 else goal in
    if negb (goal =? unit) && (pend =? unit)
    then Some (cent, goal, [cmd_unit goal])
    else Some (cent, pend, []).

(** The members the acquisition thread works on; [d0c], [d1c], [d2c]
    are the three output arrays as 16-bit words, [sent] the commands
    written to the sensor so far. *)
Record cam := Cam {
  est : Filter.est;
  pkt : list Z;
  med : list Z;
  hist : Median.hist;
  cent : list Z;
  rot : Rotor.rotor;
  d0c : list Z;
  d1c : list Z;
  d2c : list Z;
  sent : list (list Z)
}.

(** The array a buffer pointer designates. *)
Definition get_buf (b : Rotor.buf) (c : cam) : list Z :=
  match b with
  | Rotor.d0 => d0c c
  | Rotor.d1 => d1c c
  | Rotor.d2 => d2c c
  end.

(** The state after the loop was left through a [break]: [ok = 0]. *)
Definition broken (c : cam) (e : Filter.est) (pkt : list Z) : cam :=
  Cam e pkt (med c) (hist c) (cent c) (Rotor.stream_end (rot c))
      (d0c c) (d1c c) (d2c c) (sent c).

(** One pass through the body of [main_loop].  The code is 1 when the
    pass completed and 0 when it left the loop; [None] when the pass
    traps: a division by zero in [flywheel], a read of [auto_range]
    outside [pkt], a [fill] that names no array, or a read loop of
    [sync] or [fill_raw] that does not end. *)
Definition frame_step (F : fpu) (T : tuning) (c : cam)
    (t : Framer.transport) : option (Z * cam * Framer.transport) :=
  let frame := Rotor.frame (rot c) in
  '(rc, e, t) ← Framer.sync frame (est c) t;
  if rc <=? 0 then Some (0, broken c e (pkt c), t)
  else
    '(rc, pkt, t) ← Framer.fill_raw (pkt c) t;
    if rc <=? 0 then Some (0, broken c e pkt, t)
    else
      '(cent, pend, out) ←
        auto_range_chk F T frame pkt (cent c)
          (Filter.unit e) (Filter.pend e);
      let '(hist, med) := Median.median5x5 (Lut.raw pkt) (hist c) (med c) in
      '(avg, var) ←
        Filter.flywheel (fi T) (mn T) frame med (Filter.avg e) (Filter.var e);
      b ← Rotor.fill (rot c);
      let img :=
        Lut.reformat Lut.build_lut (Filter.unit e) (vlim T) pkt avg var
          (get_buf b c) in
      Some (1,
            Cam (Filter.Est avg var (Filter.unit e) pend) pkt med hist cent
              (Rotor.swap_bufs (rot c))
              (if decide (b = Rotor.d0) then img else d0c c)
              (if decide (b = Rotor.d1) then img else d1c c)
              (if decide (b = Rotor.d2) then img else d2c c)
              (sent c ++ out),
            t).

(** At most [n] passes of [main_loop] with [run] staying positive; the
    flag tells whether the loop is still running. *)
Fixpoint main_loop (n : nat) (F : fpu) (T : tuning) (c : cam)
    (t : Framer.transport) : option (bool * cam * Framer.transport) :=
  match n with
  | O => Some (true, c, t)
  | S n' =>
      '(rc, c, t) ← frame_step F T c t;
      if rc <=? 0 then Some (false, c, t) else main_loop n' F T c t
  end.

(** What the acquisition thread keeps true of its members. *)
Definition steady (c : cam) : Prop :=
  1 <= Filter.unit (est c) <= 9 /\ 1 <= Filter.pend (est c) <= 9
  /\ bytes (Filter.avg (est c)) /\ bytes (Filter.var (est c))
  /\ Z.of_nat (length (Filter.avg (est c))) = 10000
  /\ Z.of_nat (length (Filter.var (est c))) = 10000
  /\ Z.of_nat (length (pkt c)) = 10018
  /\ Z.of_nat (length (med c)) = 10000
  /\ (forall b, Z.of_nat (length (get_buf b c)) = 10000)
  /\ Rotor.safe (rot c).

(** An estimator whose members are what their C types and the data model
    say: resolutions in 1..9, byte images of 10,000 cells. *)
Definition fit (e : Filter.est) : Prop :=
  1 <= Filter.unit e <= 9 /\ 1 <= Filter.pend e <= 9
  /\ bytes (Filter.avg e) /\ bytes (Filter.var e)
  /\ Z.of_nat (length (Filter.avg e)) = 10000
  /\ Z.of_nat (length (Filter.var e)) = 10000.

(** The region of interest lies inside the 100 by 100 image. *)
Definition roi_inside (T : tuning) : Prop :=
  0 <= cx0 T /\ 0 <= cw T /\ cx0 T + cw T <= 100
  /\ 0 <= cy0 T /\ 0 <= ch T /\ cy0 T + ch T <= 100.

(** Tuning values for which the temporal filter stays within [int] and
    divides by no zero, [fi] in 0..128 and [mn] in 1..2^30 - 1, and for
    which [auto_range] reads inside the image. *)
Definition tame (T : tuning) : Prop :=
  0 <= fi T <= 128 /\ 0 < mn T < 1073741824 /\ roi_inside T.

(** A transport that delivers bytes. *)
Definition octets (t : Framer.transport) : Prop := bytes (Framer.pending t).

(** The pixels of the central region of interest: [ch] rows of [cw]
    pixels from row [cy0] and column [cx0]. *)
Definition roi (T : tuning) (raw : list Z) : list Z :=
  concat ((fun y => rd raw <$> seqZ (100 * y + cx0 T) (cw T))
            <$> seqZ (cy0 T) (ch T)).

End Driver.

(** ** Opening and closing the sensor *)

Module Life.

(** The serial port members: the descriptor [ser] and the flag [run] of
    the acquisition thread. *)
Record port := Port { ser : Z; run : Z }.

(** The commands of [Start] and [Done], ten bytes each. *)
Definition cmd_disp (d : Z) : list Z :=
  [65; 84; 43; 68; 73; 83; 80; 61; 48 + d; 13].

(** [open_usb], given what [open], [tcgetattr] and [tcsetattr] return:
    the new [ser] and the return code. *)
Definition open_usb (fd ga sa : Z) : Z * Z :=
  if fd <? 0 then (fd, -1)
  else if negb (ga =? 0) then (fd, 0)
  else if negb (sa =? 0) then (fd, 0)
  else (fd, 1).

(** [Start]: the return code, the camera and the port. *)
Definition Start (fd ga sa : Z) (c : Driver.cam) (p : port)
    : Z * Driver.cam * port :=
  let '(ser', usb) := open_usb fd ga sa in
  let r := Rotor.Start usb (Driver.rot c) in
  if usb <=? 0 then
    (Rotor.ok r,
     Driver.Cam (Driver.est c) (Driver.pkt c) (Driver.med c) (Driver.hist c)
       (Driver.cent c) r (Driver.d0c c) (Driver.d1c c) (Driver.d2c c)
       (Driver.sent c),
     Port ser' (run p))
  else
    (Rotor.ok r,
     Driver.Cam
       (Filter.Est (Filter.avg (Driver.est c)) (Filter.var (Driver.est c)) 2 2)
       (Driver.pkt c) (Driver.med c) (Driver.hist c) (Driver.cent c) r
       (Driver.d0c c) (Driver.d1c c) (Driver.d2c c)
       (Driver.sent c ++ [cmd_disp 3; Driver.cmd_unit 2]),
     Port ser' 1).

(** [Done]: stop the thread, restore the sensor if the port is open,
    and mark the driver as not initialised. *)
Definition Done (c : Driver.cam) (p : port) : Driver.cam * port :=
  let run' := if run p >? 0 then 0 else run p in
  let r := Driver.rot c in
  let r' := Rotor.Rot (-1) (Rotor.fill r) (Rotor.done r) (Rotor.lock r)
              (Rotor.fresh r) (Rotor.frame r) in
  let '(out, ser') :=
    if ser p >=? 0 then ([Driver.cmd_unit 0; cmd_disp 1], -1)
    else ([], ser p) in
  (Driver.Cam (Driver.est c) (Driver.pkt c) (Driver.med c) (Driver.hist c)
     (Driver.cent c) r' (Driver.d0c c) (Driver.d1c c) (Driver.d2c c)
     (Driver.sent c ++ out),
   Port ser' run').

End Life.

(** ** Image files of the capture tools *)

Module Files.

(** [putc(c, out)]: the stream is the list of bytes written so far. *)
Definition putc (c : Z) (out : list Z) : list Z := out ++ [uchar c].

(** [write16]: low byte first. *)
Definition write16 (out : list Z) (val : Z) : list Z :=
  let out := putc (Z.land val 255) out in
  putc (Z.land (Z.shiftr val 8) 255) out.

(** [write32]: low half first. *)
Definition write32 (out : list Z) (val : Z) : list Z :=
  let out := write16 out (ushort (Z.land val 65535)) in
  write16 out (ushort (Z.land (Z.shiftr val 16) 65535)).

(** [write16b]: high byte first. *)
Definition write16b (out : list Z) (val : Z) : list Z :=
  let out := putc (Z.land (Z.shiftr val 8) 255) out in
  putc (Z.land val 255) out.

(** [write32b]: high half first. *)
Definition write32b (out : list Z) (val : Z) : list Z :=
  let out := write16b out (ushort (Z.land (Z.shiftr val 16) 65535)) in
  write16b out (ushort (Z.land val 65535)).

(** The loop [for (i = 0; i < 256; i++)] writing the grey colour table,
    with [n] entries left. *)
Fixpoint palette (n : nat) (i : Z) (out : list Z) : list Z :=
  match n with
  | O => out
  | S n' =>
      let out := putc i out in
      let out := putc i out in
      let out := putc i out in
      let out := putc 0 out in
      palette n' (i + 1) out
  end.

(** The two BMP headers for a [w] by [h] image of 8 bits, with the file
    size [size] and the data offset [off] the caller passes. *)
Definition bmp_headers (size off w h : Z) : list Z :=
  let out := putc 66 [] in
  let out := putc 77 out in
  let out := write32 out size in
  let out := write32 out 0 in
  let out := write32 out off in
  let out := write32 out 40 in
  let out := write32 out w in
  let out := write32 out h in
  let out := write16 out 1 in
  let out := write16 out 8 in
  let out := write32 out 0 in
  let out := write32 out 0 in
  let out := write32 out 0 in
  let out := write32 out 0 in
  let out := write32 out 0 in
  write32 out 0.

(** The guard against a null [buf], a null [fname] or an empty name,
    followed by the result of [fopen]; [fname] is the list of its
    characters. *)
Definition may_write {A} (fname : option (list Z)) (buf : option A)
    (opened : bool) : bool :=
  match buf, fname with
  | Some _, Some (_ :: _) => opened
  | _, _ => false
  end.

(** [save_raw] of tof_save: the bytes of the file it writes, [None] when
    it returns without writing. *)
Definition save_raw (fname : option (list Z)) (buf : option (list Z))
    (opened : bool) : option (list Z) :=
  if may_write fname buf opened then
    let out := bmp_headers 11078 54 100 100 in
    let out := palette (Z.to_nat 256) 0 out in
    Some (out ++ take (Z.to_nat 10000) (default [] buf))
  else None.

(** [save_gray] of tof_vga. *)
Definition save_gray (fname : option (list Z)) (buf : option (list Z))
    (opened : bool) : option (list Z) :=
  if may_write fname buf opened then
    let out := bmp_headers 308278 1078 640 480 in
    let out := palette (Z.to_nat 256) 0 out in
    Some (out ++ take (Z.to_nat (640 * 480)) (default [] buf))
  else None.

(** The loop [for (x = 640; x > 0; x--, s++)] of [save_d16]: low byte,
    then high byte of each word; [s] is at offset [k]. *)
Fixpoint d16_row (n : nat) (buf : list Z) (k : Z) (out : list Z) : list Z :=
  match n with
  | O => out
  | S n' =>
      let out := putc (Z.land (rd buf k) 255) out in
      let out := putc (Z.land (Z.shiftr (rd buf k) 8) 255) out in
      d16_row n' buf (k + 1) out
  end.

(** The loop [for (y = 480; y > 0; y--, s0 -= 640)]. *)
Fixpoint d16_rows (n : nat) (buf : list Z) (s0 : Z) (out : list Z)
    : list Z :=
  match n with
  | O => out
  | S n' => d16_rows n' buf (s0 - 640) (d16_row (Z.to_nat 640) buf s0 out)
  end.

(** [save_d16] of tof_vga: a Sun raster file of 16-bit pixels. *)
Definition save_d16 (fname : option (list Z)) (buf : option (list Z))
    (opened : bool) : option (list Z) :=
  if may_write fname buf opened then
    let out := write32b [] 1504078485 in
    let out := write32b out 640 in
    let out := write32b out 480 in
    let out := write32b out 16 in
    let out := write32b out (640 * 480 * 2) in
    let out := write32b out 1 in
    let out := write32b out 0 in
    let out := write32b out 0 in
    Some (d16_rows (Z.to_nat 480) (default [] buf) (479 * 640) out)
  else None.

(** Reading a file back: the 32-bit value stored low byte first, or
    high byte first, at offset [k]. *)
Definition le32 (f : list Z) (k : Z) : Z :=
  rd f k + 256 * rd f (k + 1) + 65536 * rd f (k + 2)
  + 16777216 * rd f (k + 3).

Definition be32 (f : list Z) (k : Z) : Z :=
  16777216 * rd f k + 65536 * rd f (k + 1) + 256 * rd f (k + 2)
  + rd f (k + 3).

(** The grey colour table of a BMP file [f], which starts at offset 54:
    entry [i] is [i, i, i, 0]. *)
Definition grey_table (f : list Z) : Prop :=
  forall i, 0 <= i < 256 ->
    rd f (54 + 4 * i) = i /\ rd f (54 + 4 * i + 1) = i
    /\ rd f (54 + 4 * i + 2) = i /\ rd f (54 + 4 * i + 3) = 0.

End Files.

(** ** Enlarging and shading the depth image (tof_vga) *)

Module Vga.

(** What the floating-point unit gives [tof_sampling]: for the output
    row [dy], the integer part [(int) x] and the rounded fraction
    [(int)(256.0 * (x - ix) + 0.5)]; the same for the output column
    [dx]. *)
Record fpu := Fpu {
  ix_of : Z -> Z;
  fx_of : Z -> Z;
  iy_of : Z -> Z;
  fy_of : Z -> Z
}.

(** The global sampling arrays. *)
Record tables := Tables {
  sx : list Z;
  fx : list Z;
  sy : list Z;
  fy : list Z
}.

(** [tof_sampling]: the offset and the mixing factor of every output row
    and column; the factor is zero on the border of the source. *)
Definition tof_sampling (F : fpu) : tables :=
  Tables
    (ix_of F <$> seqZ 0 480)
    ((fun dy => if (ix_of F dy <=? 0) || (ix_of F dy >=? 99) then 0
                else fx_of F dy) <$> seqZ 0 480)
    ((fun dx => int32 (100 * iy_of F dx)) <$> seqZ 0 640)
    ((fun dx => if (iy_of F dx <=? 0) || (iy_of F dx >=? 99) then 0
                else fy_of F dx) <$> seqZ 0 640).

(** A read of the source image that fails outside its cells. *)
Definition peek (s : list Z) (k : Z) : option Z :=
  if k <? 0 then None else s !! Z.to_nat k.

(** [hjump] and [vjump]: [(int)(4.0 * 101.6 + 0.5)]. *)
Definition jump : Z := 406.

(** Mix of [a] with [b] by the factor [f] out of 256, unless they differ
    by a jump, in which case the nearer one is taken. *)
Definition blend (a b f : Z) : Z :=
  if Z.abs (b - a) <? jump
  then Z.shiftr (int32 (int32 (a * 256) + int32 (f * (b - a)))) 8
  else if f >=? 128 then b else a.

(** One side of the quad: [s[k]] mixed with [s[k + 1]] when [hf > 0];
    the inner [None] is an invalid pixel in the quad, the outer one a
    read outside the image. *)
Definition side (s : list Z) (k hf : Z) : option (option Z) :=
  a ← peek s k;
  if a =? 65535 then Some None
  else if hf >? 0 then
    b ← peek s (k + 1);
    if b =? 65535 then Some None else Some (Some (blend a b hf))
  else Some (Some a).

(** The word stored in [*d] for the source column [i], the line offset
    [off] and the mixing factors [hf] and [vf]. *)
Definition z16_pel (s : list Z) (i hf off vf : Z) : option Z :=
  let ref := int32 (off + i) in
  if (ref <? 0) || (ref >=? 10000) then Some 65535
  else
    lower ← side s ref hf;
    match lower with
    | None => Some 65535
    | Some bot =>
        if vf <=? 0 then Some (ushort bot)
        else
          upper ← side s (ref + 100) hf;
          match upper with
          | None => Some 65535
          | Some top => Some (ushort (blend bot top vf))
          end
    end.

(** The loop [for (dx = 0; dx < 640; dx++, d++)] with [n] columns left;
    [d] is the offset of the output pointer in [dest]. *)
Fixpoint z16_cols (n : nat) (T : tables) (s : list Z) (i hf dx d : Z)
    (dest : list Z) : option (list Z) :=
  match n with
  | O => Some dest
  | S n' =>
      v ← z16_pel s i hf (rd (sy T) dx) (rd (fy T) dx);
      z16_cols n' T s i hf (dx + 1) (d + 1) (wr dest d v)
  end.

(** The loop [for (dy = 0; dy < 480; dy++)] with [n] rows left. *)
Fixpoint z16_rows (n : nat) (T : tables) (s : list Z) (dy d : Z)
    (dest : list Z) : option (list Z) :=
  match n with
  | O => Some dest
  | S n' =>
      let i := rd (sx T) dy in
      if (i <? 0) || (i >=? 100) then
        z16_rows n' T s (dy + 1) (d + 640)
          (store dest d (replicate (Z.to_nat 640) 65535))
      else
        dest ← z16_cols (Z.to_nat 640) T s i (rd (fx T) dy) 0 d dest;
        z16_rows n' T s (dy + 1) (d + 640) dest
  end.

(** [set_z16_tof]: the new contents of [dest], or [None] when a read
    falls outside the source image [buf] of 10000 words. *)
Definition set_z16_tof (T : tables) (dest buf : list Z) : option (list Z) :=
  z16_rows (Z.to_nat 480) T buf 0 0 dest.

(** The floating-point results that are possible for [tof_sampling]: a
    fraction is between 0 and 256, and an integer part can be multiplied
    by 100. *)
Definition plausible (F : fpu) : Prop :=
  (forall dy, 0 <= dy < 480 -> 0 <= fx_of F dy <= 256)
  /\ (forall dx, 0 <= dx < 640 -> 0 <= fy_of F dx <= 256)
  /\ (forall dx, 0 <= dx < 640 -> -20000000 <= iy_of F dx <= 20000000).

(** The words of the 2 by 2 quad at [ref] that are valid all lie in
    [lo, hi]. *)
Definition quad_within (s : list Z) (ref lo hi : Z) : Prop :=
  forall k, In k [ref; ref + 1; ref + 100; ref + 101] ->
    0 <= k < 10000 -> rd s k <> 65535 -> lo <= rd s k <= hi.


(** The macros [__min] and [__max]. *)
Definition min_ (a b : Z) : Z := if a <? b then a else b.
Definition max_ (a b : Z) : Z := if a >? b then a else b.

(** [__max(0, __min(v, 65535))]. *)
Definition clamp16 (v : Z) : Z := max_ 0 (min_ v 65535).

(** The grey level of the depth word [s]: 0 for an unknown depth, else
    255 minus the scaled offset from [bot], kept in 1..255. *)
Definition remap_pel (f bot s : Z) : Z :=
  if s >? 40000 then 0
  else
    let vsc := Z.shiftr (int32 (int32 (f * (s - bot)) + 32768)) 16 in
    let vsc := max_ 0 (min_ vsc 254) in
    uchar (255 - vsc).

(** The two pixel loops of [remap_16], which walk both images in step,
    with [n] pixels left. *)
Fixpoint remap_loop (n : nat) (i f bot : Z) (d16 d8 : list Z) : list Z :=
  match n with
  | O => d8
  | S n' =>
      remap_loop n' (i + 1) f bot d16 (wr d8 i (remap_pel f bot (rd d16 i)))
  end.

(** [remap_16]: the new contents of [d8]; [None] when the division
    traps. *)
Definition remap_16 (d8 d16 : list Z) (lo16 hi16 lo8 hi8 : Z)
    : option (list Z) :=
  let bot := clamp16 lo16 in
  let top := clamp16 hi16 in
  if top =? bot then Some (store d8 0 (replicate (Z.to_nat (640 * 480)) 0))
  else
    f ← idiv (int32 (int32 (hi8 - lo8) * 65536)) (top - bot);
    Some (remap_loop (Z.to_nat (640 * 480)) 0 f bot d16 d8).

(** The scaling of the depth word [s] evaluated without wrap-around:
    every sub-expression has a value that an [int] holds. *)
Definition remap_fits (f bot s : Z) : Prop :=
  in_int (s - bot) /\ in_int (f * (s - bot))
  /\ in_int (f * (s - bot) + 32768).

(** The conversion coefficient evaluated without wrap-around: the
    difference and its shift have values that an [int] holds, the value
    shifted is not negative, and the divisor is not zero. *)
Definition scale_fits (lo8 hi8 top bot : Z) : Prop :=
  in_int (hi8 - lo8) /\ 0 <= hi8 - lo8 /\ in_int ((hi8 - lo8) * 65536)
  /\ in_int (top - bot) /\ top - bot <> 0.

End Vga.

(** ** Display layout (tof_show) *)

Module Show.

(** The loop [for (i = 0; i < 3; i++, d++)] with [n] copies left; [d] is
    the offset of the output pointer in [dest]. *)
Fixpoint rot3_i (n : nat) (v d : Z) (dest : list Z) : list Z * Z :=
  match n with
  | O => (dest, d)
  | S n' => rot3_i n' v (d + 1) (wr dest d v)
  end.

(** The loop [for (j = 0; j < 3; j++, d += 297)]. *)
Fixpoint rot3_j (n : nat) (v d : Z) (dest : list Z) : list Z * Z :=
  match n with
  | O => (dest, d)
  | S n' =>
      let '(dest, d) := rot3_i (Z.to_nat 3) v d dest in
      rot3_j n' v (d + 297) dest
  end.

(** The loop [for (y = 0, d = d0; y < 100; y++, s++)]; [s] is the offset
    of the input pointer in [src]. *)
Fixpoint rot3_y (n : nat) (src : list Z) (s d : Z) (dest : list Z)
    : list Z * Z :=
  match n with
  | O => (dest, s)
  | S n' =>
      let '(dest, d) := rot3_j (Z.to_nat 3) (rd src s) d dest in
      rot3_y n' src (s + 1) d dest
  end.

(** The loop [for (x = 99; x >= 0; x--, d0 -= 3)]. *)
Fixpoint rot3_x (n : nat) (src : list Z) (s d0 : Z) (dest : list Z)
    : list Z :=
  match n with
  | O => dest
  | S n' =>
      let '(dest, s) := rot3_y (Z.to_nat 100) src s d0 dest in
      rot3_x n' src s (d0 - 3) dest
  end.

(** [mono_rot3]: the contents of [dest] afterwards; a null pointer leaves
    everything as it is. *)
Definition mono_rot3 (dest src : option (list Z)) : option (list Z) :=
  match dest, src with
  | Some d, Some s => Some (rot3_x (Z.to_nat 100) s 0 297 d)
  | _, _ => dest
  end.

End Show.

(** ** Time-outs of the thread layer *)

Module Clock.

(** A [timespec]: seconds and nanoseconds. *)
Record timespec := Timespec { tv_sec : Z; tv_nsec : Z }.

(** [abstime_wait] of the POSIX branch, given the time [now] that
    [clock_gettime] stored; [/] and [%] truncate towards zero. *)
Definition abstime_wait (now : timespec) (ms : Z) : timespec :=
  let sec := tv_sec now + Z.quot ms 1000 in
  let nsec := tv_nsec now + 1000000 * Z.rem ms 1000 in
  if nsec >=? 1000000000 then Timespec (sec + 1) (nsec - 1000000000)
  else Timespec sec nsec.

(** The instant a [timespec] denotes, in nanoseconds. *)
Definition nanos (t : timespec) : Z := 1000000000 * tv_sec t + tv_nsec t.

End Clock.

(** ** Sample inputs *)

(** Packets and images that hold one value throughout. *)
Definition pkt50 : list Z := replicate (Z.to_nat 10018) 50.
Definition img50 : list Z := replicate (Z.to_nat 10000) 50.
Definition img0 : list Z := replicate (Z.to_nat 10000) 0.
Definition img200 : list Z := replicate (Z.to_nat 10000) 200.

Definition pkt0 : list Z := replicate (Z.to_nat 10018) 0.


(** A start code, the 10018 bytes that follow it, and one more byte. *)
Definition framed : Framer.transport := [Framer.sentinel; pkt50; [7]].

(** An estimator at resolution 2 with no command outstanding. *)
Definition est2 : Filter.est := Filter.Est img50 img0 2 2.

(** The rotor of a driver that was never started. *)
Definition cold : Rotor.rotor := Rotor.Rot (-1) None None None 0 0.

(** A running driver whose worker has nothing new to offer. *)
Definition stalled : Rotor.rotor :=
  Rotor.Rot 1 (Some Rotor.d1) (Some Rotor.d0) (Some Rotor.d0) 0 3.

(** A worker that publishes nothing while the consumer sleeps. *)
Definition idle : nat -> nat := fun _ => O.

(** Integer stand-ins for the floating-point roundings of [auto_range],
    and the tuning values the constructor sets. *)
Definition fpu0 : Driver.fpu :=
  Driver.Fpu (fun c area => Z.quot (200 * c + area) (2 * area))
             (fun pct n => Z.quot (pct * n + 50) 100)
             (fun ub ihi => Z.quot (2 * ub + ihi) (2 * ihi)).
Definition tuning0 : Driver.tuning :=
  Driver.Tuning 80 50 150 25 25 50 50 26 16384 32.

(** A camera in the middle of a run, the consumer holding array [d0]. *)
Definition cam1 : Driver.cam :=
  Driver.Cam est2 pkt0 img0 (Median.Hist [] [] 0) [] stalled
             img0 img0 img0 [].

(** A file name, [a.bmp], and a 640 by 480 image of bytes or words. *)
Definition name1 : list Z := [97; 46; 98; 109; 112].
Definition vga50 : list Z := replicate (Z.to_nat 307200) 50.

(** An estimator at resolution 2 asked to go to the coarser step 3. *)
Definition est23 : Filter.est := Filter.Est img200 img50 2 3.

(** An image that is not constant: a ramp that wraps around. *)
Definition ramp : list Z := (fun i => (7 * i) mod 256) <$> seqZ 0 10000.

(** What exact arithmetic gives [tof_sampling]: the source coordinate of
    the output row [dy] is [(4771 - 10 dy) / 48], that of the output
    column [dx] is [(5571 - 10 dx) / 48]. *)
Definition fpu_exact : Vga.fpu :=
  Vga.Fpu (fun dy => Z.quot (4771 - 10 * dy) 48)
          (fun dy => (256 * ((4771 - 10 * dy) mod 48) + 24) / 48)
          (fun dx => Z.quot (5571 - 10 * dx) 48)
          (fun dx => (256 * ((5571 - 10 * dx) mod 48) + 24) / 48).

(** A depth image that slopes, and an empty enlarged image. *)
Definition slope : list Z := (fun i => 200 + i) <$> seqZ 0 10000.
Definition vga0 : list Z := replicate (Z.to_nat 614400) 0.
Definition show0 : list Z := replicate (Z.to_nat 90000) 0.

(** * Properties *)

(** Sequencing on a computation that returned. *)
Lemma bind_Some {A B} (x : A) (f : A -> option B) : Some x ≫= f = f x.
Proof. reflexivity. Qed.

(** ** Arrays *)

Section ArrayFacts.

Import Mach.

Lemma rd_wr_same a i v :
  0 <= i < Z.of_nat (length a) -> rd (wr a i v) i = v.
Proof.
  intros Hi. unfold rd, wr.
  apply list_lookup_total_insert_eq. lia.
Qed.

Lemma rd_wr_other a i j v :
  0 <= i -> 0 <= j -> i <> j -> rd (wr a i v) j = rd a j.
Proof.
  intros Hi Hj Hne. unfold rd, wr.
  apply list_lookup_total_insert_ne. lia.
Qed.

Lemma length_wr a i v : length (wr a i v) = length a.
Proof. apply length_insert. Qed.

Lemma wr_wr a i v v' : wr (wr a i v) i v' = wr a i v'.
Proof. unfold wr. apply list_insert_insert_eq. Qed.

Lemma rd_lookup a i x :
  a !! Z.to_nat i = Some x -> rd a i = x.
Proof. intros H. unfold rd. by apply list_lookup_total_correct. Qed.

Lemma row_lookup t r x :
  t !! Z.to_nat r = Some x -> row t r = x.
Proof. intros H. unfold row. by apply list_lookup_total_correct. Qed.

Lemma lookup_tab {B} (f : Z -> B) m n i :
  0 <= i < n -> (f <$> seqZ m n) !! Z.to_nat i = Some (f (m + i)).
Proof.
  intros Hi. rewrite list_lookup_fmap, lookup_seqZ_lt by lia.
  simpl. do 2 f_equal. lia.
Qed.

Lemma bytes_rd a i :
  bytes a -> 0 <= i < Z.of_nat (length a) -> 0 <= rd a i <= 255.
Proof.
  intros Hb Hi.
  assert (Hlt : (Z.to_nat i < length a)%nat) by lia.
  destruct (lookup_lt_is_Some_2 a _ Hlt) as [x Hx].
  rewrite (rd_lookup _ _ _ Hx).
  unfold bytes in Hb. rewrite Forall_lookup in Hb. exact (Hb _ _ Hx).
Qed.

Lemma rd_replicate n c i :
  0 <= i < Z.of_nat n -> rd (replicate n c) i = c.
Proof.
  intros Hi. apply rd_lookup. apply lookup_replicate_2. lia.
Qed.

Lemma bytes_replicate n c : 0 <= c <= 255 -> bytes (replicate n c).
Proof. intros Hc. apply Forall_replicate. exact Hc. Qed.

Lemma int32_small z :
  -2147483648 <= z < 2147483648 -> int32 z = z.
Proof. intros H. unfold int32. rewrite Z.mod_small; lia. Qed.

Lemma clamp255_byte z : 0 <= z <= 255 -> clamp255 z = z.
Proof.
  intros H. unfold clamp255.
  destruct (Z.leb_spec z 0); [lia|].
  destruct (Z.ltb_spec z 255); lia.
Qed.

Lemma uchar_byte z : 0 <= z <= 255 -> uchar z = z.
Proof. intros H. unfold uchar. apply Z.mod_small. lia. Qed.

Lemma wr_rd_id a i : wr a i (rd a i) = a.
Proof.
  unfold wr, rd. destruct (a !! Z.to_nat i) as [x|] eqn:Hx.
  - rewrite (list_lookup_total_correct _ _ _ Hx). by apply list_insert_id.
  - apply list_insert_ge. by apply lookup_ge_None.
Qed.

(** [(256 * x + 128) >> 8] rounds [x + 1/2] down to [x]. *)
Lemma round_256 x : Z.shiftr (256 * x + 128) 8 = x.
Proof.
  rewrite Z.shiftr_div_pow2 by lia. change (2 ^ 8) with 256.
  symmetry. apply (Z.div_unique_pos _ 256 x 128); lia.
Qed.

Lemma store_all a bs :
  length a = length bs -> store a 0 bs = bs.
Proof.
  intros H. unfold store. simpl.
  rewrite drop_ge by lia. by rewrite app_nil_r.
Qed.

End ArrayFacts.

(** ** The lookup table and [reformat] *)

Section LutFacts.

Import Lut.

(** Every entry of the table is the product it was built from: the
    conversion to [unsigned short] never truncates. *)
Lemma build_lut_entry u p :
  1 <= u <= 9 -> 0 <= p <= 255 ->
  rd (row build_lut (u - 1)) p = 4 * u * p.
Proof.
  intros Hu Hp.
  rewrite (row_lookup build_lut (u - 1) (lut_row u)).
  - rewrite (rd_lookup _ p (ushort (4 * u * p))).
    + unfold ushort. apply Z.mod_small. nia.
    + unfold lut_row.
      rewrite (lookup_tab (fun pel => ushort (4 * u * pel))) by lia.
      do 3 f_equal.
  - unfold build_lut. rewrite (lookup_tab lut_row) by lia.
    do 2 f_equal. lia.
Qed.

(** The loop writes cells [i .. i + n - 1] of the output and nothing
    else. *)
Lemma reformat_loop_rd n : forall i sc vlim s p v d j,
  0 <= i -> i + Z.of_nat n <= Z.of_nat (length d) -> 0 <= j ->
  rd (reformat_loop n i sc vlim s p v d) j =
    if decide (i <= j < i + Z.of_nat n)
    then reformat_pel sc vlim (rd s j) (rd p j) (rd v j)
    else rd d j.
Proof.
  induction n as [|n IH]; intros i sc vlim s p v d j Hi Hlen Hj; simpl.
  - case_decide; [lia|done].
  - rewrite IH by (rewrite ?length_wr; lia).
    destruct (decide (j = i)) as [->|Hne].
    + rewrite decide_False by lia. rewrite decide_True by lia.
      apply rd_wr_same. lia.
    + rewrite rd_wr_other by lia.
      repeat case_decide; try lia; done.
Qed.

Lemma reformat_pel_masked sc vlim s p v :
  0 <= s <= 255 -> 0 <= p <= 255 ->
  reformat_pel sc vlim s p v =
    if decide (masked vlim s p v) then 65535 else rd sc p.
Proof.
  intros Hs Hp. unfold reformat_pel, masked.
  destruct (Z.geb_spec s 255), (Z.geb_spec p 255), (Z.gtb_spec v vlim);
    simpl; case_decide; try done; lia.
Qed.

(** The word [reformat] leaves in cell [i] of the output buffer. *)
Lemma reformat_rd (norm : list (list Z)) unit vlim pkt avg var fill i :
  Z.of_nat (length pkt) = 10018 -> Z.of_nat (length avg) = 10000 ->
  Z.of_nat (length fill) = 10000 ->
  bytes pkt -> bytes avg ->
  0 <= i < 10000 ->
  rd (reformat norm unit vlim pkt avg var fill) i =
    if decide (masked vlim (rd (raw pkt) i) (rd avg i) (rd var i))
    then 65535 else rd (row norm (unit - 1)) (rd avg i).
Proof.
  intros Hpkt Havg Hfill Bpkt Bavg Hi.
  assert (Hs : 0 <= rd (raw pkt) i <= 255).
  { apply bytes_rd.
    - unfold raw, bytes. by apply Forall_drop.
    - unfold raw. rewrite length_drop. lia. }
  assert (Hp : 0 <= rd avg i <= 255) by (apply bytes_rd; [done|lia]).
  unfold reformat. rewrite reformat_loop_rd by lia.
  rewrite decide_True by lia. by apply reformat_pel_masked.
Qed.

(** C1. For every pixel index [i] in 0..9999 the 16-bit word that
    [reformat] writes is 65535 when the raw sample is 255, the smoothed
    mean is 255, or the variance exceeds [vlim]; otherwise it is the table
    entry [norm[unit - 1][avg[i]]], which is [4 * unit * avg[i]]. *)
Theorem reformat_pixel (unit vlim : Z) (pkt avg var fill : list Z) (i : Z) :
  1 <= unit <= 9 ->
  Z.of_nat (length pkt) = 10018 -> Z.of_nat (length avg) = 10000 ->
  Z.of_nat (length fill) = 10000 ->
  bytes pkt -> bytes avg ->
  0 <= i < 10000 ->
  let out := reformat build_lut unit vlim pkt avg var fill in
  (masked vlim (rd (raw pkt) i) (rd avg i) (rd var i) -> rd out i = 65535)
  /\ (~ masked vlim (rd (raw pkt) i) (rd avg i) (rd var i) ->
      rd out i = rd (row build_lut (unit - 1)) (rd avg i)
      /\ rd out i = 4 * unit * rd avg i).
Proof.
  intros Hu Hpkt Havg Hfill Bpkt Bavg Hi out.
  assert (Hp : 0 <= rd avg i <= 255) by (apply bytes_rd; [done|lia]).
  unfold out. rewrite reformat_rd by done.
  split; intros Hm.
  - by rewrite decide_True.
  - rewrite decide_False by done.
    split; [done|]. by apply build_lut_entry.
Qed.

Lemma reformat_pixel_witness :
  let out := reformat build_lut 2 32 pkt50 img50 img0 img0 in
  (masked 32 (rd (raw pkt50) 7) (rd img50 7) (rd img0 7) -> rd out 7 = 65535)
  /\ (~ masked 32 (rd (raw pkt50) 7) (rd img50 7) (rd img0 7) ->
      rd out 7 = rd (row build_lut (2 - 1)) (rd img50 7)
      /\ rd out 7 = 4 * 2 * rd img50 7).
Proof.
  apply (reformat_pixel 2 32 pkt50 img50 img0 img0 7).
  - lia.
  - vm_compute; reflexivity.
  - vm_compute; reflexivity.
  - vm_compute; reflexivity.
  - apply bytes_replicate; lia.
  - apply bytes_replicate; lia.
  - lia.
Defined.

(** C9. For every resolution [u] in 1..9 and every mean value [p] in
    0..254 that is not masked, the table entry is [4 * u * p], at most
    9144 and so below 65535; hence a word of the written buffer is 65535
    exactly when its pixel was masked. *)
Theorem sentinel_iff_masked (unit vlim : Z) (pkt avg var fill : list Z)
    (i : Z) :
  1 <= unit <= 9 ->
  Z.of_nat (length pkt) = 10018 -> Z.of_nat (length avg) = 10000 ->
  Z.of_nat (length fill) = 10000 ->
  bytes pkt -> bytes avg ->
  0 <= i < 10000 ->
  (forall u p, 1 <= u <= 9 -> 0 <= p <= 254 ->
     rd (row build_lut (u - 1)) p = 4 * u * p
     /\ 4 * u * p <= 9144 /\ 4 * u * p < 65535)
  /\ (rd (reformat build_lut unit vlim pkt avg var fill) i = 65535
      <-> masked vlim (rd (raw pkt) i) (rd avg i) (rd var i)).
Proof.
  intros Hu Hpkt Havg Hfill Bpkt Bavg Hi.
  assert (Hp : 0 <= rd avg i <= 255) by (apply bytes_rd; [done|lia]).
  split.
  - intros u p Hu' Hp'. split; [apply build_lut_entry; lia | nia].
  - rewrite reformat_rd by done.
    case_decide as Hm; [tauto|].
    rewrite build_lut_entry by done.
    split; [|tauto].
    assert (rd avg i <> 255) by (unfold masked in Hm; tauto).
    intros Heq. exfalso. nia.
Qed.

Lemma sentinel_iff_masked_witness :
  (forall u p, 1 <= u <= 9 -> 0 <= p <= 254 ->
     rd (row build_lut (u - 1)) p = 4 * u * p
     /\ 4 * u * p <= 9144 /\ 4 * u * p < 65535)
  /\ (rd (reformat build_lut 2 32 pkt50 img50 img0 img0) 7 = 65535
      <-> masked 32 (rd (raw pkt50) 7) (rd img50 7) (rd img0 7)).
Proof.
  apply (sentinel_iff_masked 2 32 pkt50 img50 img0 img0 7).
  - lia.
  - vm_compute; reflexivity.
  - vm_compute; reflexivity.
  - vm_compute; reflexivity.
  - apply bytes_replicate; lia.
  - apply bytes_replicate; lia.
  - lia.
Defined.

End LutFacts.

(** ** The temporal filter *)

Section FlywheelFacts.

Import Filter.

Variable mn : Z.
Hypothesis mn_pos : 0 < mn.
Hypothesis mn_int : mn < 2147483648.

(** With [fi = 0], a pixel whose average already equals the measurement
    and whose variance is zero is left as it is. *)
Lemma flywheel_pel_still m :
  0 <= m <= 255 -> flywheel_pel 0 256 mn m m 0 = Some (m, 0).
Proof using mn_pos mn_int.
  intros Hm. unfold flywheel_pel.
  replace (m - m) with 0 by lia.
  change (int32 (256 * 0 + 0 * 0 * 0)) with 0.
  change (int32 (Z.shiftl 0 8)) with 0.
  rewrite Z.add_0_l, (int32_small mn) by lia.
  unfold idiv.
  destruct (Z.eqb_spec mn 0) as [?|_]; [lia|].
  change (0 =? -2147483648) with false. simpl.
  rewrite Z.quot_0_l by lia.
  rewrite Z.shiftl_mul_pow2 by lia. change (2 ^ 8) with 256.
  replace (m * 256 + 0 * 0 + 128) with (256 * m + 128) by lia.
  rewrite int32_small by lia.
  rewrite round_256, clamp255_byte by lia.
  reflexivity.
Qed.

Lemma flywheel_loop_still n : forall j m v,
  0 <= j ->
  (forall i, j <= i < j + Z.of_nat n -> 0 <= rd m i <= 255 /\ rd v i = 0) ->
  flywheel_loop n j 0 256 mn m m v = Some (m, v).
Proof using mn_pos mn_int.
  induction n as [|n IH]; intros j m v Hj Hcell; [done|].
  cbn [flywheel_loop].
  destruct (Hcell j) as [Hm Hv]; [lia|].
  rewrite Hv, flywheel_pel_still, bind_Some by done.
  rewrite <- Hv at 2. rewrite !wr_rd_id.
  apply IH; [lia|]. intros i Hi. apply Hcell. lia.
Qed.

(** From the state the first frame sets up, any later call of
    [flywheel] on the same median image changes nothing. *)
Lemma flywheel_still frame med :
  bytes med -> Z.of_nat (length med) = 10000 ->
  flywheel 0 mn frame med med (replicate (Z.to_nat 10000) 0)
    = Some (med, replicate (Z.to_nat 10000) 0).
Proof using mn_pos mn_int.
  intros Hb Hlen. unfold flywheel.
  destruct (Z.leb_spec frame 0).
  - rewrite !store_all; [|by rewrite length_replicate|].
    + by rewrite take_ge by lia.
    + rewrite length_take. lia.
  - apply flywheel_loop_still; [lia|].
    intros i Hi. split.
    + apply bytes_rd; [done|lia].
    + apply rd_replicate. lia.
Qed.

Lemma flywheel_frames_still n : forall frame med,
  bytes med -> Z.of_nat (length med) = 10000 ->
  flywheel_frames n 0 mn frame med med (replicate (Z.to_nat 10000) 0)
    = Some (med, replicate (Z.to_nat 10000) 0).
Proof using mn_pos mn_int.
  induction n as [|n IH]; intros frame med Hb Hlen; [done|].
  cbn [flywheel_frames].
  rewrite flywheel_still, bind_Some by done. by apply IH.
Qed.

End FlywheelFacts.

(** C6. With [fi = 0] and [mn > 0], and the same median image on every
    frame: the first frame (frame counter 0) sets the mean image to the
    median image and the variance image to zero, and after any number of
    further frames the mean image is still that median image and the
    variance image still all zero. *)
Theorem flywheel_constant (mn : Z) (med avg var : list Z) (n : nat) :
  0 < mn < 2147483648 ->
  Mach.bytes med -> Z.of_nat (length med) = 10000 ->
  Z.of_nat (length avg) = 10000 -> Z.of_nat (length var) = 10000 ->
  Filter.flywheel 0 mn 0 med avg var
    = Some (med, replicate (Z.to_nat 10000) 0)
  /\ Filter.flywheel_frames (S n) 0 mn 0 med avg var
    = Some (med, replicate (Z.to_nat 10000) 0).
Proof.
  intros Hmn Hb Hmed Havg Hvar.
  assert (H0 : Filter.flywheel 0 mn 0 med avg var
                 = Some (med, replicate (Z.to_nat 10000) 0)).
  { unfold Filter.flywheel. change (0 <=? 0) with true. cbv iota.
    rewrite !store_all; [|rewrite length_replicate; lia|].
    - by rewrite take_ge by lia.
    - rewrite length_take. lia. }
  split; [exact H0|].
  cbn [Filter.flywheel_frames].
  rewrite H0, bind_Some.
  apply flywheel_frames_still; [lia|lia|done|done].
Qed.

Lemma flywheel_constant_witness :
  Filter.flywheel 0 16384 0 img50 img0 img50
    = Some (img50, replicate (Z.to_nat 10000) 0)
  /\ Filter.flywheel_frames 4 0 16384 0 img50 img0 img50
    = Some (img50, replicate (Z.to_nat 10000) 0).
Proof.
  apply (flywheel_constant 16384 img50 img0 img50 3).
  - lia.
  - apply bytes_replicate; lia.
  - vm_compute; reflexivity.
  - vm_compute; reflexivity.
  - vm_compute; reflexivity.
Defined.

(** ** Resolution change *)

Section DepthStepFacts.

Import Filter.

(** Entry [x] of the table built for the factor [f]. *)
Lemma scale_tab_rd f x :
  0 <= x <= 255 ->
  rd (scale_tab f) x = Z.shiftr (int32 (f * x + 128)) 8.
Proof.
  intros Hx. apply rd_lookup. unfold scale_tab.
  rewrite (lookup_tab (fun i => Z.shiftr (int32 (f * i + 128)) 8)) by lia.
  do 4 f_equal.
Qed.

(** The re-scaling loop rewrites cells [j .. j + n - 1], each from its
    own old value, and keeps the low eight bits of the table entry. *)
Lemma rescale_loop_rd n : forall j sc p i,
  0 <= j -> j + Z.of_nat n <= Z.of_nat (length p) -> 0 <= i ->
  rd (rescale_loop n j sc p) i =
    if decide (j <= i < j + Z.of_nat n) then uchar (rd sc (rd p i))
    else rd p i.
Proof.
  induction n as [|n IH]; intros j sc p i Hj Hlen Hi; cbn [rescale_loop].
  - case_decide; [lia|done].
  - rewrite IH by (rewrite ?length_wr; lia).
    destruct (decide (i = j)) as [->|Hne].
    + rewrite decide_False by lia. rewrite decide_True by lia.
      apply rd_wr_same. lia.
    + rewrite rd_wr_other by lia.
      repeat case_decide; try lia; done.
Qed.

Lemma rescale_rd sc p i :
  Z.of_nat (length p) = 10000 -> 0 <= i < 10000 ->
  rd (rescale sc p) i = uchar (rd sc (rd p i)).
Proof.
  intros Hlen Hi. unfold rescale.
  rewrite rescale_loop_rd by lia. by rewrite decide_True by lia.
Qed.

(** A table that maps every byte to itself leaves the image alone. *)
Lemma rescale_loop_id n : forall j sc p,
  0 <= j -> j + Z.of_nat n <= Z.of_nat (length p) -> bytes p ->
  (forall x, 0 <= x <= 255 -> rd sc x = x) ->
  rescale_loop n j sc p = p.
Proof.
  induction n as [|n IH]; intros j sc p Hj Hlen Hb Hsc; [done|].
  cbn [rescale_loop].
  assert (Hx : 0 <= rd p j <= 255) by (apply bytes_rd; [done|lia]).
  rewrite Hsc, uchar_byte, wr_rd_id by done.
  apply IH; [lia|lia|done|done].
Qed.

(** The factor for equal resolutions is one, [256] in 8.8 fixed point,
    and its table is the identity on bytes. *)
Lemma scale_tab_256 x : 0 <= x <= 255 -> rd (scale_tab 256) x = x.
Proof.
  intros Hx. rewrite scale_tab_rd, int32_small by lia. apply round_256.
Qed.

Lemma ratio_same u : 1 <= u <= 9 ->
  idiv (int32 (Z.shiftl u 8)) u = Some 256
  /\ idiv (int32 (Z.shiftl (int32 (u * u)) 8)) (int32 (u * u)) = Some 256.
Proof.
  intros Hu.
  assert (Hc : u = 1 \/ u = 2 \/ u = 3 \/ u = 4 \/ u = 5 \/ u = 6
               \/ u = 7 \/ u = 8 \/ u = 9) by lia.
  repeat destruct Hc as [->|Hc]; try subst u; by vm_compute.
Qed.

Lemma depth_step_same e :
  unit e = pend e -> 1 <= unit e <= 9 ->
  bytes (avg e) -> bytes (var e) ->
  Z.of_nat (length (avg e)) = 10000 -> Z.of_nat (length (var e)) = 10000 ->
  depth_step e = Some e.
Proof.
  intros Heq Hu Ba Bv La Lv. unfold depth_step. rewrite <- Heq.
  destruct (ratio_same (unit e) Hu) as [-> ->].
  cbn [mbind option_bind]. unfold rescale.
  rewrite (rescale_loop_id _ 0 _ (avg e));
    [|lia|lia|assumption|apply scale_tab_256].
  rewrite (rescale_loop_id _ 0 _ (var e));
    [|lia|lia|assumption|apply scale_tab_256].
  destruct e as [a v u q]. simpl in Heq. by subst q.
Qed.

Lemma ratio_bounds a b :
  0 <= a -> 0 < b -> 0 <= Z.quot a b <= a.
Proof.
  intros Ha Hb. rewrite Z.quot_div_nonneg by lia. split.
  - apply Z.div_pos; lia.
  - apply Z.div_le_upper_bound; nia.
Qed.

(** What [depth_step] computes for any two resolutions: every cell is
    replaced by the low eight bits of its rounded product with the 8.8
    ratio, and [unit] takes the value of [pend]. *)
Lemma depth_step_cells e :
  1 <= unit e <= 9 -> 1 <= pend e <= 9 ->
  bytes (avg e) -> bytes (var e) ->
  Z.of_nat (length (avg e)) = 10000 -> Z.of_nat (length (var e)) = 10000 ->
  let fp := Z.quot (Z.shiftl (unit e) 8) (pend e) in
  let fv := Z.quot (Z.shiftl (unit e * unit e) 8) (pend e * pend e) in
  exists e',
    depth_step e = Some e' /\ unit e' = pend e /\ pend e' = pend e
    /\ forall i, 0 <= i < 10000 ->
         rd (avg e') i = uchar (Z.shiftr (fp * rd (avg e) i + 128) 8)
         /\ rd (var e') i = uchar (Z.shiftr (fv * rd (var e) i + 128) 8).
Proof.
  intros Hu Hq Ba Bv La Lv fp fv.
  assert (Hfp : 0 <= fp <= 2304).
  { unfold fp. rewrite Z.shiftl_mul_pow2 by lia. change (2 ^ 8) with 256.
    pose proof (ratio_bounds (unit e * 256) (pend e)). lia. }
  assert (Hfv : 0 <= fv <= 20736).
  { unfold fv. rewrite Z.shiftl_mul_pow2 by lia. change (2 ^ 8) with 256.
    pose proof (ratio_bounds (unit e * unit e * 256) (pend e * pend e)).
    nia. }
  assert (H1 : idiv (int32 (Z.shiftl (unit e) 8)) (pend e) = Some fp).
  { rewrite int32_small
      by (rewrite Z.shiftl_mul_pow2 by lia; change (2 ^ 8) with 256; lia).
    unfold idiv. destruct (Z.eqb_spec (pend e) 0); [lia|].
    destruct (Z.eqb_spec (pend e) (-1)); [lia|].
    by rewrite andb_false_r. }
  assert (H2 : idiv (int32 (Z.shiftl (int32 (unit e * unit e)) 8))
                 (int32 (pend e * pend e)) = Some fv).
  { rewrite (int32_small (unit e * unit e)) by nia.
    rewrite (int32_small (pend e * pend e)) by nia.
    rewrite int32_small
      by (rewrite Z.shiftl_mul_pow2 by lia; change (2 ^ 8) with 256; nia).
    unfold idiv. destruct (Z.eqb_spec (pend e * pend e) 0); [nia|].
    destruct (Z.eqb_spec (pend e * pend e) (-1)); [nia|].
    by rewrite andb_false_r. }
  eexists. unfold depth_step. rewrite H1. cbn [mbind option_bind].
  rewrite H2. cbn [mbind option_bind].
  split; [reflexivity|]. cbn [unit pend avg var].
  split; [reflexivity|]. split; [reflexivity|].
  intros i Hi.
  assert (Hp : 0 <= rd (avg e) i <= 255) by (apply bytes_rd; [done|lia]).
  assert (Hv : 0 <= rd (var e) i <= 255) by (apply bytes_rd; [done|lia]).
  rewrite !rescale_rd, !scale_tab_rd by done.
  rewrite !int32_small by nia. done.
Qed.

(** Where the rounded product fits a byte, the stored cell is the
    saturated value; the two part company only above 255. *)
Lemma uchar_saturated f x :
  0 <= f -> 0 <= x -> Z.shiftr (f * x + 128) 8 <= 255 ->
  uchar (Z.shiftr (f * x + 128) 8) = saturated_scale f x.
Proof.
  intros Hf Hx Hle. unfold saturated_scale.
  assert (0 <= Z.shiftr (f * x + 128) 8) by (apply Z.shiftr_nonneg; nia).
  rewrite uchar_byte by lia. lia.
Qed.

End DepthStepFacts.

(** C10. When [depth_step] runs with [pend = unit] it is the identity:
    both factors are exactly 256, so the mean image, the variance image
    and [unit] come out unchanged; in particular a [sync] that skips stray
    bytes after the warm-up, with no command outstanding, returns the
    estimator as it found it. *)
Theorem depth_step_idle (e : Filter.est) :
  Filter.unit e = Filter.pend e -> 1 <= Filter.unit e <= 9 ->
  bytes (Filter.avg e) -> bytes (Filter.var e) ->
  Z.of_nat (length (Filter.avg e)) = 10000 ->
  Z.of_nat (length (Filter.var e)) = 10000 ->
  Mach.idiv (int32 (Z.shiftl (Filter.unit e) 8)) (Filter.pend e) = Some 256
  /\ Filter.depth_step e = Some e
  /\ forall frame t rc e' t',
       Framer.sync frame e t = Some (rc, e', t') -> e' = e.
Proof.
  intros Heq Hu Ba Bv La Lv.
  pose proof (depth_step_same e Heq Hu Ba Bv La Lv) as Hd.
  split; [|split].
  - rewrite <- Heq. by apply ratio_same.
  - exact Hd.
  - intros frame t rc e' t' Hs. unfold Framer.sync in Hs.
    destruct (Framer.sync_loop Framer.sync_fuel 0 t)
      as [[[rc0 start] t0]|]; [|done].
    rewrite bind_Some in Hs.
    destruct (rc0 =? 0); [congruence|].
    destruct ((start >? 1) && (frame >? 2)); [|congruence].
    rewrite Hd, bind_Some in Hs. congruence.
Qed.

Lemma depth_step_idle_witness :
  Mach.idiv (int32 (Z.shiftl 2 8)) 2 = Some 256
  /\ Filter.depth_step (Filter.Est img50 img0 2 2)
       = Some (Filter.Est img50 img0 2 2)
  /\ forall frame t rc e' t',
       Framer.sync frame (Filter.Est img50 img0 2 2) t = Some (rc, e', t') ->
       e' = Filter.Est img50 img0 2 2.
Proof.
  apply (depth_step_idle (Filter.Est img50 img0 2 2)).
  - reflexivity.
  - simpl; lia.
  - apply bytes_replicate; lia.
  - apply bytes_replicate; lia.
  - vm_compute; reflexivity.
  - vm_compute; reflexivity.
Defined.

(** C4. The re-scaler does not saturate.  Going from resolution 3 to the
    pending resolution 2, the mean ratio is [(3 << 8) / 2 = 384]; a mean
    cell holding 200 rounds to 300, of which the byte store keeps 44,
    where the saturated byte of the specification is 255. *)
Theorem depth_step_wraps :
  exists e',
    Filter.depth_step (Filter.Est img200 img0 3 2) = Some e'
    /\ Filter.unit e' = 2
    /\ Z.quot (Z.shiftl 3 8) 2 = 384
    /\ rd (Filter.avg e') 0 = 44
    /\ Filter.saturated_scale 384 (rd img200 0) = 255.
Proof.
  destruct (depth_step_cells (Filter.Est img200 img0 3 2))
    as (e' & Hstep & Hunit & _ & Hcell).
  - simpl; lia.
  - simpl; lia.
  - apply bytes_replicate; lia.
  - apply bytes_replicate; lia.
  - vm_compute; reflexivity.
  - vm_compute; reflexivity.
  - exists e'. split; [exact Hstep|]. split; [exact Hunit|].
    split; [reflexivity|].
    destruct (Hcell 0) as [Ha _]; [lia|].
    cbn [Filter.avg Filter.unit Filter.pend] in Ha.
    unfold img200 in *. rewrite rd_replicate in * by lia.
    split; [rewrite Ha; reflexivity | reflexivity].
Qed.

(** ** The triple buffer *)

Section RotorFacts.

Import Rotor.

(** [swap_bufs] publishes the array just written and moves on to one
    that is neither it nor the consumer's, whatever the state before. *)
Lemma swap_bufs_moves r :
  done (swap_bufs r) = fill r
  /\ lock (swap_bufs r) = lock r
  /\ is_Some (fill (swap_bufs r))
  /\ fill (swap_bufs r) <> lock (swap_bufs r)
  /\ fill (swap_bufs r) <> fill r.
Proof.
  destruct r as [o f d l fr frm].
  unfold swap_bufs. cbn [done lock fill].
  split; [done|]. split; [done|].
  destruct f as [[]|], l as [[]|]; vm_compute;
    repeat split; eauto; discriminate.
Qed.

Lemma safe_swap_bufs r : safe (swap_bufs r).
Proof.
  destruct (swap_bufs_moves r) as (Hd & Hl & Hs & Hfl & Hff).
  unfold safe. rewrite Hd. auto.
Qed.

Lemma safe_worker n r : safe r -> safe (worker n r).
Proof.
  intros Hr. destruct n as [|n]; [done|].
  unfold worker. cbn [Nat.iter]. apply safe_swap_bufs.
Qed.

Lemma worker_worker n m r : worker n (worker m r) = worker (n + m) r.
Proof. unfold worker. symmetry. apply Nat.iter_add. Qed.

(** The polling loop only lets the worker run. *)
Lemma Range_poll_worker block w fuel : forall wait k r seen r' k',
  Range_poll fuel block wait w k r = Some (seen, r', k') ->
  exists m, r' = worker m r.
Proof.
  induction fuel as [|fuel IH]; intros wait k r seen r' k' H; [done|].
  cbn [Range_poll] in H.
  destruct (fresh r <=? 0).
  - destruct (block <=? 0); [exists O; by simplify_eq|].
    destruct (wait >? 500); [exists O; by simplify_eq|].
    apply IH in H as [m ->]. rewrite worker_worker. eauto.
  - exists O. by simplify_eq.
Qed.

(** The polling loop returns, after at most 501 sleeps; when it gives up
    in blocking mode it has slept exactly 501 times, and in non-blocking
    mode it has not slept at all. *)
Lemma Range_poll_returns block w fuel : forall wait k r,
  wait = Z.of_nat k -> (k <= 501)%nat -> (502 <= fuel + k)%nat ->
  exists seen r' k',
    Range_poll fuel block wait w k r = Some (seen, r', k')
    /\ (k <= k' <= 501)%nat
    /\ (seen = true -> 0 < fresh r')
    /\ (seen = false ->
        fresh r' <= 0
        /\ (block <= 0 -> k' = k /\ r' = r)
        /\ (0 < block -> k' = 501%nat)).
Proof.
  induction fuel as [|fuel IH]; intros wait k r Hw Hk Hf; [lia|].
  cbn [Range_poll].
  destruct (Z.leb_spec (fresh r) 0) as [Hfr|Hfr].
  - destruct (Z.leb_spec block 0) as [Hb|Hb].
    { exists false, r, k. repeat split; try done; lia. }
    destruct (Z.gtb_spec wait 500) as [Hgt|Hle].
    { exists false, r, k. repeat split; try done; lia. }
    destruct (IH (int32 (wait + 1)) (S k) (worker (w k) r))
      as (seen & r' & k' & -> & Hk' & Ht & Hfl).
    + rewrite int32_small by lia. lia.
    + lia.
    + lia.
    + exists seen, r', k'. split; [done|]. split; [lia|]. split; [done|].
      intros Hs. destruct (Hfl Hs) as (? & _ & ?).
      split; [done|]. split; [lia|done].
  - exists true, r, k. repeat split; try done; lia.
Qed.

Lemma safe_Range block w late r res r' k :
  safe r -> Range block w late r = Some (res, r', k) -> safe r'.
Proof.
  intros Hr H. unfold Range in H.
  destruct (ok r <=? 0); [congruence|].
  destruct (Range_poll poll_fuel block 0 w 0 r) as [[[seen r1] k1]|] eqn:Hp;
    [|done].
  rewrite bind_Some in H.
  apply Range_poll_worker in Hp as [m ->].
  destruct seen.
  - injection H as _ <- _.
    rewrite worker_worker.
    destruct (safe_worker (late + m) r Hr) as (Hs & Hl & Hd).
    unfold safe. cbn [fill lock done]. auto.
  - injection H as _ <- _. by apply safe_worker.
Qed.

Lemma safe_reachable r : reachable r -> safe r.
Proof.
  induction 1 as [usb r Husb|r _ IH|r block w late res r' k _ IH HR|r _ IH].
  - unfold Start. destruct (Z.leb_spec usb 0); [lia|].
    unfold safe. cbn [fill lock done]. eauto.
  - apply safe_swap_bufs.
  - eapply safe_Range; eauto.
  - exact IH.
Qed.

(** No array can fill all three roles when [fill] and [lock] differ. *)
Lemma uses_le_2 b r : fill r <> lock r -> (uses b r <= 2)%nat.
Proof.
  intros Hne. unfold uses. cbn [filter list_filter].
  repeat case_decide; cbn [length]; try lia.
  congruence.
Qed.

(** The polling loop, followed from the [k]-th look on.  Either a fresh
    frame turns up at look [j], or none does up to look 501. *)
Lemma Range_poll_seen block w r0 fuel : forall k j,
  (k <= j <= 501)%nat -> (502 <= fuel + k)%nat ->
  0 < block \/ j = k ->
  (forall i, (k <= i < j)%nat -> fresh (polled w i r0) <= 0) ->
  0 < fresh (polled w j r0) ->
  Range_poll fuel block (Z.of_nat k) w k (polled w k r0)
    = Some (true, polled w j r0, j).
Proof.
  induction fuel as [|fuel IH]; intros k j Hj Hf Hb Hno Hyes; [lia|].
  cbn [Range_poll].
  destruct (Z.leb_spec (fresh (polled w k r0)) 0) as [Hfr|Hfr].
  - assert (k <> j) by (intros ->; lia).
    destruct (Z.leb_spec block 0); [lia|].
    destruct (Z.gtb_spec (Z.of_nat k) 500); [lia|].
    rewrite int32_small by lia.
    replace (Z.of_nat k + 1) with (Z.of_nat (S k)) by lia.
    change (worker (w k) (polled w k r0)) with (polled w (S k) r0).
    apply IH; [lia|lia|lia| |done].
    intros i Hi. apply Hno. lia.
  - destruct (decide (j = k)) as [->|Hne]; [done|].
    specialize (Hno k). lia.
Qed.

Lemma Range_poll_timeout block w r0 fuel : forall k,
  (k <= 501)%nat -> (502 <= fuel + k)%nat -> 0 < block ->
  (forall i, (k <= i <= 501)%nat -> fresh (polled w i r0) <= 0) ->
  Range_poll fuel block (Z.of_nat k) w k (polled w k r0)
    = Some (false, polled w 501 r0, 501%nat).
Proof.
  induction fuel as [|fuel IH]; intros k Hk Hf Hb Hno; [lia|].
  cbn [Range_poll].
  destruct (Z.leb_spec (fresh (polled w k r0)) 0) as [Hfr|Hfr].
  - destruct (Z.leb_spec block 0); [lia|].
    destruct (Z.gtb_spec (Z.of_nat k) 500).
    + by replace k with 501%nat by lia.
    + rewrite int32_small by lia.
      replace (Z.of_nat k + 1) with (Z.of_nat (S k)) by lia.
      change (worker (w k) (polled w k r0)) with (polled w (S k) r0).
      apply IH; [lia|lia|lia|]. intros i Hi. apply Hno. lia.
  - specialize (Hno k). lia.
Qed.

End RotorFacts.

(** C2. In every state that publisher swaps and consumer calls can reach
    once [Start] has succeeded, [fill] differs from [lock] and each of the
    three arrays fills at most two of the roles [fill], [done], [lock];
    and right after the next publish [done] is the array that was being
    written, while [fill] names an array different from both [lock] and
    [done]. *)
Theorem rotor_exclusive (r : Rotor.rotor) :
  Rotor.reachable r ->
  Rotor.fill r <> Rotor.lock r
  /\ (forall b, (Rotor.uses b r <= 2)%nat)
  /\ (exists b, Rotor.fill r = Some b
        /\ Rotor.done (Rotor.swap_bufs r) = Some b)
  /\ Rotor.fill (Rotor.swap_bufs r) <> Rotor.lock (Rotor.swap_bufs r)
  /\ Rotor.fill (Rotor.swap_bufs r) <> Rotor.done (Rotor.swap_bufs r).
Proof.
  intros Hr. destruct (safe_reachable r Hr) as ([b Hb] & Hl & Hd).
  destruct (swap_bufs_moves r) as (Hd' & Hl' & Hs' & Hfl' & Hff').
  split; [exact Hl|].
  split; [intros b'; by apply uses_le_2|].
  split; [exists b; by rewrite Hd'|].
  split; [exact Hfl'|]. by rewrite Hd'.
Qed.

Lemma rotor_exclusive_witness :
  Rotor.fill stalled <> Rotor.lock stalled
  /\ (forall b, (Rotor.uses b stalled <= 2)%nat)
  /\ (exists b, Rotor.fill stalled = Some b
        /\ Rotor.done (Rotor.swap_bufs stalled) = Some b)
  /\ Rotor.fill (Rotor.swap_bufs stalled)
       <> Rotor.lock (Rotor.swap_bufs stalled)
  /\ Rotor.fill (Rotor.swap_bufs stalled)
       <> Rotor.done (Rotor.swap_bufs stalled).
Proof.
  apply (rotor_exclusive stalled).
  apply (Rotor.reach_range (Rotor.worker 3 (Rotor.Start 1 cold))
           1 idle O (Some Rotor.d0) stalled O).
  - do 3 apply Rotor.reach_swap. apply Rotor.reach_start. lia.
  - vm_compute. reflexivity.
Defined.

(** The bound of 500 sleeps does not hold: with a running driver, no
    fresh frame and an idle worker, a blocking [Range] gives up only after
    its 501st sleep. *)
Lemma Range_sleeps_counterexample :
  0 < Rotor.ok stalled /\ Rotor.fresh stalled <= 0
  /\ Rotor.Range 1 idle O stalled = Some (None, stalled, 501%nat)
  /\ ~ (501 <= 500)%nat.
Proof.
  split; [reflexivity|]. split; [discriminate|].
  split; [vm_compute; reflexivity | lia].
Qed.

(** C8, amended.  [Range] always returns, after at most 501 sleeps of
    1 ms.  It returns null without sleeping when the driver is not running
    ([ok <= 0]), and when it runs with no fresh frame and [block] is
    false.  With [block] true and no fresh frame at any of its looks, it
    returns null after exactly 501 sleeps.  When a look finds a fresh
    frame it assigns [lock <- done] and [fresh <- 0] and returns
    [lock]. *)
Theorem Range_contract (block : Z) (w : nat -> nat) (late : nat)
    (r : Rotor.rotor) :
  (exists res r' k,
     Rotor.Range block w late r = Some (res, r', k) /\ (k <= 501)%nat)
  /\ (Rotor.ok r <= 0 -> Rotor.Range block w late r = Some (None, r, O))
  /\ (0 < Rotor.ok r -> Rotor.fresh r <= 0 -> block <= 0 ->
      Rotor.Range block w late r = Some (None, r, O))
  /\ (0 < Rotor.ok r -> 0 < block ->
      (forall i, (i <= 501)%nat -> Rotor.fresh (Rotor.polled w i r) <= 0) ->
      Rotor.Range block w late r
        = Some (None, Rotor.polled w 501 r, 501%nat))
  /\ (forall j, 0 < Rotor.ok r -> (j <= 501)%nat -> 0 < block \/ j = O ->
      (forall i, (i < j)%nat -> Rotor.fresh (Rotor.polled w i r) <= 0) ->
      0 < Rotor.fresh (Rotor.polled w j r) ->
      exists r',
        Rotor.Range block w late r = Some (Rotor.lock r', r', j)
        /\ Rotor.lock r' = Rotor.done (Rotor.worker late (Rotor.polled w j r))
        /\ Rotor.done r' = Rotor.lock r'
        /\ Rotor.fresh r' = 0).
Proof.
  unfold Rotor.Range.
  split; [|split; [|split; [|split]]].
  - destruct (Rotor.ok r <=? 0); [exists None, r, O; split; [done|lia]|].
    destruct (Range_poll_returns block w Rotor.poll_fuel 0 O r)
      as (seen & r1 & k & -> & Hk & _); [done|lia|unfold Rotor.poll_fuel; lia|].
    rewrite bind_Some. destruct seen; eauto 6 with lia.
  - intros Hok. destruct (Z.leb_spec (Rotor.ok r) 0); [done|lia].
  - intros Hok Hfr Hb. destruct (Z.leb_spec (Rotor.ok r) 0); [lia|].
    unfold Rotor.poll_fuel.
    replace (Z.to_nat 502) with (S (Z.to_nat 501)) by lia.
    cbn [Rotor.Range_poll].
    destruct (Z.leb_spec (Rotor.fresh r) 0); [|lia].
    destruct (Z.leb_spec block 0); [done|lia].
  - intros Hok Hb Hno. destruct (Z.leb_spec (Rotor.ok r) 0); [lia|].
    pose proof (Range_poll_timeout block w r Rotor.poll_fuel O) as Hp.
    change (Z.of_nat 0) with 0 in Hp.
    change (Rotor.polled w 0 r) with r in Hp.
    rewrite Hp; [done|lia|unfold Rotor.poll_fuel; lia|done|].
    intros i Hi. apply Hno. lia.
  - intros j Hok Hj Hb Hno Hyes.
    destruct (Z.leb_spec (Rotor.ok r) 0); [lia|].
    pose proof (Range_poll_seen block w r Rotor.poll_fuel O j) as Hp.
    change (Z.of_nat 0) with 0 in Hp.
    change (Rotor.polled w 0 r) with r in Hp.
    rewrite Hp; [|lia|unfold Rotor.poll_fuel; lia|done| |done].
    + rewrite bind_Some. eexists. split; [reflexivity|]. done.
    + intros i Hi. apply Hno. lia.
Qed.

Lemma Range_contract_witness :
  Rotor.Range 1 idle O stalled
    = Some (None, Rotor.polled idle 501 stalled, 501%nat).
Proof.
  apply (Range_contract 1 idle O stalled).
  - reflexivity.
  - lia.
  - intros i _.
    assert (Rotor.polled idle i stalled = stalled) as ->.
    { induction i as [|i IH]; [reflexivity|].
      cbn [Rotor.polled]. rewrite IH. reflexivity. }
    simpl. lia.
Defined.

(** ** Framing *)

Section FramerFacts.

Import Framer.

Lemma read_pending t cnt rc bs t' :
  read t cnt = (rc, bs, t') ->
  pending t = bs ++ pending t'
  /\ rc = Z.of_nat (length bs)
  /\ Z.of_nat (length bs) <= Z.max 0 cnt.
Proof.
  unfold read, pending. destruct t as [|[|x b] t0]; intros H.
  - simplify_eq. cbn. repeat split; [done..|lia].
  - simplify_eq. cbn. repeat split; [done..|lia].
  - simplify_eq.
    set (k := Nat.min (Z.to_nat cnt) (length (x :: b))).
    split; [|rewrite length_take; subst k; cbn [length]; lia].
    rewrite <- (take_drop k (x :: b)) at 1.
    cbn [concat]. rewrite <- app_assoc.
    change (Nat.min (Z.to_nat cnt) (S (length b))) with k.
    by destruct (drop k (x :: b)).
Qed.

Lemma read1_Some t b t1 :
  read1 t = (Some b, t1) -> pending t = b :: pending t1.
Proof.
  unfold read1. destruct (read t 1) as [[rc bs] t'] eqn:E.
  apply read_pending in E as (Hp & _ & _).
  destruct bs as [|b0 [|]]; intros H; simplify_eq. exact Hp.
Qed.

Lemma read1_None t t1 :
  read1 t = (None, t1) -> pending t = pending t1.
Proof.
  unfold read1. destruct (read t 1) as [[rc bs] t'] eqn:E.
  apply read_pending in E as (Hp & _ & Hl).
  destruct bs as [|b0 [|]]; intros H; simplify_eq.
  - exact Hp.
  - cbn [length] in Hl. lia.
Qed.

(** An attempt that consumed the bytes [pre] and went round the loop. *)
Lemma scanned_skip start t pre t1 rc start' t' :
  pending t = pre ++ pending t1 ->
  1 <= Z.of_nat (length pre) <= 4 ->
  scanned (start + 1) t1 rc start' t' ->
  scanned start t rc start' t'.
Proof.
  intros Hp Hl (used & Hu & Hs & Hlen & Hrc).
  exists (pre ++ used). rewrite Hp, Hu, length_app, app_assoc.
  split; [done|]. split; [lia|]. split; [lia|].
  destruct Hrc as [(-> & Hs' & skipped & ->)|Hrc]; [left|by right].
  split; [done|]. split; [done|].
  exists (pre ++ skipped). by rewrite app_assoc.
Qed.

(** An attempt that ended on a read that yielded nothing, after the
    bytes [pre]. *)
Lemma scanned_dry start t pre t0 t' :
  0 <= start <= 20000 ->
  pending t = pre ++ pending t0 -> read1 t0 = (None, t') ->
  Z.of_nat (length pre) <= 4 ->
  scanned start t 0 (start + 1) t'.
Proof.
  intros Hs Hp Hr Hl. exists pre.
  rewrite Hp, (read1_None _ _ Hr).
  split; [done|]. split; [lia|]. split; [lia|].
  right. split; [done|]. right. by exists t0.
Qed.

Ltac dry_read start t pre t0 :=
  simplify_eq; apply (scanned_dry start t pre t0);
  [lia | first [assumption | reflexivity] | assumption | cbn [length]; lia].

Ltac next_attempt IH start t pre t1 :=
  apply (scanned_skip start t pre t1);
  [assumption | cbn [length]; lia | apply IH; [lia | assumption]].

Lemma sync_loop_scanned fuel : forall start t rc start' t',
  0 <= start <= 20001 ->
  sync_loop fuel start t = Some (rc, start', t') ->
  scanned start t rc start' t'.
Proof.
  induction fuel as [|fuel IH]; intros start t rc start' t' Hs H; [done|].
  cbn [sync_loop] in H.
  destruct (Z.gtb_spec start 20000) as [Hgt|Hle].
  { rewrite int32_small in H by lia. simplify_eq.
    exists []. cbn [app length]. split; [done|]. split; [lia|].
    split; [lia|]. right. split; [done|]. left. lia. }
  rewrite int32_small in H by lia.
  destruct (read1 t) as [[b1|] t1] eqn:E1; [|dry_read start t (@nil Z) t].
  apply read1_Some in E1.
  destruct (Z.eqb_spec b1 0) as [->|N1]; cbn [negb] in H;
    [|next_attempt IH start t [b1] t1].
  destruct (read1 t1) as [[b2|] t2] eqn:E2; [|dry_read start t [0] t1].
  apply read1_Some in E2. rewrite E2 in E1.
  destruct (Z.eqb_spec b2 255) as [->|N2]; cbn [negb] in H;
    [|next_attempt IH start t [0; b2] t2].
  destruct (read1 t2) as [[b3|] t3] eqn:E3; [|dry_read start t [0; 255] t2].
  apply read1_Some in E3. rewrite E3 in E1.
  destruct (Z.eqb_spec b3 32) as [->|N3]; cbn [negb] in H;
    [|next_attempt IH start t [0; 255; b3] t3].
  destruct (read1 t3) as [[b4|] t4] eqn:E4;
    [|dry_read start t [0; 255; 32] t3].
  apply read1_Some in E4. rewrite E4 in E1.
  destruct (Z.eqb_spec b4 39) as [->|N4];
    [|next_attempt IH start t [0; 255; 32; b4] t4].
  simplify_eq. exists sentinel. split; [done|]. split; [lia|].
  split; [cbn; lia|]. left. split; [done|]. split; [lia|]. by exists [].
Qed.


(** The scanning loop returns: the counter bounds the iterations. *)
Lemma sync_loop_returns fuel : forall start t,
  0 <= start <= 20001 -> 20002 <= Z.of_nat fuel + start ->
  is_Some (sync_loop fuel start t).
Proof.
  induction fuel as [|fuel IH]; intros start t Hs Hf; [lia|].
  cbn [sync_loop].
  destruct (Z.gtb_spec start 20000) as [Hgt|Hle]; [done|].
  rewrite int32_small by lia.
  assert (Hrec : forall t0, is_Some (sync_loop fuel (start + 1) t0))
    by (intros t0; apply IH; lia).
  destruct (read1 t) as [[b1|] t1]; [|done].
  destruct (negb (b1 =? 0)); [done|].
  destruct (read1 t1) as [[b2|] t2]; [|done].
  destruct (negb (b2 =? 255)); [done|].
  destruct (read1 t2) as [[b3|] t3]; [|done].
  destruct (negb (b3 =? 32)); [done|].
  destruct (read1 t3) as [[b4|] t4]; [|done].
  destruct (b4 =? 39); done.
Qed.







Lemma length_store a n bs :
  0 <= n -> n + Z.of_nat (length bs) <= Z.of_nat (length a) ->
  length (store a n bs) = length a.
Proof.
  intros Hn Hl. unfold store.
  rewrite !length_app, length_take, length_drop. lia.
Qed.

Lemma take_store a n bs :
  0 <= n -> n + Z.of_nat (length bs) <= Z.of_nat (length a) ->
  take (Z.to_nat (n + Z.of_nat (length bs))) (store a n bs)
    = take (Z.to_nat n) a ++ bs.
Proof.
  intros Hn Hl. unfold store. rewrite app_assoc.
  apply take_app_length'. rewrite length_app, length_take. lia.
Qed.

(** A successful [fill_raw] loop entered with [n] bytes in place took
    exactly the [10018 - n] bytes it still needed off the transport and
    put them behind the first [n]. *)
Lemma fill_raw_loop_filled fuel : forall n pkt t rc pkt' t',
  0 <= n < 10018 -> Z.of_nat (length pkt) = 10018 ->
  fill_raw_loop fuel n pkt t = Some (rc, pkt', t') ->
  exists bs,
    pending t = bs ++ pending t'
    /\ ((rc = 1 /\ Z.of_nat (length bs) = 10018 - n
         /\ pkt' = take (Z.to_nat n) pkt ++ bs)
        \/ (rc = 0 /\ Z.of_nat (length bs) < 10018 - n)).
Proof.
  induction fuel as [|fuel IH]; intros n pkt t rc pkt' t' Hn Hlen H; [done|].
  cbn [fill_raw_loop] in H.
  destruct (read t (10018 - n)) as [[rc1 bs1] t1] eqn:E.
  apply read_pending in E as (Hp & -> & Hb).
  destruct (Z.leb_spec (Z.of_nat (length bs1)) 0) as [Hz|Hpos].
  { simplify_eq. exists []. destruct bs1; [|cbn [length] in Hz; lia].
    split; [done|]. right. cbn [length]. lia. }
  destruct (Z.geb_spec (n + Z.of_nat (length bs1)) 10018) as [Hfull|Hmore].
  - simplify_eq. exists bs1. split; [done|]. left.
    split; [done|]. split; [lia|].
    unfold store. rewrite (drop_ge pkt) by lia. by rewrite app_nil_r.
  - apply IH in H as (bs2 & Hp2 & Hrc);
      [|lia|rewrite length_store; lia].
    exists (bs1 ++ bs2). rewrite Hp, Hp2, app_assoc. split; [done|].
    rewrite length_app.
    destruct Hrc as [(-> & Hl2 & ->)|(-> & Hl2)]; [left|right; lia].
    split; [done|]. split; [lia|].
    rewrite take_store by lia. by rewrite app_assoc.
Qed.

(** The [fill_raw] loop returns: every read that does not fail adds a
    byte. *)
Lemma fill_raw_loop_returns fuel : forall n pkt t,
  0 <= n < 10018 -> 10018 - n <= Z.of_nat fuel ->
  is_Some (fill_raw_loop fuel n pkt t).
Proof.
  induction fuel as [|fuel IH]; intros n pkt t Hn Hf; [lia|].
  cbn [fill_raw_loop].
  destruct (read t (10018 - n)) as [[rc1 bs1] t1] eqn:E.
  apply read_pending in E as (_ & -> & Hb).
  destruct (Z.leb_spec (Z.of_nat (length bs1)) 0); [done|].
  destruct (Z.geb_spec (n + Z.of_nat (length bs1)) 10018); [done|].
  apply IH; lia.
Qed.

End FramerFacts.


(** A read that yields nothing makes [sync] fail whichever of the four
    reads it is, also when a start code arrives afterwards. *)
Lemma sync_dry_reads :
  Framer.sync 0 est2 [[]; Framer.sentinel] = Some (0, est2, [Framer.sentinel])
  /\ Framer.sync 0 est2 [[0]; []; Framer.sentinel]
     = Some (0, est2, [Framer.sentinel])
  /\ Framer.sync 0 est2 [[0; 255]; []; Framer.sentinel]
     = Some (0, est2, [Framer.sentinel])
  /\ Framer.sync 0 est2 [[0; 255; 32]; []; Framer.sentinel]
     = Some (0, est2, [Framer.sentinel]).
Proof. repeat split; vm_compute; reflexivity. Qed.



(** [fill_raw] does not stop at 10,014 bytes, and the start code is not
    in cells 0..3: after [sync] has consumed the start code, [fill_raw]
    takes the next 10,018 bytes, and cells 0..3 of the packet buffer hold
    the first four of them. *)
Lemma fill_raw_counterexample :
  Framer.sync 0 est2 framed = Some (1, est2, [pkt50; [7]])
  /\ Framer.fill_raw pkt0 [pkt50; [7]] = Some (1, pkt50, [[7]])
  /\ Z.of_nat (length pkt50) = 10018
  /\ take 4 pkt50 = [50; 50; 50; 50]
  /\ take 4 pkt50 <> Framer.sentinel
  /\ 10018 <> 10014.
Proof.
  split; [vm_compute; reflexivity|].
  split; [vm_compute; reflexivity|].
  split; [vm_compute; reflexivity|].
  split; [reflexivity|].
  split; [discriminate|lia].
Qed.

(** C3, amended.  After a successful [sync], [fill_raw] always returns,
    and when it succeeds it has consumed exactly the next 10,018 bytes of
    the transport, the bytes that follow the start code, into cells
    0..10017 of the packet buffer; the start code itself is not stored,
    and pixel [i] of the image is byte [16 + i] of those bytes. *)
Theorem fill_raw_contract (pkt : list Z) (t : Framer.transport) :
  Z.of_nat (length pkt) = 10018 ->
  exists rc pkt' t' bs,
    Framer.fill_raw pkt t = Some (rc, pkt', t')
    /\ Framer.pending t = bs ++ Framer.pending t'
    /\ ((rc = 1 /\ Z.of_nat (length bs) = 10018 /\ pkt' = bs
         /\ forall i, 0 <= i < 10000 ->
              rd (Lut.raw pkt') i = rd bs (16 + i))
        \/ (rc = 0 /\ Z.of_nat (length bs) < 10018)).
Proof.
  intros Hlen. unfold Framer.fill_raw.
  destruct (fill_raw_loop_returns Framer.fill_fuel 0 pkt t)
    as [[[rc pkt'] t'] Hf]; [lia|unfold Framer.fill_fuel; lia|].
  assert (H0 : 0 <= 0 < 10018) by lia.
  destruct (fill_raw_loop_filled _ _ _ _ _ _ _ H0 Hlen Hf)
    as (bs & Hp & Hrc).
  exists rc, pkt', t', bs. split; [done|]. split; [done|].
  destruct Hrc as [(-> & Hl & ->)|(-> & Hl)]; [left|right; split; [done|lia]].
  change (Z.to_nat 0) with O. cbn [take app].
  split; [done|]. split; [lia|]. split; [done|].
  intros i Hi. unfold Lut.raw, rd. rewrite lookup_total_drop.
  f_equal. lia.
Qed.

Lemma fill_raw_contract_witness :
  exists rc pkt' t' bs,
    Framer.fill_raw pkt0 [pkt50; [7]] = Some (rc, pkt', t')
    /\ Framer.pending [pkt50; [7]] = bs ++ Framer.pending t'
    /\ ((rc = 1 /\ Z.of_nat (length bs) = 10018 /\ pkt' = bs
         /\ forall i, 0 <= i < 10000 ->
              rd (Lut.raw pkt') i = rd bs (16 + i))
        \/ (rc = 0 /\ Z.of_nat (length bs) < 10018)).
Proof.
  apply (fill_raw_contract pkt0 [pkt50; [7]]).
  vm_compute; reflexivity.
Defined.

(** ** The median filter on a uniform image *)

Section MedianFacts.

Import Median.

Variables (s : list Z) (c : Z).
Hypothesis s_uniform : uniform s c.
Hypothesis c_byte : 0 <= c <= 255.

Let zeros : list Z := replicate (Z.to_nat 256) 0.

Lemma clamp_row_range now : 0 <= clamp_row now <= 9900.
Proof.
  unfold clamp_row.
  destruct (Z.leb_spec now 0); [lia|].
  destruct (Z.ltb_spec now 9900); lia.
Qed.

Lemma rd_level n : rd (wr zeros c n) c = n.
Proof using c_byte.
  apply rd_wr_same. unfold zeros. rewrite length_replicate. lia.
Qed.

(** One more sample of value [c], [k] times. *)
Lemma add_pel_level n k h :
  vals h = wr zeros c n -> bot h = c \/ bot h = 255 ->
  level c (n + k) (add_pel c k h).
Proof using c_byte.
  intros Hv Hb. unfold level, add_pel. cbn [vals bot].
  rewrite Hv, rd_level, wr_wr. split; [done|].
  destruct (Z.ltb_spec c (bot h)); lia.
Qed.

Lemma seed_row_level n y h j :
  vals h = wr zeros c n -> bot h = c \/ bot h = 255 ->
  level c (n + 5) (seed_row s y h j).
Proof using s_uniform c_byte.
  intros Hv Hb. unfold seed_row.
  pose proof (clamp_row_range (y + j)) as Hr.
  rewrite !s_uniform by lia.
  destruct (add_pel_level n 3 h Hv Hb) as [Hv1 Hb1].
  destruct (add_pel_level (n + 3) 1 _ Hv1 (or_introl Hb1)) as [Hv2 Hb2].
  replace (n + 5) with (n + 3 + 1 + 1) by lia.
  apply add_pel_level; auto.
Qed.

Lemma seed_level y h : level c 25 (seed s y h).
Proof using s_uniform c_byte.
  unfold seed, rows5. cbn [fold_left].
  set (h0 := Hist (replicate (Z.to_nat 256) 0) (lowest h) 255).
  assert (Hv0 : vals h0 = wr zeros c 0).
  { cbn [vals h0]. fold zeros.
    rewrite <- (wr_rd_id zeros c) at 1. f_equal.
    unfold zeros. apply rd_replicate. lia. }
  destruct (seed_row_level 0 y h0 (-200) Hv0 (or_intror eq_refl))
    as [Hv1 Hb1].
  destruct (seed_row_level _ y _ (-100) Hv1 (or_introl Hb1)) as [Hv2 Hb2].
  destruct (seed_row_level _ y _ 0 Hv2 (or_introl Hb2)) as [Hv3 Hb3].
  destruct (seed_row_level _ y _ 100 Hv3 (or_introl Hb3)) as [Hv4 Hb4].
  exact (seed_row_level _ y _ 200 Hv4 (or_introl Hb4)).
Qed.

(** With at least 13 samples in the lowest bin the scan stops there. *)
Lemma scan_level n h low :
  level c n h -> 13 <= n ->
  scan (Z.to_nat (256 - bot h)) (vals h) (bot h) 0 0 low = (c, wr low 0 c).
Proof using c_byte.
  intros [Hv Hb] Hn. rewrite Hv, Hb.
  replace (Z.to_nat (256 - c)) with (S (Z.to_nat (255 - c))) by lia.
  cbn [scan]. rewrite rd_level.
  destruct (Z.gtb_spec n 0); [|lia].
  change (0 <? 6) with true. cbv iota. rewrite Z.add_0_l.
  destruct (Z.geb_spec n 13); [done|lia].
Qed.

Lemma drop_pel_level n y nowx h cnt j :
  level c n h -> 1 < n -> 0 <= nowx <= 99 ->
  exists h', drop_pel s y nowx (h, cnt) j = (h', cnt) /\ level c (n - 1) h'.
Proof using s_uniform c_byte.
  intros [Hv Hb] Hn Hx. unfold drop_pel.
  pose proof (clamp_row_range (y + j)) as Hr.
  rewrite s_uniform by lia.
  rewrite Hb, Z.eqb_refl, Hv, rd_level, wr_wr.
  destruct (Z.leb_spec n 1); [lia|]. cbn [andb].
  eexists. split; [reflexivity|]. by split.
Qed.

Lemma push_pel_level n y nowx h j :
  level c n h -> 0 <= nowx <= 99 ->
  level c (n + 1) (push_pel s y nowx h j).
Proof using s_uniform c_byte.
  intros [Hv Hb] Hx. unfold push_pel.
  pose proof (clamp_row_range (y + j)) as Hr.
  rewrite s_uniform by lia.
  apply add_pel_level; auto.
Qed.

(** Sliding the box over a uniform image gives the same histogram. *)
Lemma slide_level y x h :
  level c 25 h -> 0 <= x <= 98 -> level c 25 (slide s y x h).
Proof using s_uniform c_byte.
  intros Hl Hx. unfold slide, rows5.
  set (xl := if x - 2 <=? 0 then 0 else x - 2).
  set (xr := if x + 3 <? 99 then x + 3 else 99).
  assert (Hxl : 0 <= xl <= 99)
    by (unfold xl; destruct (Z.leb_spec (x - 2) 0); lia).
  assert (Hxr : 0 <= xr <= 99)
    by (unfold xr; destruct (Z.ltb_spec (x + 3) 99); lia).
  cbn [fold_left].
  destruct (drop_pel_level 25 y xl h 0 (-200) Hl) as (h1 & -> & L1);
    [lia|done|].
  destruct (drop_pel_level _ y xl h1 0 (-100) L1) as (h2 & -> & L2);
    [lia|done|].
  destruct (drop_pel_level _ y xl h2 0 0 L2) as (h3 & -> & L3);
    [lia|done|].
  destruct (drop_pel_level _ y xl h3 0 100 L3) as (h4 & -> & L4);
    [lia|done|].
  destruct (drop_pel_level _ y xl h4 0 200 L4) as (h5 & -> & L5);
    [lia|done|].
  cbn [fst].
  pose proof (push_pel_level _ y xr _ (-200) L5 Hxr) as P1.
  pose proof (push_pel_level _ y xr _ (-100) P1 Hxr) as P2.
  pose proof (push_pel_level _ y xr _ 0 P2 Hxr) as P3.
  pose proof (push_pel_level _ y xr _ 100 P3 Hxr) as P4.
  exact (push_pel_level _ y xr _ 200 P4 Hxr).
Qed.

(** One row: the [n] cells from [d] on receive [c], the others keep
    their contents. *)
Lemma row_loop_uniform y n : forall x d h med,
  level c 25 h -> 0 <= x -> x + Z.of_nat n = 100 ->
  0 <= d -> d + Z.of_nat n <= Z.of_nat (length med) ->
  exists h' med',
    row_loop n s y x d h med = (h', med', d + Z.of_nat n)
    /\ length med' = length med
    /\ forall i, 0 <= i ->
         rd med' i = if decide (d <= i < d + Z.of_nat n) then c else rd med i.
Proof using s_uniform c_byte.
  induction n as [|n IH]; intros x d h med Hl Hx Hxn Hd Hlen.
  - exists h, med. cbn [row_loop]. rewrite Z.add_0_r.
    split; [done|]. split; [done|]. intros i Hi. case_decide; [lia|done].
  - cbn [row_loop]. rewrite (scan_level 25 h (lowest h) Hl) by lia.
    rewrite uchar_byte by lia.
    set (h1 := Hist (vals h) (wr (lowest h) 0 c) (bot h)).
    assert (Hl1 : level c 25 h1) by (destruct Hl; by split).
    set (med1 := wr med d c).
    assert (Hnext : forall h2, level c 25 h2 ->
      exists h' med',
        row_loop n s y (x + 1) (d + 1) h2 med1
          = (h', med', d + Z.of_nat (S n))
        /\ length med' = length med
        /\ forall i, 0 <= i ->
             rd med' i =
               if decide (d <= i < d + Z.of_nat (S n)) then c else rd med i).
    { intros h2 Hl2.
      destruct (IH (x + 1) (d + 1) h2 med1 Hl2) as (h' & med' & -> & Hlm & Hrd);
        [lia|lia|lia|unfold med1; rewrite length_wr; lia|].
      exists h', med'. split; [f_equal; lia|].
      split; [rewrite Hlm; apply length_wr|].
      intros i Hi. rewrite Hrd by done. unfold med1.
      destruct (decide (i = d)) as [->|Hne].
      - rewrite decide_False by lia. rewrite decide_True by lia.
        apply rd_wr_same. lia.
      - rewrite rd_wr_other by lia.
        repeat case_decide; try lia; done. }
    destruct (Z.geb_spec x 99).
    + by apply Hnext.
    + apply Hnext. apply slide_level; [done|lia].
Qed.

(** [n] rows from the row at offset [y] on. *)
Lemma image_loop_uniform n : forall y d h med,
  0 <= d -> d + 100 * Z.of_nat n <= Z.of_nat (length med) ->
  exists h' med',
    image_loop n s y d h med = (h', med')
    /\ forall i, 0 <= i ->
         rd med' i =
           if decide (d <= i < d + 100 * Z.of_nat n) then c else rd med i.
Proof using s_uniform c_byte.
  induction n as [|n IH]; intros y d h med Hd Hlen.
  - exists h, med. split; [done|]. intros i Hi. case_decide; [lia|done].
  - cbn [image_loop].
    destruct (row_loop_uniform y (Z.to_nat 100) 0 d (seed s y h) med)
      as (h1 & med1 & -> & Hlm & Hrd);
      [apply seed_level|lia|lia|lia|lia|].
    destruct (IH (y + 100) (d + Z.of_nat (Z.to_nat 100)) h1 med1)
      as (h2 & med2 & -> & Hrd2); [lia|lia|].
    exists h2, med2. split; [done|].
    intros i Hi. rewrite Hrd2, Hrd by done.
    repeat case_decide; try lia; done.
Qed.

Lemma median5x5_uniform h med i :
  Z.of_nat (length med) = 10000 -> 0 <= i < 10000 ->
  rd (snd (median5x5 s h med)) i = c.
Proof using s_uniform c_byte.
  intros Hlen Hi. unfold median5x5.
  destruct (image_loop_uniform (Z.to_nat 100) 0 0 h med)
    as (h' & med' & -> & Hrd); [lia|lia|].
  cbn [snd]. rewrite Hrd by lia. by rewrite decide_True by lia.
Qed.

End MedianFacts.

(** C5. For every value [c] in 0..255, [median5x5] run on an image whose
    10,000 pixels all hold [c] writes [c] to each of the 10,000 cells of
    the median image, border included, whatever the histogram arrays and
    the median image held before. *)
Theorem median5x5_constant (c : Z) (pkt med : list Z) (h : Median.hist)
    (i : Z) :
  0 <= c <= 255 ->
  Median.uniform (Lut.raw pkt) c ->
  Z.of_nat (length med) = 10000 ->
  0 <= i < 10000 ->
  rd (snd (Median.median5x5 (Lut.raw pkt) h med)) i = c.
Proof.
  intros Hc Hu Hlen Hi. by apply median5x5_uniform.
Qed.

Lemma median5x5_constant_witness :
  rd (snd (Median.median5x5 (Lut.raw pkt50) (Median.Hist [] [] 0) img0)) 9999
    = 50.
Proof.
  apply (median5x5_constant 50 pkt50 img0 (Median.Hist [] [] 0) 9999).
  - lia.
  - intros i Hi. unfold Lut.raw, rd, pkt50.
    rewrite lookup_total_drop. apply lookup_total_replicate_2. lia.
  - vm_compute; reflexivity.
  - lia.
Defined.

(** * Further properties of the driver *)

(** ** [Night] *)

Section NightFacts.

Import Debug.

Lemma Night_loop_rd n : forall j dn s nite i,
  0 <= j -> j + Z.of_nat n <= Z.of_nat (length nite) -> 0 <= i ->
  rd (Night_loop n j dn s nite) i =
    if decide (j <= i < j + Z.of_nat n) then Night_pel dn (rd s i)
    else rd nite i.
Proof.
  induction n as [|n IH]; intros j dn s nite i Hj Hlen Hi; cbn [Night_loop].
  - case_decide; [lia|done].
  - rewrite IH by (rewrite ?length_wr; lia).
    destruct (decide (i = j)) as [->|Hne].
    + rewrite decide_False by lia. rewrite decide_True by lia.
      apply rd_wr_same. lia.
    + rewrite rd_wr_other by lia.
      repeat case_decide; try lia; done.
Qed.

Lemma length_Night_loop n : forall j dn s nite,
  length (Night_loop n j dn s nite) = length nite.
Proof.
  induction n as [|n IH]; intros j dn s nite; cbn [Night_loop]; [done|].
  by rewrite IH, length_wr.
Qed.

(** The brightness of a depth word: 255 minus the shifted depth, which
    is capped at 255. *)
Lemma Night_pel_value dn s :
  0 <= dn -> 0 <= s ->
  Night_pel dn s = 255 - Z.min 255 (Z.shiftr s dn)
  /\ 0 <= Night_pel dn s <= 255.
Proof.
  intros Hdn Hs. unfold Night_pel.
  assert (0 <= Z.shiftr s dn) by (by apply Z.shiftr_nonneg).
  destruct (Z.ltb_spec (Z.shiftr s dn) 255);
    rewrite uchar_byte by lia; lia.
Qed.

Lemma words_rd a i :
  words a -> 0 <= i < Z.of_nat (length a) -> 0 <= rd a i <= 65535.
Proof.
  intros Hb Hi.
  assert (Hlt : (Z.to_nat i < length a)%nat) by lia.
  destruct (lookup_lt_is_Some_2 a _ Hlt) as [x Hx].
  rewrite (rd_lookup _ _ _ Hx).
  unfold words in Hb. rewrite Forall_lookup in Hb. exact (Hb _ _ Hx).
Qed.

(** What [Night] returns for a held image and a legal shift. *)
Lemma Night_held sh s nite :
  0 <= sh <= 29 -> Z.of_nat (length nite) = 10000 ->
  exists img,
    Night sh (Some s) nite = Some (Some img)
    /\ length img = length nite
    /\ forall i, 0 <= i < 10000 -> rd img i = Night_pel (sh + 2) (rd s i).
Proof.
  intros Hsh Hlen. unfold Night. rewrite int32_small by lia.
  destruct (Z.ltb_spec (sh + 2) 0); [lia|].
  destruct (Z.geb_spec (sh + 2) 32); [lia|]. cbn [orb].
  eexists. split; [reflexivity|]. split; [apply length_Night_loop|].
  intros i Hi. rewrite Night_loop_rd by lia. by rewrite decide_True by lia.
Qed.

End NightFacts.

(** X1. [Night] applied to the image [reformat] has just written shows, at
    every pixel, 255 minus the depth in millimetres shifted right by [sh]
    (capped at 255), that is [unit * avg[i] >> sh]; a masked pixel comes
    out black (0) for every [sh] in 0..6. *)
Theorem Night_of_reformat (unit vlim sh : Z) (pkt avg var fill nite : list Z)
    (i : Z) :
  1 <= unit <= 9 -> 0 <= sh <= 6 ->
  Z.of_nat (length pkt) = 10018 -> Z.of_nat (length avg) = 10000 ->
  Z.of_nat (length fill) = 10000 -> Z.of_nat (length nite) = 10000 ->
  bytes pkt -> bytes avg ->
  0 <= i < 10000 ->
  exists img,
    Debug.Night sh (Some (Lut.reformat Lut.build_lut unit vlim pkt avg var fill))
      nite = Some (Some img)
    /\ rd img i =
         if decide (Lut.masked vlim (rd (Lut.raw pkt) i) (rd avg i) (rd var i))
         then 0
         else 255 - Z.min 255 (Z.shiftr (unit * rd avg i) sh).
Proof.
  intros Hu Hsh Hpkt Havg Hfill Hnite Bpkt Bavg Hi.
  destruct (Night_held sh
              (Lut.reformat Lut.build_lut unit vlim pkt avg var fill) nite)
    as (img & HN & _ & Hrd); [lia|done|].
  exists img. split; [exact HN|].
  rewrite Hrd by done.
  assert (Hp : 0 <= rd avg i <= 255) by (apply bytes_rd; [done|lia]).
  rewrite reformat_rd by done.
  case_decide as Hm.
  - assert (Hc : sh = 0 \/ sh = 1 \/ sh = 2 \/ sh = 3 \/ sh = 4 \/ sh = 5
                 \/ sh = 6) by lia.
    repeat destruct Hc as [->|Hc]; try subst sh; reflexivity.
  - rewrite build_lut_entry by done.
    destruct (Night_pel_value (sh + 2) (4 * unit * rd avg i)) as [-> _];
      [lia|nia|].
    do 2 f_equal.
    rewrite !Z.shiftr_div_pow2 by lia.
    rewrite Z.pow_add_r by lia. change (2 ^ 2) with 4.
    replace (4 * unit * rd avg i) with (4 * (unit * rd avg i)) by lia.
    rewrite (Z.mul_comm (2 ^ sh) 4).
    apply Z.div_mul_cancel_l; [|lia].
    assert (0 < 2 ^ sh) by (apply Z.pow_pos_nonneg; lia). lia.
Qed.

Lemma Night_of_reformat_witness :
  exists img,
    Debug.Night 1 (Some (Lut.reformat Lut.build_lut 2 32 pkt50 img50 img0 img0))
      img0 = Some (Some img)
    /\ rd img 7 =
         if decide (Lut.masked 32 (rd (Lut.raw pkt50) 7) (rd img50 7)
                      (rd img0 7))
         then 0
         else 255 - Z.min 255 (Z.shiftr (2 * rd img50 7) 1).
Proof.
  apply (Night_of_reformat 2 32 1 pkt50 img50 img0 img0 img0 7).
  - lia.
  - lia.
  - vm_compute; reflexivity.
  - vm_compute; reflexivity.
  - vm_compute; reflexivity.
  - vm_compute; reflexivity.
  - apply bytes_replicate; lia.
  - apply bytes_replicate; lia.
  - lia.
Defined.

(** X2. [Night] returns [NULL] when no buffer is held.  On a held 16-bit
    image and a shift [sh] in 0..29 it fills [nite] with bytes, and nearer
    is brighter: a pixel with the smaller depth word never gets the
    smaller brightness. *)
Theorem Night_nearer_brighter (sh : Z) (s nite : list Z) :
  0 <= sh <= 29 -> Debug.words s ->
  Z.of_nat (length s) = 10000 -> Z.of_nat (length nite) = 10000 ->
  Debug.Night sh None nite = Some None
  /\ exists img,
       Debug.Night sh (Some s) nite = Some (Some img)
       /\ length img = length nite
       /\ (forall i, 0 <= i < 10000 -> 0 <= rd img i <= 255)
       /\ (forall i j, 0 <= i < 10000 -> 0 <= j < 10000 ->
             rd s i <= rd s j -> rd img j <= rd img i).
Proof.
  intros Hsh Hw Hs Hn. split; [reflexivity|].
  destruct (Night_held sh s nite) as (img & HN & Hl & Hrd); [lia|done|].
  exists img. split; [exact HN|]. split; [exact Hl|]. split.
  - intros i Hi. rewrite Hrd by done.
    apply Night_pel_value; [lia|]. apply words_rd; [done|lia].
  - intros i j Hi Hj Hle. rewrite !Hrd by done.
    pose proof (words_rd s i Hw ltac:(lia)) as Hwi.
    pose proof (words_rd s j Hw ltac:(lia)) as Hwj.
    destruct (Night_pel_value (sh + 2) (rd s i)) as [-> _]; [lia|lia|].
    destruct (Night_pel_value (sh + 2) (rd s j)) as [-> _]; [lia|lia|].
    assert (Z.shiftr (rd s i) (sh + 2) <= Z.shiftr (rd s j) (sh + 2)).
    { rewrite !Z.shiftr_div_pow2 by lia.
      apply Z.div_le_mono; [|done].
      apply Z.pow_pos_nonneg; lia. }
    lia.
Qed.

Lemma Night_nearer_brighter_witness :
  Debug.Night 1 None img0 = Some None
  /\ exists img,
       Debug.Night 1 (Some img200) img0 = Some (Some img)
       /\ length img = length img0
       /\ (forall i, 0 <= i < 10000 -> 0 <= rd img i <= 255)
       /\ (forall i j, 0 <= i < 10000 -> 0 <= j < 10000 ->
             rd img200 i <= rd img200 j -> rd img j <= rd img i).
Proof.
  apply (Night_nearer_brighter 1 img200 img0).
  - lia.
  - apply Forall_replicate. lia.
  - vm_compute; reflexivity.
  - vm_compute; reflexivity.
Defined.

(** ** The temporal filter for any learning weight *)

Section FlywheelGeneral.

Import Filter.

Lemma clamp255_range z : 0 <= clamp255 z <= 255.
Proof.
  unfold clamp255. destruct (Z.leb_spec z 0); [lia|].
  destruct (Z.ltb_spec z 255); lia.
Qed.

Lemma clamp255_le z : 0 <= z -> clamp255 z <= z.
Proof.
  intros Hz. unfold clamp255. destruct (Z.leb_spec z 0); [lia|].
  destruct (Z.ltb_spec z 255); lia.
Qed.

(** An array whose cells all read as bytes is a byte array. *)
Lemma bytes_of_rd a :
  (forall i, 0 <= i < Z.of_nat (length a) -> 0 <= rd a i <= 255) -> bytes a.
Proof.
  intros H. unfold bytes. apply Forall_lookup. intros i x Hx.
  pose proof (lookup_lt_Some _ _ _ Hx) as Hlt.
  specialize (H (Z.of_nat i) ltac:(lia)).
  rewrite (rd_lookup a (Z.of_nat i) x) in H; [done|].
  by rewrite Nat2Z.id.
Qed.

Variables fi mn : Z.
Hypothesis fi_range : 0 <= fi <= 128.
Hypothesis mn_range : 0 < mn < 1073741824.

(** One pixel, for a weight [f0] of at most one half: the update does
    not trap, stores bytes, moves the average no further than the
    measurement, and lets the variance grow only on disagreement. *)
Lemma flywheel_pel_sound m p v :
  0 <= m <= 255 -> 0 <= p <= 255 -> 0 <= v <= 255 ->
  exists p' v',
    flywheel_pel fi (256 - fi) mn m p v = Some (p', v')
    /\ 0 <= p' <= 255 /\ 0 <= v' <= 255
    /\ Z.min m p <= p' <= Z.max m p
    /\ (m = p -> v' <= v).
Proof using fi_range mn_range.
  intros Hm Hp Hv. unfold flywheel_pel.
  set (diff := m - p).
  assert (Hd : -255 <= diff <= 255) by (unfold diff; lia).
  assert (Hsq : 0 <= diff * diff <= 65025).
  { pose proof (Z.mul_nonneg_nonneg (255 - diff) (255 + diff)).
    pose proof (Z.square_nonneg diff). lia. }
  set (vm := (256 - fi) * v + fi * diff * diff).
  assert (Hvm : 0 <= vm <= 8388480).
  { unfold vm. rewrite <- Z.mul_assoc.
    set (q := diff * diff) in *. nia. }
  rewrite (int32_small vm) by lia.
  rewrite (Z.shiftl_mul_pow2 vm) by lia. change (2 ^ 8) with 256.
  rewrite (int32_small (vm * 256)) by lia.
  rewrite (int32_small (vm + mn)) by lia.
  unfold idiv.
  destruct (Z.eqb_spec (vm + mn) 0); [lia|].
  destruct (Z.eqb_spec (vm + mn) (-1)); [lia|].
  rewrite andb_false_r. cbn [orb]. rewrite bind_Some.
  rewrite Z.quot_div_nonneg by lia.
  set (k := vm * 256 / (vm + mn)).
  assert (Hk : 0 <= k <= 256).
  { unfold k. split; [apply Z.div_pos; lia|].
    apply Z.div_le_upper_bound; lia. }
  rewrite (Z.shiftl_mul_pow2 p) by lia. change (2 ^ 8) with 256.
  assert (Hkd : Z.min 0 (256 * diff) <= k * diff <= Z.max 0 (256 * diff))
    by nia.
  rewrite (int32_small (p * 256 + k * diff + 128)) by (unfold diff in *; lia).
  rewrite (Z.shiftr_div_pow2 _ 8) by lia. change (2 ^ 8) with 256.
  set (val := (p * 256 + k * diff + 128) / 256).
  assert (Hval : Z.min m p <= val <= Z.max m p).
  { unfold val. split.
    - apply Z.div_le_lower_bound; [lia|]. unfold diff in *. lia.
    - apply Z.lt_succ_r. apply Z.div_lt_upper_bound; [lia|].
      unfold diff in *. lia. }
  rewrite (Z.shiftr_div_pow2 vm 1) by lia. change (2 ^ 1) with 2.
  assert (Hh : 0 <= vm / 2 <= vm).
  { split; [apply Z.div_pos; lia|].
    apply Z.div_le_upper_bound; lia. }
  assert (Hy : 0 <= (256 - k) * (vm / 2) <= 256 * (vm / 2)) by nia.
  rewrite (int32_small ((256 - k) * (vm / 2) + 16384)) by lia.
  rewrite (Z.shiftr_div_pow2 _ 15) by lia. change (2 ^ 15) with 32768.
  set (w := ((256 - k) * (vm / 2) + 16384) / 32768).
  assert (Hw : 0 <= w) by (unfold w; apply Z.div_pos; lia).
  eexists _, _. split; [reflexivity|].
  rewrite (clamp255_byte val) by lia.
  split; [lia|]. split; [apply clamp255_range|]. split; [exact Hval|].
  intros ->. pose proof (clamp255_le w Hw) as Hc.
  assert (w <= v); [|lia].
  unfold w. apply Z.lt_succ_r. apply Z.div_lt_upper_bound; [lia|].
  assert (vm = (256 - fi) * v) by (unfold vm, diff; nia).
  assert (vm / 2 <= 128 * v) by (apply Z.div_le_upper_bound; nia).
  nia.
Qed.

(** The loop treats every cell on its own. *)
Lemma flywheel_pel_fits m p v :
  0 <= m <= 255 -> 0 <= p <= 255 -> 0 <= v <= 255 ->
  flywheel_fits fi (256 - fi) mn m p v.
Proof using fi_range mn_range.
  intros Hm Hp Hv. unfold flywheel_fits, in_int. cbv zeta.
  set (diff := m - p).
  assert (Hd : -255 <= diff <= 255) by (unfold diff; lia).
  assert (Hsq : 0 <= diff * diff <= 65025).
  { pose proof (Z.mul_nonneg_nonneg (255 - diff) (255 + diff)).
    pose proof (Z.square_nonneg diff). lia. }
  assert (Hcv : 0 <= (256 - fi) * v <= 65280) by nia.
  assert (Hfd : -32640 <= fi * diff <= 32640) by nia.
  assert (Hfdd : 0 <= fi * diff * diff <= 128 * (diff * diff)).
  { rewrite <- Z.mul_assoc. set (q := diff * diff) in *. nia. }
  set (vm := (256 - fi) * v + fi * diff * diff).
  assert (Hvm : 0 <= vm <= 8388480).
  { unfold vm. rewrite <- Z.mul_assoc in *.
    set (q := diff * diff) in *. nia. }
  rewrite Z.quot_div_nonneg by lia.
  set (k := vm * 256 / (vm + mn)).
  assert (Hk : 0 <= k <= 256).
  { unfold k. split; [apply Z.div_pos; lia|].
    apply Z.div_le_upper_bound; lia. }
  assert (Hkd : -65280 <= k * diff <= 65280) by nia.
  assert (Hh : 0 <= Z.shiftr vm 1 <= 4194240).
  { rewrite Z.shiftr_div_pow2 by lia. change (2 ^ 1) with 2.
    split; [apply Z.div_pos; lia|]. apply Z.div_le_upper_bound; lia. }
  assert (Hy : 0 <= (256 - k) * Z.shiftr vm 1 <= 1073725440) by nia.
  fold vm. repeat split; lia.
Qed.

Lemma flywheel_pel_exact m p v :
  0 <= m <= 255 -> 0 <= p <= 255 -> 0 <= v <= 255 ->
  flywheel_pel fi (256 - fi) mn m p v
  = Some (flywheel_exact fi (256 - fi) mn m p v).
Proof using fi_range mn_range.
  intros Hm Hp Hv.
  pose proof (flywheel_pel_fits m p v Hm Hp Hv) as Hf.
  unfold flywheel_fits, in_int in Hf. cbv zeta in Hf.
  destruct Hf as (_ & _ & _ & _ & Hvm & Hvm0 & Hs & Hd & Hd0 & _ & _ & _
                  & _ & Hp' & _ & _ & Hv').
  unfold flywheel_pel, flywheel_exact. cbv zeta.
  set (diff := m - p) in *.
  set (vm := (256 - fi) * v + fi * diff * diff) in *.
  rewrite (int32_small vm) by lia.
  rewrite (Z.shiftl_mul_pow2 vm) by lia. change (2 ^ 8) with 256.
  rewrite (int32_small (vm * 256)), (int32_small (vm + mn)) by lia.
  unfold idiv.
  destruct (Z.eqb_spec (vm + mn) 0); [lia|].
  destruct (Z.eqb_spec (vm + mn) (-1)); [lia|].
  rewrite andb_false_r. cbn [orb]. rewrite bind_Some.
  rewrite Z.quot_div_nonneg in * by lia.
  set (k := vm * 256 / (vm + mn)) in *.
  rewrite (Z.shiftl_mul_pow2 p) by lia. change (2 ^ 8) with 256.
  rewrite (int32_small (p * 256 + k * diff + 128)) by lia.
  rewrite (int32_small ((256 - k) * Z.shiftr vm 1 + 16384)) by lia.
  rewrite !Z.shiftr_div_pow2 by lia.
  by change (2 ^ 8) with 256; change (2 ^ 1) with 2;
     change (2 ^ 15) with 32768.
Qed.

Lemma flywheel_loop_cells n : forall j m p v,
  0 <= j ->
  j + Z.of_nat n <= Z.of_nat (length p) ->
  j + Z.of_nat n <= Z.of_nat (length v) ->
  (forall i, j <= i < j + Z.of_nat n ->
     0 <= rd m i <= 255 /\ 0 <= rd p i <= 255 /\ 0 <= rd v i <= 255) ->
  exists p' v',
    flywheel_loop n j fi (256 - fi) mn m p v = Some (p', v')
    /\ length p' = length p /\ length v' = length v
    /\ forall i, 0 <= i ->
         if decide (j <= i < j + Z.of_nat n)
         then flywheel_pel fi (256 - fi) mn (rd m i) (rd p i) (rd v i)
                = Some (rd p' i, rd v' i)
         else rd p' i = rd p i /\ rd v' i = rd v i.
Proof using fi_range mn_range.
  induction n as [|n IH]; intros j m p v Hj Hlp Hlv Hcell.
  - exists p, v. split; [done|]. split; [done|]. split; [done|].
    intros i Hi. case_decide; [lia|done].
  - cbn [flywheel_loop].
    destruct (Hcell j) as (Hm & Hp & Hv); [lia|].
    destruct (flywheel_pel_sound _ _ _ Hm Hp Hv)
      as (p1 & v1 & Hpel & Hp1 & Hv1 & _).
    rewrite Hpel, bind_Some.
    destruct (IH (j + 1) m (wr p j p1) (wr v j v1))
      as (p' & v' & -> & Hlp' & Hlv' & Hrd);
      [lia|rewrite length_wr; lia|rewrite length_wr; lia| |].
    { intros i Hi. rewrite !rd_wr_other by lia. apply Hcell. lia. }
    exists p', v'. split; [done|].
    rewrite Hlp', Hlv', !length_wr. split; [done|]. split; [done|].
    intros i Hi. specialize (Hrd i Hi).
    destruct (decide (i = j)) as [->|Hne].
    + rewrite decide_False in Hrd by lia. rewrite decide_True by lia.
      destruct Hrd as [-> ->]. rewrite !rd_wr_same by lia. exact Hpel.
    + rewrite !rd_wr_other in Hrd by lia.
      repeat case_decide; try lia; done.
Qed.

(** A call of [flywheel], at any frame count. *)
Lemma flywheel_sound frame med avg var :
  bytes med -> bytes avg -> bytes var ->
  Z.of_nat (length med) = 10000 -> Z.of_nat (length avg) = 10000 ->
  Z.of_nat (length var) = 10000 ->
  exists avg' var',
    flywheel fi mn frame med avg var = Some (avg', var')
    /\ Z.of_nat (length avg') = 10000 /\ Z.of_nat (length var') = 10000
    /\ forall i, 0 <= i < 10000 ->
         0 <= rd avg' i <= 255 /\ 0 <= rd var' i <= 255
         /\ Z.min (rd med i) (rd avg i) <= rd avg' i
              <= Z.max (rd med i) (rd avg i)
         /\ (rd med i = rd avg i -> rd var' i <= rd var i).
Proof using fi_range mn_range.
  intros Bm Ba Bv Lm La Lv. unfold flywheel.
  destruct (Z.leb_spec frame 0).
  - eexists _, _. split; [reflexivity|].
    rewrite !store_all;
      [|rewrite length_replicate; lia|rewrite length_take; lia].
    rewrite take_ge by lia. rewrite length_replicate.
    split; [done|]. split; [lia|].
    intros i Hi. rewrite rd_replicate by lia.
    pose proof (bytes_rd med i Bm ltac:(lia)).
    pose proof (bytes_rd var i Bv ltac:(lia)). lia.
  - destruct (flywheel_loop_cells (Z.to_nat 10000) 0 med avg var)
      as (p' & v' & -> & Hlp & Hlv & Hrd); [lia|lia|lia| |].
    { intros i Hi. split; [|split]; apply bytes_rd; done || lia. }
    exists p', v'. split; [done|]. split; [lia|]. split; [lia|].
    intros i Hi. specialize (Hrd i ltac:(lia)).
    rewrite decide_True in Hrd by lia.
    destruct (flywheel_pel_sound (rd med i) (rd avg i) (rd var i))
      as (p1 & v1 & Hpel & Hp1 & Hv1 & Hbt & Hst);
      [apply bytes_rd; done || lia..|].
    rewrite Hpel in Hrd. injection Hrd as <- <-. done.
Qed.

Lemma flywheel_later frame med avg var avg' var' :
  0 < frame ->
  bytes med -> bytes avg -> bytes var ->
  Z.of_nat (length med) = 10000 -> Z.of_nat (length avg) = 10000 ->
  Z.of_nat (length var) = 10000 ->
  flywheel fi mn frame med avg var = Some (avg', var') ->
  forall i, 0 <= i < 10000 ->
    (rd avg' i, rd var' i)
    = flywheel_exact fi (256 - fi) mn (rd med i) (rd avg i) (rd var i).
Proof using fi_range mn_range.
  intros Hf Bm Ba Bv Lm La Lv H i Hi. unfold flywheel in H.
  destruct (Z.leb_spec frame 0) as [|_]; [lia|].
  destruct (flywheel_loop_cells (Z.to_nat 10000) 0 med avg var)
    as (p' & v' & He & _ & _ & Hc); [lia|lia|lia| |].
  { intros j Hj. repeat split; apply bytes_rd; (done || lia). }
  rewrite He in H. simplify_eq.
  specialize (Hc i ltac:(lia)). rewrite decide_True in Hc by lia.
  rewrite flywheel_pel_exact in Hc by (apply bytes_rd; (done || lia)).
  by simplify_eq.
Qed.

End FlywheelGeneral.

(** X3. For a learning weight [fi] in 0..128 (that is [f0] up to one half)
    and a noise floor [mn] in 1..2^30 - 1, [flywheel] never traps and
    never overflows: it returns, at every pixel each sub-expression of
    the update, evaluated exactly, has a value that an [int] holds, with
    a divisor that is not zero, and after the first frame the stored
    average and variance are those that exact arithmetic gives.  It
    leaves byte images of 10,000 cells, and at every pixel the new
    average lies between the old average and the median measurement: the
    filter never overshoots. *)
Theorem flywheel_between (fi mn frame : Z) (med avg var : list Z) :
  0 <= fi <= 128 -> 0 < mn < 1073741824 ->
  bytes med -> bytes avg -> bytes var ->
  Z.of_nat (length med) = 10000 -> Z.of_nat (length avg) = 10000 ->
  Z.of_nat (length var) = 10000 ->
  exists avg' var',
    Filter.flywheel fi mn frame med avg var = Some (avg', var')
    /\ bytes avg' /\ bytes var'
    /\ Z.of_nat (length avg') = 10000 /\ Z.of_nat (length var') = 10000
    /\ (forall i, 0 <= i < 10000 ->
          Z.min (rd med i) (rd avg i) <= rd avg' i
            <= Z.max (rd med i) (rd avg i))
    /\ (forall i, 0 <= i < 10000 ->
          Filter.flywheel_fits fi (256 - fi) mn
            (rd med i) (rd avg i) (rd var i))
    /\ (0 < frame ->
        forall i, 0 <= i < 10000 ->
          (rd avg' i, rd var' i)
          = Filter.flywheel_exact fi (256 - fi) mn
              (rd med i) (rd avg i) (rd var i)).
Proof.
  intros Hfi Hmn Bm Ba Bv Lm La Lv.
  destruct (flywheel_sound fi mn Hfi Hmn frame med avg var)
    as (avg' & var' & HF & La' & Lv' & Hc); try done.
  exists avg', var'. split; [exact HF|].
  split; [apply bytes_of_rd; intros i Hi; apply Hc; lia|].
  split; [apply bytes_of_rd; intros i Hi; apply Hc; lia|].
  split; [done|]. split; [done|].
  split; [intros i Hi; apply Hc; done|].
  split.
  - intros i Hi. apply (flywheel_pel_fits fi mn Hfi Hmn);
      apply bytes_rd; (done || lia).
  - intros Hf. by apply (flywheel_later fi mn Hfi Hmn frame med avg var).
Qed.

Lemma flywheel_between_witness :
  exists avg' var',
    Filter.flywheel 26 16384 5 img200 img50 img0 = Some (avg', var')
    /\ bytes avg' /\ bytes var'
    /\ Z.of_nat (length avg') = 10000 /\ Z.of_nat (length var') = 10000
    /\ (forall i, 0 <= i < 10000 ->
          Z.min (rd img200 i) (rd img50 i) <= rd avg' i
            <= Z.max (rd img200 i) (rd img50 i))
    /\ (forall i, 0 <= i < 10000 ->
          Filter.flywheel_fits 26 (256 - 26) 16384
            (rd img200 i) (rd img50 i) (rd img0 i))
    /\ (0 < 5 ->
        forall i, 0 <= i < 10000 ->
          (rd avg' i, rd var' i)
          = Filter.flywheel_exact 26 (256 - 26) 16384
              (rd img200 i) (rd img50 i) (rd img0 i)).
Proof.
  apply (flywheel_between 26 16384 5 img200 img50 img0).
  - lia.
  - lia.
  - apply bytes_replicate; lia.
  - apply bytes_replicate; lia.
  - apply bytes_replicate; lia.
  - vm_compute; reflexivity.
  - vm_compute; reflexivity.
  - vm_compute; reflexivity.
Defined.

(** X4. Under the same bounds on [fi] and [mn], a pixel whose median
    measurement equals its running average keeps that average, and its
    variance estimate does not grow; with a zero variance the pixel is
    left exactly as it was, whatever the learning weight. *)
Theorem flywheel_agreeing_pixel (fi mn frame : Z) (med avg var : list Z)
    (i : Z) :
  0 <= fi <= 128 -> 0 < mn < 1073741824 ->
  bytes med -> bytes avg -> bytes var ->
  Z.of_nat (length med) = 10000 -> Z.of_nat (length avg) = 10000 ->
  Z.of_nat (length var) = 10000 ->
  0 <= i < 10000 -> rd med i = rd avg i ->
  exists avg' var',
    Filter.flywheel fi mn frame med avg var = Some (avg', var')
    /\ rd avg' i = rd avg i
    /\ 0 <= rd var' i <= rd var i.
Proof.
  intros Hfi Hmn Bm Ba Bv Lm La Lv Hi Heq.
  destruct (flywheel_sound fi mn Hfi Hmn frame med avg var)
    as (avg' & var' & HF & La' & Lv' & Hc); try done.
  exists avg', var'. split; [exact HF|].
  destruct (Hc i Hi) as (_ & Hv & Hb & Hs). specialize (Hs Heq). lia.
Qed.

Lemma flywheel_agreeing_pixel_witness :
  exists avg' var',
    Filter.flywheel 26 16384 5 img50 img50 img200 = Some (avg', var')
    /\ rd avg' 7 = rd img50 7
    /\ 0 <= rd var' 7 <= rd img200 7.
Proof.
  apply (flywheel_agreeing_pixel 26 16384 5 img50 img50 img200 7).
  - lia.
  - lia.
  - apply bytes_replicate; lia.
  - apply bytes_replicate; lia.
  - apply bytes_replicate; lia.
  - vm_compute; reflexivity.
  - vm_compute; reflexivity.
  - vm_compute; reflexivity.
  - lia.
  - vm_compute; reflexivity.
Defined.

(** ** Resolution change towards a coarser step *)

Section DepthStepCoarser.

Import Filter.

Lemma length_rescale_loop n : forall j sc p,
  length (rescale_loop n j sc p) = length p.
Proof.
  induction n as [|n IH]; intros j sc p; cbn [rescale_loop]; [done|].
  by rewrite IH, length_wr.
Qed.

(** A ratio of at most one never raises a cell. *)
Lemma saturated_scale_le f x :
  0 <= f <= 256 -> 0 <= x <= 255 ->
  0 <= Z.shiftr (f * x + 128) 8 <= x.
Proof.
  intros Hf Hx. rewrite Z.shiftr_div_pow2 by lia. change (2 ^ 8) with 256.
  split; [apply Z.div_pos; nia|].
  apply Z.lt_succ_r. apply Z.div_lt_upper_bound; nia.
Qed.

Lemma depth_step_lengths e e' :
  depth_step e = Some e' ->
  length (avg e') = length (avg e) /\ length (var e') = length (var e).
Proof.
  unfold depth_step.
  destruct (idiv (int32 (Z.shiftl (unit e) 8)) (pend e)) as [f1|];
    [|by intros ?].
  rewrite bind_Some.
  destruct (idiv (int32 (Z.shiftl (int32 (unit e * unit e)) 8))
              (int32 (pend e * pend e))) as [f2|]; [|by intros ?].
  rewrite bind_Some. intros [= <-]. cbn [avg var]. unfold rescale.
  by rewrite !length_rescale_loop.
Qed.

End DepthStepCoarser.

(** X5. When the pending resolution is coarser than or equal to the
    current one ([unit <= pend], both in 1..9), [depth_step] stores in
    every mean and variance cell exactly the rounded product with the 8.8
    ratio, as the saturating formula gives it, and no cell grows; the
    images stay byte images of 10,000 cells and [unit] becomes [pend]. *)
Theorem depth_step_coarser (e : Filter.est) :
  1 <= Filter.unit e <= Filter.pend e -> Filter.pend e <= 9 ->
  bytes (Filter.avg e) -> bytes (Filter.var e) ->
  Z.of_nat (length (Filter.avg e)) = 10000 ->
  Z.of_nat (length (Filter.var e)) = 10000 ->
  let fp := Z.quot (Z.shiftl (Filter.unit e) 8) (Filter.pend e) in
  let fv := Z.quot (Z.shiftl (Filter.unit e * Filter.unit e) 8)
                   (Filter.pend e * Filter.pend e) in
  exists e',
    Filter.depth_step e = Some e'
    /\ Filter.unit e' = Filter.pend e /\ Filter.pend e' = Filter.pend e
    /\ Z.of_nat (length (Filter.avg e')) = 10000
    /\ Z.of_nat (length (Filter.var e')) = 10000
    /\ forall i, 0 <= i < 10000 ->
         rd (Filter.avg e') i = Filter.saturated_scale fp (rd (Filter.avg e) i)
         /\ rd (Filter.var e') i
              = Filter.saturated_scale fv (rd (Filter.var e) i)
         /\ 0 <= rd (Filter.avg e') i <= rd (Filter.avg e) i
         /\ 0 <= rd (Filter.var e') i <= rd (Filter.var e) i.
Proof.
  intros Hu Hq Ba Bv La Lv fp fv.
  assert (Hfp : 0 <= fp <= 256).
  { unfold fp. rewrite Z.shiftl_mul_pow2 by lia. change (2 ^ 8) with 256.
    rewrite Z.quot_div_nonneg by lia. split; [apply Z.div_pos; lia|].
    apply Z.div_le_upper_bound; lia. }
  assert (Hfv : 0 <= fv <= 256).
  { unfold fv. rewrite Z.shiftl_mul_pow2 by nia. change (2 ^ 8) with 256.
    rewrite Z.quot_div_nonneg by nia. split; [apply Z.div_pos; nia|].
    apply Z.div_le_upper_bound; nia. }
  destruct (depth_step_cells e) as (e' & Hd & Hu' & Hq' & Hc);
    [lia|lia|done..|].
  exists e'. split; [exact Hd|]. split; [exact Hu'|]. split; [exact Hq'|].
  destruct (depth_step_lengths e e' Hd) as [Hla Hlv].
  split; [lia|]. split; [lia|].
  intros i Hi. destruct (Hc i Hi) as [Ha Hv]. fold fp in Ha. fold fv in Hv.
  pose proof (bytes_rd _ i Ba ltac:(lia)) as Hpa.
  pose proof (bytes_rd _ i Bv ltac:(lia)) as Hpv.
  pose proof (saturated_scale_le fp _ Hfp Hpa) as Hsa.
  pose proof (saturated_scale_le fv _ Hfv Hpv) as Hsv.
  rewrite Ha, Hv. rewrite !uchar_saturated by lia.
  unfold Filter.saturated_scale. lia.
Qed.

Lemma depth_step_coarser_witness :
  let fp := Z.quot (Z.shiftl (Filter.unit est23) 8) (Filter.pend est23) in
  let fv := Z.quot (Z.shiftl (Filter.unit est23 * Filter.unit est23) 8)
                   (Filter.pend est23 * Filter.pend est23) in
  exists e',
    Filter.depth_step est23 = Some e'
    /\ Filter.unit e' = Filter.pend est23
    /\ Filter.pend e' = Filter.pend est23
    /\ Z.of_nat (length (Filter.avg e')) = 10000
    /\ Z.of_nat (length (Filter.var e')) = 10000
    /\ forall i, 0 <= i < 10000 ->
         rd (Filter.avg e') i
           = Filter.saturated_scale fp (rd (Filter.avg est23) i)
         /\ rd (Filter.var e') i
              = Filter.saturated_scale fv (rd (Filter.var est23) i)
         /\ 0 <= rd (Filter.avg e') i <= rd (Filter.avg est23) i
         /\ 0 <= rd (Filter.var e') i <= rd (Filter.var est23) i.
Proof.
  apply (depth_step_coarser est23).
  - simpl; lia.
  - simpl; lia.
  - apply bytes_replicate; lia.
  - apply bytes_replicate; lia.
  - vm_compute; reflexivity.
  - vm_compute; reflexivity.
Defined.

(** ** Warm-up and hand-over of the triple buffer *)

Section RotorMore.

Import Rotor.

Lemma ok_worker n r : ok (worker n r) = ok r.
Proof. induction n as [|n IH]; [done|]. unfold worker in *. cbn. exact IH. Qed.

Lemma lock_worker n r : lock (worker n r) = lock r.
Proof. induction n as [|n IH]; [done|]. unfold worker in *. cbn. exact IH. Qed.

Lemma fresh_worker n r :
  -2147483648 <= fresh r -> fresh r + Z.of_nat n < 2147483648 ->
  fresh (worker n r) = fresh r + Z.of_nat n.
Proof.
  induction n as [|n IH]; intros Hlo Hhi; [cbn; lia|].
  change (worker (S n) r) with (swap_bufs (worker n r)).
  unfold swap_bufs. cbn [fresh].
  rewrite IH by lia. rewrite int32_small by lia. lia.
Qed.

Lemma done_worker_S n r : done (worker (S n) r) = fill (worker n r).
Proof. reflexivity. Qed.

End RotorMore.

(** X6. After a successful [Start] the first two frames are held back:
    while the worker has published at most two frames, a non-blocking
    [Range] returns [NULL], sleeps not at all and changes nothing.  From
    the third frame on [Range] returns at once, with the array the worker
    completed last and [fresh] back at 0. *)
Theorem Range_after_warm_up (usb : Z) (r : Rotor.rotor) (n : nat)
    (block : Z) (w : nat -> nat) (late : nat) :
  0 < usb -> Z.of_nat n + Z.of_nat late < 2147483648 ->
  let r0 := Rotor.Start usb r in
  ((n <= 2)%nat ->
   Rotor.Range 0 w late (Rotor.worker n r0)
     = Some (None, Rotor.worker n r0, O))
  /\ ((3 <= n)%nat ->
      exists b r',
        Rotor.Range block w late (Rotor.worker n r0) = Some (Some b, r', O)
        /\ Rotor.fill (Rotor.worker (late + n - 1) r0) = Some b
        /\ Rotor.lock r' = Some b /\ Rotor.done r' = Some b
        /\ Rotor.fresh r' = 0).
Proof.
  intros Husb Hn r0.
  assert (Hok : forall m, Rotor.ok (Rotor.worker m r0) = 1).
  { intros m. rewrite ok_worker. unfold r0, Rotor.Start.
    by destruct (Z.leb_spec usb 0); [lia|]. }
  assert (Hfr : forall m, Z.of_nat m < 2147483648 ->
            Rotor.fresh (Rotor.worker m r0) = Z.of_nat m - 2).
  { intros m Hm. rewrite fresh_worker.
    - unfold r0, Rotor.Start. destruct (Z.leb_spec usb 0); [lia|].
      cbn [Rotor.fresh]. lia.
    - unfold r0, Rotor.Start. destruct (Z.leb_spec usb 0); [lia|].
      cbn [Rotor.fresh]. lia.
    - unfold r0, Rotor.Start. destruct (Z.leb_spec usb 0); [lia|].
      cbn [Rotor.fresh]. lia. }
  split; intros Hn'.
  - unfold Rotor.Range. rewrite Hok. change (1 <=? 0) with false. cbv iota.
    unfold Rotor.poll_fuel.
    replace (Z.to_nat 502) with (S (Z.to_nat 501)) by lia.
    cbn [Rotor.Range_poll]. rewrite Hfr by lia.
    destruct (Z.leb_spec (Z.of_nat n - 2) 0); [|lia].
    change (0 <=? 0) with true. cbv iota. by rewrite bind_Some.
  - unfold Rotor.Range. rewrite Hok. change (1 <=? 0) with false. cbv iota.
    unfold Rotor.poll_fuel.
    replace (Z.to_nat 502) with (S (Z.to_nat 501)) by lia.
    cbn [Rotor.Range_poll]. rewrite Hfr by lia.
    destruct (Z.leb_spec (Z.of_nat n - 2) 0); [lia|].
    rewrite bind_Some. rewrite worker_worker.
    destruct (safe_worker (late + n - 1) r0) as ([b Hb] & _).
    { unfold r0, Rotor.Start. destruct (Z.leb_spec usb 0); [lia|].
      unfold Rotor.safe. cbn. eauto. }
    exists b. eexists. split.
    + f_equal. f_equal. f_equal.
      replace (late + n)%nat with (S (late + n - 1)) by lia.
      cbn [Rotor.take_done Rotor.lock]. rewrite done_worker_S. exact Hb.
    + split; [exact Hb|].
      replace (late + n)%nat with (S (late + n - 1)) by lia.
      cbn [Rotor.take_done Rotor.lock Rotor.done Rotor.fresh].
      rewrite done_worker_S. done.
Qed.

Lemma Range_after_warm_up_witness :
  let r0 := Rotor.Start 1 cold in
  ((3 <= 2)%nat ->
   Rotor.Range 0 idle O (Rotor.worker 3 r0)
     = Some (None, Rotor.worker 3 r0, O))
  /\ ((3 <= 3)%nat ->
      exists b r',
        Rotor.Range 1 idle O (Rotor.worker 3 r0) = Some (Some b, r', O)
        /\ Rotor.fill (Rotor.worker (0 + 3 - 1) r0) = Some b
        /\ Rotor.lock r' = Some b /\ Rotor.done r' = Some b
        /\ Rotor.fresh r' = 0).
Proof.
  apply (Range_after_warm_up 1 cold 3 1 idle O).
  - lia.
  - lia.
Defined.

(** X7. The array a successful [Range] returns from a reachable state is
    out of the worker's reach until the next [Range]: however many frames
    the worker publishes, [lock] still names that array and [fill], the
    array being written, never does. *)
Theorem Range_buffer_held (r r' : Rotor.rotor) (block : Z) (w : nat -> nat)
    (late k : nat) (b : Rotor.buf) (n : nat) :
  Rotor.reachable r ->
  Rotor.Range block w late r = Some (Some b, r', k) ->
  Rotor.lock r' = Some b
  /\ Rotor.lock (Rotor.worker n r') = Some b
  /\ Rotor.fill (Rotor.worker n r') <> Some b.
Proof.
  intros Hr HR.
  assert (Hs : Rotor.safe r') by (eapply safe_Range; [by apply safe_reachable|done]).
  assert (Hl : Rotor.lock r' = Some b).
  { revert HR. unfold Rotor.Range.
    destruct (Rotor.ok r <=? 0); [done|].
    destruct (Rotor.Range_poll _ _ _ _ _ _) as [[[seen r1] k1]|]; [|done].
    rewrite bind_Some. destruct seen; [|done].
    intros [= H1 <- _]. exact H1. }
  split; [exact Hl|]. rewrite lock_worker. split; [exact Hl|].
  destruct (safe_worker n r' Hs) as (_ & Hne & _).
  rewrite lock_worker, Hl in Hne. exact Hne.
Qed.

Lemma Range_buffer_held_witness :
  Rotor.lock stalled = Some Rotor.d0
  /\ Rotor.lock (Rotor.worker 5 stalled) = Some Rotor.d0
  /\ Rotor.fill (Rotor.worker 5 stalled) <> Some Rotor.d0.
Proof.
  apply (Range_buffer_held (Rotor.worker 3 (Rotor.Start 1 cold)) stalled
           1 idle O O Rotor.d0 5).
  - do 3 apply Rotor.reach_swap. apply Rotor.reach_start. lia.
  - vm_compute. reflexivity.
Defined.

(** ** Automatic ranging *)

Section AutoRangeFacts.

Import Driver.

(** The cases of [auto_range], for any floating-point roundings. *)
Lemma auto_range_cases (F : fpu) (T : tuning) (frame : Z)
    (raw cent : list Z) (unit pend : Z) :
  1 <= unit <= 9 -> 1 <= pend <= 9 ->
  exists cent' pend' out,
    auto_range F T frame raw cent unit pend = (cent', pend', out)
    /\ 1 <= pend' <= 9
    /\ (frame < 2 -> cent' = cent /\ pend' = pend /\ out = [])
    /\ (pend <> unit -> pend' = pend /\ out = [])
    /\ ((pend' = pend /\ out = [])
        \/ (pend = unit /\ pend' <> unit
            /\ out = [[65; 84; 43; 85; 78; 73; 84; 61; 48 + pend'; 13]])).
Proof.
  intros Hu Hp. unfold auto_range.
  destruct (Z.ltb_spec frame 2) as [Hf|Hf].
  { exists cent, pend, []. split; [done|]. split; [done|].
    split; [done|]. split; [done|]. by left. }
  set (c1 := roi_y _ _ _ _ _ _).
  set (miss := miss_of F _ _).
  set (g0 := goal_of F _ _).
  set (g1 := if g0 <=? 1 then 1 else if g0 <? 9 then g0 else 9).
  assert (Hg1 : 1 <= g1 <= 9).
  { unfold g1. destruct (Z.leb_spec g0 1); [lia|].
    destruct (Z.ltb_spec g0 9); lia. }
  set (g2 := if (miss >? sat T) && (g1 <=? unit) && (unit <? 9)
             then unit + 1 else g1).
  assert (Hg2 : 1 <= g2 <= 9).
  { unfold g2. destruct ((miss >? sat T) && (g1 <=? unit)); cbn [andb];
      [|lia]. destruct (Z.ltb_spec unit 9); lia. }
  destruct (Z.eqb_spec g2 unit) as [He|Hne]; cbn [negb andb].
  { exists c1, pend, []. split; [done|]. split; [done|].
    split; [lia|]. split; [done|]. by left. }
  destruct (Z.eqb_spec pend unit) as [Hpu|Hpu].
  - exists c1, g2, [cmd_unit g2]. split; [done|]. split; [done|].
    split; [lia|]. split; [lia|].
    right. split; [done|]. split; [done|].
    unfold cmd_unit. rewrite uchar_byte by lia. done.
  - exists c1, pend, []. split; [done|]. split; [done|].
    split; [lia|]. split; [done|]. by left.
Qed.

(** X8. Whatever the floating-point roundings give, [auto_range] leaves
    everything alone during the first two frames, and latches or sends
    nothing while a command is outstanding ([pend <> unit]); otherwise it
    either does nothing or latches a new [pend] different from [unit] and
    writes the one command [AT+UNIT=d] followed by a carriage return,
    where [d] is the digit of the new [pend].  With [unit] and [pend] in
    1..9 the new [pend] is in 1..9 again, so the digit is one of 1..9. *)
Theorem auto_range_commands (F : fpu) (T : tuning) (frame : Z)
    (raw cent : list Z) (unit pend : Z) :
  1 <= unit <= 9 -> 1 <= pend <= 9 ->
  exists cent' pend' out,
    auto_range F T frame raw cent unit pend = (cent', pend', out)
    /\ 1 <= pend' <= 9
    /\ (frame < 2 -> cent' = cent /\ pend' = pend /\ out = [])
    /\ (pend <> unit -> pend' = pend /\ out = [])
    /\ ((pend' = pend /\ out = [])
        \/ (pend = unit /\ pend' <> unit
            /\ out = [[65; 84; 43; 85; 78; 73; 84; 61; 48 + pend'; 13]])).
Proof. apply auto_range_cases. Qed.

Lemma auto_range_commands_witness :
  exists cent' pend' out,
    auto_range fpu0 tuning0 5 (Lut.raw pkt50) [] 2 2 = (cent', pend', out)
    /\ 1 <= pend' <= 9
    /\ (5 < 2 -> cent' = [] /\ pend' = 2 /\ out = [])
    /\ (2 <> 2 -> pend' = 2 /\ out = [])
    /\ ((pend' = 2 /\ out = [])
        \/ (2 = 2 /\ pend' <> 2
            /\ out = [[65; 84; 43; 85; 78; 73; 84; 61; 48 + pend'; 13]])).
Proof.
  apply (auto_range_commands fpu0 tuning0 5 (Lut.raw pkt50) [] 2 2); lia.
Defined.

End AutoRangeFacts.

(** ** One pass of the acquisition loop *)

Section FrameFacts.

Import Driver.

Lemma uchar_range z : 0 <= uchar z <= 255.
Proof. unfold uchar. pose proof (Z.mod_pos_bound z 256). lia. Qed.

(** Whatever the image, a row of the median filter writes bytes into
    its [n] cells and nothing elsewhere. *)
Lemma row_loop_cells s y n : forall x d h med,
  0 <= d -> d + Z.of_nat n <= Z.of_nat (length med) ->
  exists h' med',
    Median.row_loop n s y x d h med = (h', med', d + Z.of_nat n)
    /\ length med' = length med
    /\ forall i, 0 <= i ->
         if decide (d <= i < d + Z.of_nat n) then 0 <= rd med' i <= 255
         else rd med' i = rd med i.
Proof.
  induction n as [|n IH]; intros x d h med Hd Hlen.
  - exists h, med. cbn [Median.row_loop]. rewrite Z.add_0_r.
    split; [done|]. split; [done|]. intros i Hi. case_decide; [lia|done].
  - cbn [Median.row_loop].
    destruct (Median.scan _ _ _ _ _ _) as [hi low].
    set (med1 := wr med d (uchar hi)).
    assert (Hnext : forall h2,
      exists h' med',
        Median.row_loop n s y (x + 1) (d + 1) h2 med1
          = (h', med', d + Z.of_nat (S n))
        /\ length med' = length med
        /\ forall i, 0 <= i ->
             if decide (d <= i < d + Z.of_nat (S n))
             then 0 <= rd med' i <= 255 else rd med' i = rd med i).
    { intros h2.
      destruct (IH (x + 1) (d + 1) h2 med1) as (h' & med' & -> & Hlm & Hrd);
        [lia|unfold med1; rewrite length_wr; lia|].
      exists h', med'. split; [f_equal; lia|].
      split; [rewrite Hlm; apply length_wr|].
      intros i Hi. specialize (Hrd i Hi). unfold med1 in Hrd.
      destruct (decide (i = d)) as [->|Hne].
      - rewrite decide_False in Hrd by lia. rewrite decide_True by lia.
        rewrite Hrd, rd_wr_same by lia. apply uchar_range.
      - rewrite rd_wr_other in Hrd by lia.
        repeat case_decide; try lia; done. }
    destruct (x >=? 99); apply Hnext.
Qed.

Lemma image_loop_cells s n : forall y d h med,
  0 <= d -> d + 100 * Z.of_nat n <= Z.of_nat (length med) ->
  exists h' med',
    Median.image_loop n s y d h med = (h', med')
    /\ length med' = length med
    /\ forall i, 0 <= i ->
         if decide (d <= i < d + 100 * Z.of_nat n) then 0 <= rd med' i <= 255
         else rd med' i = rd med i.
Proof.
  induction n as [|n IH]; intros y d h med Hd Hlen.
  - exists h, med. split; [done|]. split; [done|].
    intros i Hi. case_decide; [lia|done].
  - cbn [Median.image_loop].
    destruct (row_loop_cells s y (Z.to_nat 100) 0 d (Median.seed s y h) med)
      as (h1 & med1 & -> & Hlm & Hrd); [lia|lia|].
    destruct (IH (y + 100) (d + Z.of_nat (Z.to_nat 100)) h1 med1)
      as (h2 & med2 & -> & Hlm2 & Hrd2); [lia|lia|].
    exists h2, med2. split; [done|]. split; [congruence|].
    intros i Hi. specialize (Hrd i Hi). specialize (Hrd2 i Hi).
    repeat case_decide; try lia; congruence.
Qed.

(** The median image is a byte image of the same size, for any input. *)
Lemma median5x5_bytes s h med :
  Z.of_nat (length med) = 10000 ->
  Z.of_nat (length (snd (Median.median5x5 s h med))) = 10000
  /\ bytes (snd (Median.median5x5 s h med)).
Proof.
  intros Hlen. unfold Median.median5x5.
  destruct (image_loop_cells s (Z.to_nat 100) 0 0 h med)
    as (h' & med' & -> & Hlm & Hrd); [lia|lia|].
  cbn [snd]. split; [lia|].
  apply bytes_of_rd. intros i Hi. specialize (Hrd i ltac:(lia)).
  by rewrite decide_True in Hrd by lia.
Qed.

Lemma length_reformat_loop n : forall i sc vlim s p v d,
  length (Lut.reformat_loop n i sc vlim s p v d) = length d.
Proof.
  induction n as [|n IH]; intros i sc vlim s p v d; cbn [Lut.reformat_loop];
    [done|]. by rewrite IH, length_wr.
Qed.

Lemma bytes_app_inv (a b : list Z) : bytes (a ++ b) -> bytes a /\ bytes b.
Proof. unfold bytes. apply Forall_app. Qed.

(** [depth_step] keeps a fit estimator fit. *)
Lemma depth_step_fit e :
  fit e -> exists e', Filter.depth_step e = Some e' /\ fit e'.
Proof.
  intros (Hu & Hq & Ba & Bv & La & Lv).
  destruct (depth_step_cells e Hu Hq Ba Bv La Lv)
    as (e' & Hd & Hu' & Hq' & Hc).
  destruct (depth_step_lengths e e' Hd) as [Hla Hlv].
  exists e'. split; [done|]. unfold fit. rewrite Hu', Hq'.
  split; [done|]. split; [done|].
  split; [|split; [|lia]].
  - apply bytes_of_rd. intros i Hi.
    destruct (Hc i) as [-> _]; [lia|]. apply uchar_range.
  - apply bytes_of_rd. intros i Hi.
    destruct (Hc i) as [_ ->]; [lia|]. apply uchar_range.
Qed.

(** [sync] returns on every byte stream, with code 0 or 1, and hands
    on a fit estimator and a byte stream. *)
Lemma sync_fit frame e t :
  fit e -> octets t ->
  exists rc e' t',
    Framer.sync frame e t = Some (rc, e', t')
    /\ fit e' /\ octets t' /\ (rc = 0 /\ e' = e \/ rc = 1).
Proof.
  intros He Ht.
  destruct (sync_loop_returns Framer.sync_fuel 0 t) as [[[rc start] t'] Hl];
    [lia|unfold Framer.sync_fuel; lia|].
  assert (H0 : 0 <= 0 <= 20001) by lia.
  pose proof (sync_loop_scanned _ _ _ _ _ _ H0 Hl)
    as (used & Hp & _ & _ & Hrc).
  assert (Ht' : octets t').
  { unfold octets in *. rewrite Hp in Ht.
    by apply bytes_app_inv in Ht as [_ Ht]. }
  destruct (depth_step_fit e He) as (e1 & Hd & He1).
  unfold Framer.sync. rewrite Hl, bind_Some.
  destruct Hrc as [(-> & _)|(-> & _)].
  - change (1 =? 0) with false. cbv iota.
    destruct ((start >? 1) && (frame >? 2)).
    + rewrite Hd, bind_Some. exists 1, e1, t'.
      do 3 (split; [done|]). by right.
    + exists 1, e, t'. do 3 (split; [done|]). by right.
  - change (0 =? 0) with true. cbv iota. exists 0, e, t'.
    do 3 (split; [done|]). by left.
Qed.

Lemma fill_raw_loop_length fuel : forall n pkt t rc pkt' t',
  0 <= n < 10018 -> Z.of_nat (length pkt) = 10018 ->
  Framer.fill_raw_loop fuel n pkt t = Some (rc, pkt', t') ->
  Z.of_nat (length pkt') = 10018.
Proof.
  induction fuel as [|fuel IH]; intros n pkt t rc pkt' t' Hn Hlen H; [done|].
  cbn [Framer.fill_raw_loop] in H.
  destruct (Framer.read t (10018 - n)) as [[rc1 bs1] t1] eqn:E.
  apply read_pending in E as (_ & -> & Hb).
  destruct (Z.leb_spec (Z.of_nat (length bs1)) 0); [by simplify_eq|].
  assert (Hs : Z.of_nat (length (store pkt n bs1)) = 10018)
    by (rewrite length_store; lia).
  destruct (Z.geb_spec (n + Z.of_nat (length bs1)) 10018);
    [by simplify_eq|].
  eapply (IH (n + Z.of_nat (length bs1))); [|exact Hs|exact H]. lia.
Qed.

(** [fill_raw] returns on every byte stream; the packet buffer keeps its
    size, and on success holds bytes. *)
Lemma fill_raw_fit pkt t :
  Z.of_nat (length pkt) = 10018 -> octets t ->
  exists rc pkt' t',
    Framer.fill_raw pkt t = Some (rc, pkt', t')
    /\ Z.of_nat (length pkt') = 10018 /\ octets t'
    /\ (rc = 0 \/ rc = 1 /\ bytes pkt').
Proof.
  intros Hlen Ht. unfold Framer.fill_raw.
  destruct (fill_raw_loop_returns Framer.fill_fuel 0 pkt t)
    as [[[rc pkt'] t'] Hf]; [lia|unfold Framer.fill_fuel; lia|].
  assert (H0 : 0 <= 0 < 10018) by lia.
  pose proof (fill_raw_loop_length _ _ _ _ _ _ _ H0 Hlen Hf) as Hl'.
  destruct (fill_raw_loop_filled _ _ _ _ _ _ _ H0 Hlen Hf)
    as (bs & Hp & Hrc).
  unfold octets in *. rewrite Hp in Ht. apply bytes_app_inv in Ht as [Hbs Ht'].
  exists rc, pkt', t'. split; [done|]. split; [done|]. split; [done|].
  destruct Hrc as [(-> & _ & ->)|(-> & _)]; [right|by left].
  split; [done|]. by change (Z.to_nat 0) with O.
Qed.

Lemma safe_stream_end r : Rotor.safe r -> Rotor.safe (Rotor.stream_end r).
Proof. done. Qed.

Lemma get_buf_Cam e p m h ce r s b b' img x0 x1 x2 :
  get_buf b'
    (Cam e p m h ce r
       (if decide (b = Rotor.d0) then img else x0)
       (if decide (b = Rotor.d1) then img else x1)
       (if decide (b = Rotor.d2) then img else x2) s)
  = if decide (b' = b) then img
    else match b' with
         | Rotor.d0 => x0
         | Rotor.d1 => x1
         | Rotor.d2 => x2
         end.
Proof.
  destruct b, b'; cbn [get_buf d0c d1c d2c]; repeat case_decide; congruence.
Qed.

Lemma get_buf_broken b c e p : get_buf b (broken c e p) = get_buf b c.
Proof. by destruct b. Qed.

Lemma steady_broken c e p :
  steady c -> fit e -> Z.of_nat (length p) = 10018 -> steady (broken c e p).
Proof.
  intros (_ & _ & _ & _ & _ & _ & _ & Lm & Lb & Hs)
         (Hu & Hq & Ba & Bv & La & Lv) Lp.
  unfold steady. cbn [broken est pkt med rot].
  do 8 (split; [done|]). split; [|done].
  intros b. rewrite get_buf_broken. apply Lb.
Qed.

(** Inside the image a checked read is the array read. *)
Lemma fetch_inside p k :
  Z.of_nat (length p) = 10018 -> 0 <= k < 10000 ->
  fetch p k = Some (rd (Lut.raw p) k).
Proof.
  intros Hl Hk. unfold fetch, rd, Lut.raw.
  destruct (Z.ltb_spec (16 + k) 0) as [|_]; [lia|].
  assert (Hi : (Z.to_nat k < length (drop 16 p))%nat)
    by (rewrite length_drop; lia).
  rewrite (list_lookup_total_alt (drop 16 p)).
  apply lookup_lt_is_Some_2 in Hi as [v Hv]. rewrite Hv. cbn.
  rewrite lookup_drop in Hv. rewrite <- Hv. f_equal. lia.
Qed.

Lemma roi_x_offset s n : forall k ce, (roi_x n s k ce).2 = k + Z.of_nat n.
Proof.
  induction n as [|n IH]; intros k ce; cbn [roi_x].
  - cbn. lia.
  - rewrite IH. lia.
Qed.

Lemma roi_x_chk_inside p n : forall k ce,
  Z.of_nat (length p) = 10018 -> 0 <= k -> k + Z.of_nat n <= 10000 ->
  roi_x_chk n p k ce = Some (roi_x n (Lut.raw p) k ce).
Proof.
  induction n as [|n IH]; intros k ce Hl Hk Hn; cbn [roi_x_chk roi_x];
    [done|].
  rewrite fetch_inside by lia. rewrite bind_Some. apply IH; lia.
Qed.

Lemma roi_y_chk_inside p cw0 n : forall k ce,
  Z.of_nat (length p) = 10018 -> 0 <= cw0 -> 0 <= k ->
  k + cw0 + 100 * (Z.of_nat n - 1) <= 10000 ->
  roi_y_chk n cw0 (100 - cw0) p k ce
  = Some (roi_y n cw0 (100 - cw0) (Lut.raw p) k ce).
Proof.
  induction n as [|n IH]; intros k ce Hl Hw Hk Hn; cbn [roi_y_chk roi_y];
    [done|].
  rewrite roi_x_chk_inside by lia. rewrite bind_Some.
  pose proof (roi_x_offset (Lut.raw p) (Z.to_nat cw0) k ce) as Ho.
  destruct (roi_x (Z.to_nat cw0) (Lut.raw p) k ce) as [c1 k1].
  cbn [snd] in Ho. apply IH; lia.
Qed.

(** With the region of interest inside the image every read of
    [auto_range] is inside the packet buffer, and the checked code
    computes what [auto_range] computes on the raw image. *)
Lemma auto_range_chk_inside F T frame p ce unit pend :
  Z.of_nat (length p) = 10018 -> roi_inside T ->
  auto_range_chk F T frame p ce unit pend
  = Some (auto_range F T frame (Lut.raw p) ce unit pend).
Proof.
  intros Hl (Hx & Hw & Hxw & Hy & Hh & Hyh).
  unfold auto_range_chk, auto_range.
  destruct (frame <? 2); [done|]. cbv zeta.
  rewrite roi_y_chk_inside by lia. rewrite bind_Some.
  by destruct (negb _ && _).
Qed.

(** A region of interest that leaves the image makes the pass read
    beyond the packet buffer. *)
Lemma auto_range_chk_outside :
  auto_range_chk fpu0 (Tuning 80 50 150 60 60 50 50 26 16384 32) 5
    pkt0 [] 2 2 = None.
Proof. vm_compute. reflexivity. Qed.

(** What one pass of [main_loop] does from a steady state, on any byte
    stream. *)
Lemma frame_step_cases F T c t :
  steady c -> tame T -> octets t ->
  exists rc c' t',
    frame_step F T c t = Some (rc, c', t')
    /\ steady c' /\ octets t'
    /\ Rotor.lock (rot c') = Rotor.lock (rot c)
    /\ ((rc = 0 /\ Rotor.ok (rot c') = 0
         /\ Rotor.fill (rot c') = Rotor.fill (rot c)
         /\ Rotor.done (rot c') = Rotor.done (rot c)
         /\ sent c' = sent c
         /\ forall b, get_buf b c' = get_buf b c)
        \/ (rc = 1
            /\ exists b,
                 Rotor.fill (rot c) = Some b
                 /\ Rotor.done (rot c') = Some b
                 /\ Rotor.ok (rot c') = Rotor.ok (rot c)
                 /\ (forall b', b' <> b -> get_buf b' c' = get_buf b' c)
                 /\ forall i, 0 <= i < 10000 ->
                      rd (get_buf b c') i =
                        if decide (Lut.masked (vlim T)
                                     (rd (Lut.raw (pkt c')) i)
                                     (rd (Filter.avg (est c')) i)
                                     (rd (Filter.var (est c')) i))
                        then 65535
                        else 4 * Filter.unit (est c')
                               * rd (Filter.avg (est c')) i)).
Proof.
  intros Hc0 (Hfi & Hmn & Hroi) Ht.
  pose proof Hc0 as (Hu & Hq & Ba & Bv & La & Lv & Lp & Lm & Lb & Hs).
  unfold frame_step.
  destruct (sync_fit (Rotor.frame (rot c)) (est c) t)
    as (rc & e1 & t1 & -> & He1 & Ht1 & Hrc); [done|done|].
  rewrite bind_Some.
  pose proof He1 as (Hu1 & Hq1 & Ba1 & Bv1 & La1 & Lv1).
  destruct Hrc as [[-> ->] | ->].
  { change (0 <=? 0) with true. cbv iota.
    eexists 0, _, t1. split; [reflexivity|].
    split; [by apply steady_broken|]. split; [done|]. split; [done|].
    left. do 5 (split; [done|]). intros b. apply get_buf_broken. }
  change (1 <=? 0) with false. cbv iota.
  destruct (fill_raw_fit (pkt c) t1) as (rc & pkt1 & t2 & -> & Lp1 & Ht2 & Hrc);
    [done|done|].
  rewrite bind_Some.
  destruct Hrc as [-> | [-> Bp1]].
  { change (0 <=? 0) with true. cbv iota.
    eexists 0, _, t2. split; [reflexivity|].
    split; [by apply steady_broken|]. split; [done|]. split; [done|].
    left. do 5 (split; [done|]). intros b. apply get_buf_broken. }
  change (1 <=? 0) with false. cbv iota.
  rewrite auto_range_chk_inside by done.
  destruct (auto_range_cases F T (Rotor.frame (rot c)) (Lut.raw pkt1) (cent c)
              (Filter.unit e1) (Filter.pend e1))
    as (cent1 & pend1 & out & -> & Hq2 & _); [done|done|].
  rewrite bind_Some.
  pose proof (median5x5_bytes (Lut.raw pkt1) (hist c) (med c) Lm) as [Lm1 Bm1].
  destruct (Median.median5x5 (Lut.raw pkt1) (hist c) (med c))
    as [hist1 med1].
  cbn [snd] in Lm1, Bm1.
  destruct (flywheel_sound (fi T) (mn T) Hfi Hmn (Rotor.frame (rot c))
              med1 (Filter.avg e1) (Filter.var e1))
    as (avg1 & var1 & -> & La2 & Lv2 & Hc); try done.
  rewrite bind_Some.
  assert (Ba2 : bytes avg1)
    by (apply bytes_of_rd; intros i Hi; apply Hc; lia).
  assert (Bv2 : bytes var1)
    by (apply bytes_of_rd; intros i Hi; apply Hc; lia).
  destruct Hs as ([b Hb] & Hfl & Hfd). rewrite Hb, bind_Some.
  set (img := Lut.reformat Lut.build_lut (Filter.unit e1) (vlim T) pkt1
                avg1 var1 (get_buf b c)).
  assert (Limg : Z.of_nat (length img) = 10000).
  { unfold img, Lut.reformat. rewrite length_reformat_loop. apply Lb. }
  eexists 1, _, t2. split; [reflexivity|].
  split.
  { unfold steady. cbn [est pkt med rot Filter.unit Filter.pend Filter.avg
                        Filter.var].
    do 8 (split; [done|]). split; [|apply safe_swap_bufs].
    intros b'. rewrite get_buf_Cam. case_decide; [exact Limg|].
    apply (Lb b'). }
  split; [done|]. split; [done|].
  right. split; [done|]. exists b.
  split; [done|]. split; [done|]. split; [done|]. split.
  { intros b' Hne. rewrite get_buf_Cam. by rewrite decide_False. }
  intros i Hi. cbn [est pkt Filter.unit Filter.avg Filter.var].
  rewrite get_buf_Cam, decide_True by done.
  unfold img. rewrite reformat_rd by (done || apply Lb).
  case_decide; [done|].
  apply build_lut_entry; [done|]. apply bytes_rd; [done|lia].
Qed.

(** Any number of passes: the loop does not trap, keeps its state
    steady, and leaves alone the array the consumer holds. *)
Lemma main_loop_cases F T n : forall c t b,
  steady c -> tame T -> octets t -> Rotor.lock (rot c) = Some b ->
  exists live c' t',
    main_loop n F T c t = Some (live, c', t')
    /\ steady c' /\ octets t'
    /\ Rotor.lock (rot c') = Some b
    /\ get_buf b c' = get_buf b c
    /\ (live = false -> Rotor.ok (rot c') = 0).
Proof.
  induction n as [|n IH]; intros c t b Hc HT Ht Hl.
  - exists true, c, t. do 5 (split; [done|]). done.
  - cbn [main_loop].
    destruct (frame_step_cases F T c t Hc HT Ht)
      as (rc & c1 & t1 & -> & Hc1 & Ht1 & Hl1 & Hrc).
    rewrite bind_Some.
    destruct Hrc as [(-> & Hok & _ & _ & _ & Hb)
                    |(-> & b0 & Hf & _ & _ & Hb & _)].
    + change (0 <=? 0) with true. cbv iota.
      exists false, c1, t1. split; [done|]. split; [done|]. split; [done|].
      split; [congruence|]. split; [apply Hb|done].
    + change (1 <=? 0) with false. cbv iota.
      assert (b <> b0).
      { destruct Hc as (_ & _ & _ & _ & _ & _ & _ & _ & _ & _ & Hne & _).
        congruence. }
      destruct (IH c1 t1 b Hc1 HT Ht1) as (live & c2 & t2 & -> & H2);
        [congruence|].
      exists live, c2, t2. split; [done|].
      destruct H2 as (? & ? & ? & Hg & ?).
      do 3 (split; [done|]). split; [|done].
      rewrite Hg. by apply Hb.
Qed.

End FrameFacts.

Lemma steady_cam1 : Driver.steady cam1.
Proof.
  unfold Driver.steady, cam1. cbn [Driver.est Driver.pkt Driver.med Driver.rot].
  split; [simpl; lia|]. split; [simpl; lia|].
  split; [apply bytes_replicate; lia|].
  split; [apply bytes_replicate; lia|].
  do 4 (split; [vm_compute; reflexivity|]).
  split; [intros []; vm_compute; reflexivity|].
  unfold Rotor.safe, stalled. cbn. split; [eauto|]. split; discriminate.
Qed.

Lemma octets_framed : Driver.octets framed.
Proof.
  unfold Driver.octets, Framer.pending, framed, bytes. cbn [concat].
  rewrite !Forall_app. split; [|split; [|split]].
  - unfold Framer.sentinel. repeat constructor; lia.
  - apply bytes_replicate. lia.
  - repeat constructor; lia.
  - constructor.
Qed.

(** X9. One pass of [main_loop], whatever integers the three
    floating-point conversions of [auto_range] yield, under three
    hypotheses.  The state is steady: [unit] and [pend] in 1..9, [avg]
    and [var] byte images of 10,000 cells, [pkt] of 10,018 cells, [med]
    and the three output arrays of 10,000 cells, [fill] an array that is
    neither [lock] nor [done].  The tuning is tame: [fi] in 0..128, that
    is [f0] at most 0.5; [mn] in 1..2^30 - 1, so [nv] is not 0; and the
    region of interest inside the 100 by 100 image, [cx0], [cw], [cy0],
    [ch] not negative with [cx0 + cw] and [cy0 + ch] at most 100.  The
    transport delivers bytes.  Then the pass returns: [flywheel] divides
    by no zero, [auto_range] reads no cell outside [pkt], [fill] names
    an array and the read loops of [sync] and [fill_raw] end; and it
    leaves a steady state.  Either the stream broke in [sync] or
    [fill_raw]: then [ok] is 0 and no buffer, pointer or command
    changed.  Or the pass completed: then [done] names the array that
    was [fill], the two other arrays and [lock] are untouched, and every
    word of the published array is 65535 where the pixel is masked and
    [4 * unit * avg[i]] otherwise, for the [unit], mean and variance the
    pass ends with. *)
Theorem frame_step_publishes (F : Driver.fpu) (T : Driver.tuning)
    (c : Driver.cam) (t : Framer.transport) :
  Driver.steady c -> Driver.tame T -> Driver.octets t ->
  exists rc c' t',
    Driver.frame_step F T c t = Some (rc, c', t')
    /\ Driver.steady c' /\ Driver.octets t'
    /\ Rotor.lock (Driver.rot c') = Rotor.lock (Driver.rot c)
    /\ ((rc = 0 /\ Rotor.ok (Driver.rot c') = 0
         /\ Rotor.fill (Driver.rot c') = Rotor.fill (Driver.rot c)
         /\ Rotor.done (Driver.rot c') = Rotor.done (Driver.rot c)
         /\ Driver.sent c' = Driver.sent c
         /\ forall b, Driver.get_buf b c' = Driver.get_buf b c)
        \/ (rc = 1
            /\ exists b,
                 Rotor.fill (Driver.rot c) = Some b
                 /\ Rotor.done (Driver.rot c') = Some b
                 /\ Rotor.ok (Driver.rot c') = Rotor.ok (Driver.rot c)
                 /\ (forall b', b' <> b ->
                       Driver.get_buf b' c' = Driver.get_buf b' c)
                 /\ forall i, 0 <= i < 10000 ->
                      rd (Driver.get_buf b c') i =
                        if decide (Lut.masked (Driver.vlim T)
                                     (rd (Lut.raw (Driver.pkt c')) i)
                                     (rd (Filter.avg (Driver.est c')) i)
                                     (rd (Filter.var (Driver.est c')) i))
                        then 65535
                        else 4 * Filter.unit (Driver.est c')
                               * rd (Filter.avg (Driver.est c')) i)).
Proof. apply frame_step_cases. Qed.

Lemma frame_step_publishes_witness :
  exists rc c' t',
    Driver.frame_step fpu0 tuning0 cam1 framed = Some (rc, c', t')
    /\ Driver.steady c' /\ Driver.octets t'
    /\ Rotor.lock (Driver.rot c') = Rotor.lock (Driver.rot cam1)
    /\ ((rc = 0 /\ Rotor.ok (Driver.rot c') = 0
         /\ Rotor.fill (Driver.rot c') = Rotor.fill (Driver.rot cam1)
         /\ Rotor.done (Driver.rot c') = Rotor.done (Driver.rot cam1)
         /\ Driver.sent c' = Driver.sent cam1
         /\ forall b, Driver.get_buf b c' = Driver.get_buf b cam1)
        \/ (rc = 1
            /\ exists b,
                 Rotor.fill (Driver.rot cam1) = Some b
                 /\ Rotor.done (Driver.rot c') = Some b
                 /\ Rotor.ok (Driver.rot c') = Rotor.ok (Driver.rot cam1)
                 /\ (forall b', b' <> b ->
                       Driver.get_buf b' c' = Driver.get_buf b' cam1)
                 /\ forall i, 0 <= i < 10000 ->
                      rd (Driver.get_buf b c') i =
                        if decide (Lut.masked (Driver.vlim tuning0)
                                     (rd (Lut.raw (Driver.pkt c')) i)
                                     (rd (Filter.avg (Driver.est c')) i)
                                     (rd (Filter.var (Driver.est c')) i))
                        then 65535
                        else 4 * Filter.unit (Driver.est c')
                               * rd (Filter.avg (Driver.est c')) i)).
Proof.
  apply (frame_step_publishes fpu0 tuning0 cam1 framed).
  - exact steady_cam1.
  - unfold Driver.tame, Driver.roi_inside. simpl. lia.
  - exact octets_framed.
Defined.

(** X10. Any number of passes of [main_loop], whatever integers the
    floating-point conversions of [auto_range] yield, from a steady
    state (as in X9) in which [lock] names an array, with a tame tuning
    ([fi] in 0..128, [mn] in 1..2^30 - 1, the region of interest inside
    the image) and on a transport that delivers bytes: every pass
    returns, with no division by zero and no read of [auto_range]
    outside [pkt]; the array the consumer holds keeps its contents word
    for word and [lock] keeps naming it; the state stays steady; and
    when the loop stops on a broken stream it leaves [ok = 0]. *)
Theorem main_loop_spares_lock (F : Driver.fpu) (T : Driver.tuning) (n : nat)
    (c : Driver.cam) (t : Framer.transport) (b : Rotor.buf) :
  Driver.steady c -> Driver.tame T -> Driver.octets t ->
  Rotor.lock (Driver.rot c) = Some b ->
  exists live c' t',
    Driver.main_loop n F T c t = Some (live, c', t')
    /\ Driver.steady c' /\ Driver.octets t'
    /\ Rotor.lock (Driver.rot c') = Some b
    /\ Driver.get_buf b c' = Driver.get_buf b c
    /\ (live = false -> Rotor.ok (Driver.rot c') = 0).
Proof. apply main_loop_cases. Qed.

Lemma main_loop_spares_lock_witness :
  exists live c' t',
    Driver.main_loop 3 fpu0 tuning0 cam1 framed = Some (live, c', t')
    /\ Driver.steady c' /\ Driver.octets t'
    /\ Rotor.lock (Driver.rot c') = Some Rotor.d0
    /\ Driver.get_buf Rotor.d0 c' = Driver.get_buf Rotor.d0 cam1
    /\ (live = false -> Rotor.ok (Driver.rot c') = 0).
Proof.
  apply (main_loop_spares_lock fpu0 tuning0 3 cam1 framed Rotor.d0).
  - exact steady_cam1.
  - unfold Driver.tame, Driver.roi_inside. simpl. lia.
  - exact octets_framed.
  - reflexivity.
Defined.

(** ** Closing the sensor *)

(** X11. [Done] can be called any number of times: a second call changes
    nothing and writes nothing.  After it the port is closed, the thread
    flag is not positive, [Range] returns [NULL] at once, and the sensor
    has been sent [AT+UNIT=0] then [AT+DISP=1] exactly when a port was
    open. *)
Theorem Done_idempotent (c : Driver.cam) (p : Life.port) (block : Z)
    (w : nat -> nat) (late : nat) :
  let c1 := fst (Life.Done c p) in
  let p1 := snd (Life.Done c p) in
  Life.Done c1 p1 = (c1, p1)
  /\ Life.ser p1 < 0 /\ Life.run p1 <= 0
  /\ Rotor.Range block w late (Driver.rot c1) = Some (None, Driver.rot c1, O)
  /\ Driver.sent c1 =
       Driver.sent c ++
       (if Life.ser p >=? 0
        then [[65; 84; 43; 85; 78; 73; 84; 61; 48; 13];
              [65; 84; 43; 68; 73; 83; 80; 61; 49; 13]]
        else []).
Proof.
  destruct c as [e pk m h ce r b0 b1 b2 s], p as [sr rn].
  unfold Life.Done. cbn [Life.ser Life.run Driver.rot Driver.sent Driver.est
    Driver.pkt Driver.med Driver.hist Driver.cent Driver.d0c Driver.d1c
    Driver.d2c].
  destruct (Z.geb_spec sr 0) as [Hs|Hs];
    destruct (Z.gtb_spec rn 0) as [Hr|Hr];
    cbn [fst snd Life.ser Life.run Driver.rot Driver.sent Driver.est
      Driver.pkt Driver.med Driver.hist Driver.cent Driver.d0c Driver.d1c
      Driver.d2c Rotor.fill Rotor.done Rotor.lock Rotor.fresh Rotor.frame];
    change (-1 >=? 0) with false; change (0 >? 0) with false; cbv iota;
    try (destruct (Z.geb_spec sr 0); [|lia]);
    try (destruct (Z.geb_spec sr 0); [lia|]);
    try (destruct (Z.gtb_spec rn 0); [lia|]);
    rewrite ?app_nil_r;
    (split; [reflexivity|]); (split; [lia|]); (split; [lia|]);
    (split; [reflexivity|reflexivity]).
Qed.

(** ** Image files *)

Section FileFacts.

Import Files.

Lemma rd_app_l (a b : list Z) i :
  0 <= i < Z.of_nat (length a) -> rd (a ++ b) i = rd a i.
Proof. intros Hi. unfold rd. apply lookup_total_app_l. lia. Qed.

Lemma rd_app_r (a b : list Z) i :
  Z.of_nat (length a) <= i -> rd (a ++ b) i = rd b (i - Z.of_nat (length a)).
Proof.
  intros Hi. unfold rd. rewrite lookup_total_app_r by lia. f_equal. lia.
Qed.

Lemma land_255 z : Z.land z 255 = z mod 256.
Proof. change 255 with (Z.ones 8). by rewrite Z.land_ones by lia. Qed.

Lemma land_65535 z : Z.land z 65535 = z mod 65536.
Proof. change 65535 with (Z.ones 16). by rewrite Z.land_ones by lia. Qed.

Lemma write16_bytes out val :
  write16 out val = out ++ [val mod 256; (val / 256) mod 256].
Proof.
  unfold write16, putc. rewrite !land_255.
  rewrite Z.shiftr_div_pow2 by lia. change (2 ^ 8) with 256.
  unfold uchar. rewrite !Z.mod_mod by lia. by rewrite <- app_assoc.
Qed.

Lemma write16b_bytes out val :
  write16b out val = out ++ [(val / 256) mod 256; val mod 256].
Proof.
  unfold write16b, putc. rewrite !land_255.
  rewrite Z.shiftr_div_pow2 by lia. change (2 ^ 8) with 256.
  unfold uchar. rewrite !Z.mod_mod by lia. by rewrite <- app_assoc.
Qed.

End FileFacts.

(** X12. [write32] appends four bytes, least significant first, that
    read back as the value modulo 2^32; [write32b] appends the same four
    bytes in the opposite order. *)
Theorem write32_round_trip (out : list Z) (val : Z) :
  0 <= val ->
  exists b0 b1 b2 b3,
    Files.write32 out val = out ++ [b0; b1; b2; b3]
    /\ Files.write32b out val = out ++ [b3; b2; b1; b0]
    /\ bytes [b0; b1; b2; b3]
    /\ Files.le32 (Files.write32 out val) (Z.of_nat (length out))
         = val mod 4294967296
    /\ Files.be32 (Files.write32b out val) (Z.of_nat (length out))
         = val mod 4294967296.
Proof.
  intros Hv.
  set (lo := val mod 65536). set (hi := (val / 65536) mod 65536).
  assert (Hw : Files.write32 out val
               = out ++ [lo mod 256; (lo / 256) mod 256;
                         hi mod 256; (hi / 256) mod 256]).
  { unfold Files.write32. rewrite !land_65535.
    rewrite Z.shiftr_div_pow2 by lia. change (2 ^ 16) with 65536.
    unfold ushort. rewrite !Z.mod_mod by lia.
    rewrite !write16_bytes. by rewrite <- app_assoc. }
  assert (Hb : Files.write32b out val
               = out ++ [(hi / 256) mod 256; hi mod 256;
                         (lo / 256) mod 256; lo mod 256]).
  { unfold Files.write32b. rewrite !land_65535.
    rewrite Z.shiftr_div_pow2 by lia. change (2 ^ 16) with 65536.
    unfold ushort. rewrite !Z.mod_mod by lia.
    rewrite !write16b_bytes. by rewrite <- app_assoc. }
  exists (lo mod 256), ((lo / 256) mod 256), (hi mod 256), ((hi / 256) mod 256).
  split; [exact Hw|]. split; [exact Hb|]. split.
  { assert (Hm : forall z, 0 <= z mod 256 <= 255)
      by (intros z; pose proof (Z.mod_pos_bound z 256); lia).
    unfold bytes. repeat (constructor; [apply Hm|]). constructor. }
  assert (Hsum : lo mod 256 + 256 * ((lo / 256) mod 256)
                 + 65536 * (hi mod 256) + 16777216 * ((hi / 256) mod 256)
                 = val mod 4294967296).
  { unfold lo, hi. Z.div_mod_to_equations. lia. }
  split.
  - rewrite Hw. unfold Files.le32.
    rewrite !rd_app_r by lia.
    replace (Z.of_nat (length out) - Z.of_nat (length out)) with 0 by lia.
    replace (Z.of_nat (length out) + 1 - Z.of_nat (length out)) with 1 by lia.
    replace (Z.of_nat (length out) + 2 - Z.of_nat (length out)) with 2 by lia.
    replace (Z.of_nat (length out) + 3 - Z.of_nat (length out)) with 3 by lia.
    exact Hsum.
  - rewrite Hb. unfold Files.be32.
    rewrite !rd_app_r by lia.
    replace (Z.of_nat (length out) - Z.of_nat (length out)) with 0 by lia.
    replace (Z.of_nat (length out) + 1 - Z.of_nat (length out)) with 1 by lia.
    replace (Z.of_nat (length out) + 2 - Z.of_nat (length out)) with 2 by lia.
    replace (Z.of_nat (length out) + 3 - Z.of_nat (length out)) with 3 by lia.
    change (16777216 * ((hi / 256) mod 256) + 65536 * (hi mod 256)
            + 256 * ((lo / 256) mod 256) + lo mod 256
            = val mod 4294967296).
    lia.
Qed.

Lemma write32_round_trip_witness :
  exists b0 b1 b2 b3,
    Files.write32 [66; 77] 308278 = [66; 77] ++ [b0; b1; b2; b3]
    /\ Files.write32b [66; 77] 308278 = [66; 77] ++ [b3; b2; b1; b0]
    /\ bytes [b0; b1; b2; b3]
    /\ Files.le32 (Files.write32 [66; 77] 308278)
         (Z.of_nat (length [66; 77])) = 308278 mod 4294967296
    /\ Files.be32 (Files.write32b [66; 77] 308278)
         (Z.of_nat (length [66; 77])) = 308278 mod 4294967296.
Proof. apply (write32_round_trip [66; 77] 308278). lia. Defined.

Section BmpFacts.

Import Files.

Lemma grey_table_app hdr body :
  Z.of_nat (length hdr) = 1078 -> grey_table hdr -> grey_table (hdr ++ body).
Proof.
  intros Hl H i Hi. rewrite !rd_app_l by lia. by apply H.
Qed.

(** The colour-table loop appends four bytes per entry. *)
Lemma palette_cells n : forall i out,
  0 <= i -> i + Z.of_nat n <= 256 ->
  exists ext,
    palette n i out = out ++ ext
    /\ Z.of_nat (length ext) = 4 * Z.of_nat n
    /\ forall j, 0 <= j < Z.of_nat n ->
         rd ext (4 * j) = i + j /\ rd ext (4 * j + 1) = i + j
         /\ rd ext (4 * j + 2) = i + j /\ rd ext (4 * j + 3) = 0.
Proof.
  induction n as [|n IH]; intros i out Hi Hn.
  - exists []. rewrite app_nil_r. split; [done|]. split; [done|].
    intros j Hj. cbn in Hj. lia.
  - cbn [palette]. unfold putc.
    destruct (IH (i + 1)
                ((((out ++ [uchar i]) ++ [uchar i]) ++ [uchar i])
                 ++ [uchar 0])) as (ext & He & Hl & Hc); [lia..|].
    exists ([i; i; i; 0] ++ ext). rewrite He.
    unfold uchar. rewrite (Z.mod_small i), (Z.mod_small 0) by lia.
    split; [by rewrite <- !app_assoc|].
    split; [rewrite length_app; cbn [length]; lia|].
    intros j Hj. destruct (decide (j = 0)) as [->|Hj0].
    + rewrite Z.add_0_r. by vm_compute.
    + rewrite !rd_app_r by (cbn [length]; lia). cbn [length].
      destruct (Hc (j - 1)) as (H0 & H1 & H2 & H3); [lia|].
      replace (4 * j - Z.of_nat 4) with (4 * (j - 1)) by lia.
      replace (4 * j + 1 - Z.of_nat 4) with (4 * (j - 1) + 1) by lia.
      replace (4 * j + 2 - Z.of_nat 4) with (4 * (j - 1) + 2) by lia.
      replace (4 * j + 3 - Z.of_nat 4) with (4 * (j - 1) + 3) by lia.
      rewrite H0, H1, H2, H3. repeat split; lia.
Qed.

Lemma write32_bytes out val :
  0 <= val < 4294967296 ->
  exists b0 b1 b2 b3,
    write32 out val = out ++ [b0; b1; b2; b3]
    /\ b0 + 256 * b1 + 65536 * b2 + 16777216 * b3 = val.
Proof.
  intros Hv. unfold write32.
  rewrite !land_65535, Z.shiftr_div_pow2 by lia.
  change (2 ^ 16) with 65536. unfold ushort. rewrite !Z.mod_mod by lia.
  rewrite !write16_bytes, <- app_assoc. cbn [app].
  do 4 eexists. split; [reflexivity|].
  Z.div_mod_to_equations. lia.
Qed.

(** The header block of the two BMP writers. *)
Lemma bmp_block size off w h :
  let hdr := palette (Z.to_nat 256) 0 (bmp_headers size off w h) in
  0 <= size < 4294967296 -> 0 <= off < 4294967296 ->
  0 <= w < 65536 -> 0 <= h < 65536 ->
  Z.of_nat (length hdr) = 1078
  /\ take 2 hdr = [66; 77]
  /\ le32 hdr 2 = size /\ le32 hdr 10 = off /\ le32 hdr 14 = 40
  /\ le32 hdr 18 = w /\ le32 hdr 22 = h
  /\ rd hdr 26 + 256 * rd hdr 27 = 1
  /\ rd hdr 28 + 256 * rd hdr 29 = 8
  /\ grey_table hdr.
Proof.
  intros hdr Hs Ho Hw Hh. subst hdr.
  destruct (palette_cells (Z.to_nat 256) 0 (bmp_headers size off w h))
    as (ext & -> & Hl & Hc); [lia..|].
  unfold bmp_headers.
  destruct (write32_bytes (putc 77 (putc 66 [])) size Hs)
    as (s0 & s1 & s2 & s3 & -> & Hsz).
  destruct (write32_bytes
              (write32 (putc 77 (putc 66 []) ++ [s0; s1; s2; s3]) 0) off Ho)
    as (o0 & o1 & o2 & o3 & -> & Hoff).
  match goal with
  | |- context [write32 (write32 ?o 40) w] =>
      destruct (write32_bytes (write32 o 40) w ltac:(lia))
        as (w0 & w1 & w2 & w3 & -> & Hwd)
  end.
  match goal with
  | |- context [write32 ?o h] =>
      destruct (write32_bytes o h ltac:(lia))
        as (h0 & h1 & h2 & h3 & -> & Hht)
  end.
  set (hd := write32 _ 0).
  assert (Hhd : hd = [66; 77; s0; s1; s2; s3; 0; 0; 0; 0; o0; o1; o2; o3;
                      40; 0; 0; 0; w0; w1; w2; w3; h0; h1; h2; h3;
                      1; 0; 8; 0; 0; 0; 0; 0; 0; 0; 0; 0; 0; 0; 0; 0;
                      0; 0; 0; 0; 0; 0; 0; 0; 0; 0; 0; 0]) by reflexivity.
  clearbody hd. subst hd.
  assert (Hl32 : forall k hd', Z.of_nat (length hd') = 54 -> 0 <= k <= 50 ->
            le32 (hd' ++ ext) k = le32 hd' k).
  { intros k hd' Hl' Hk. unfold le32. by rewrite !rd_app_l by lia. }
  rewrite !Hl32 by (by cbn [length] || lia).
  rewrite !rd_app_l by (cbn [length]; lia).
  split; [rewrite length_app; cbn [length]; lia|].
  split; [reflexivity|].
  split; [exact Hsz|]. split; [exact Hoff|]. split; [reflexivity|].
  split; [exact Hwd|]. split; [exact Hht|].
  split; [reflexivity|]. split; [reflexivity|].
  intros i Hi. rewrite !rd_app_r by (cbn [length]; lia). cbn [length].
  destruct (Hc i) as (H0 & H1 & H2 & H3); [lia|].
  replace (54 + 4 * i - Z.of_nat 54) with (4 * i) by lia.
  replace (54 + 4 * i + 1 - Z.of_nat 54) with (4 * i + 1) by lia.
  replace (54 + 4 * i + 2 - Z.of_nat 54) with (4 * i + 2) by lia.
  replace (54 + 4 * i + 3 - Z.of_nat 54) with (4 * i + 3) by lia.
  rewrite H0, H1, H2, H3. repeat split; lia.
Qed.

End BmpFacts.

(** X13. [save_gray] writes nothing when the buffer or the name is null,
    the name is empty or the file cannot be opened.  Otherwise the file
    is a consistent 8-bit BMP: it starts with [BM], its size field equals
    its length of 308,278 bytes, its data-offset field 1,078 is where the
    pixels start, after a 40-byte info header for a 640 by 480 image and a
    grey colour table with entry [i] equal to [i, i, i, 0]; the pixels are
    the 307,200 bytes of the buffer. *)
Theorem save_gray_layout (fname buf : list Z) :
  fname <> [] -> Z.of_nat (length buf) = 307200 ->
  (exists f,
     Files.save_gray (Some fname) (Some buf) true = Some f
     /\ Z.of_nat (length f) = 308278 /\ take 2 f = [66; 77]
     /\ Files.le32 f 2 = Z.of_nat (length f) /\ Files.le32 f 10 = 1078
     /\ Files.le32 f 14 = 40 /\ Files.le32 f 18 = 640 /\ Files.le32 f 22 = 480
     /\ rd f 28 + 256 * rd f 29 = 8
     /\ Files.grey_table f
     /\ drop (Z.to_nat (Files.le32 f 10)) f = buf)
  /\ Files.save_gray None (Some buf) true = None
  /\ Files.save_gray (Some []) (Some buf) true = None
  /\ Files.save_gray (Some fname) None true = None
  /\ Files.save_gray (Some fname) (Some buf) false = None.
Proof.
  intros Hn Hl. split; [|by destruct fname].
  destruct fname as [|ch rest]; [done|].
  unfold Files.save_gray, Files.may_write. cbn [default].
  destruct (bmp_block 308278 1078 640 480)
    as (Hlen & Hbm & Hsz & Hoff & H14 & Hw & Hh & _ & Hbpp & Hpal);
    [lia..|].
  set (hdr := Files.palette _ _ _) in *. clearbody hdr.
  change (id buf) with buf.
  rewrite take_ge by lia.
  eexists. split; [reflexivity|].
  assert (Hl32 : forall k, 0 <= k <= 1074 ->
            Files.le32 (hdr ++ buf) k = Files.le32 hdr k).
  { intros k Hk. unfold Files.le32. by rewrite !rd_app_l by lia. }
  rewrite !Hl32 by lia. rewrite length_app.
  split; [lia|]. split; [by rewrite take_app_le by lia|].
  split; [lia|]. split; [done|]. split; [done|]. split; [done|].
  split; [done|]. split; [by rewrite !rd_app_l by lia|].
  split; [by apply grey_table_app|].
  rewrite Hoff. apply drop_app_length'. lia.
Qed.

Lemma save_gray_layout_witness :
  (exists f,
     Files.save_gray (Some name1) (Some vga50) true = Some f
     /\ Z.of_nat (length f) = 308278 /\ take 2 f = [66; 77]
     /\ Files.le32 f 2 = Z.of_nat (length f) /\ Files.le32 f 10 = 1078
     /\ Files.le32 f 14 = 40 /\ Files.le32 f 18 = 640 /\ Files.le32 f 22 = 480
     /\ rd f 28 + 256 * rd f 29 = 8
     /\ Files.grey_table f
     /\ drop (Z.to_nat (Files.le32 f 10)) f = vga50)
  /\ Files.save_gray None (Some vga50) true = None
  /\ Files.save_gray (Some []) (Some vga50) true = None
  /\ Files.save_gray (Some name1) None true = None
  /\ Files.save_gray (Some name1) (Some vga50) false = None.
Proof.
  apply (save_gray_layout name1 vga50).
  - discriminate.
  - vm_compute; reflexivity.
Defined.

(** X14. [save_raw] writes nothing on a null buffer or name, an empty
    name or a file that cannot be opened.  Otherwise it writes 11,078
    bytes, which is what its size field says: the [BM] mark, a 40-byte info
    header for a 100 by 100 image of 8 bits, the grey colour table, and
    the 10,000 bytes of the buffer, which start at offset 1,078.  Its
    data-offset field, however, holds 54, the size of the two headers
    without the colour table. *)
Theorem save_raw_layout (fname buf : list Z) :
  fname <> [] -> Z.of_nat (length buf) = 10000 ->
  (exists f,
     Files.save_raw (Some fname) (Some buf) true = Some f
     /\ Z.of_nat (length f) = 11078 /\ take 2 f = [66; 77]
     /\ Files.le32 f 2 = Z.of_nat (length f) /\ Files.le32 f 10 = 54
     /\ Files.le32 f 14 = 40 /\ Files.le32 f 18 = 100 /\ Files.le32 f 22 = 100
     /\ rd f 28 + 256 * rd f 29 = 8
     /\ Files.grey_table f
     /\ drop (Z.to_nat 1078) f = buf)
  /\ Files.save_raw None (Some buf) true = None
  /\ Files.save_raw (Some []) (Some buf) true = None
  /\ Files.save_raw (Some fname) None true = None
  /\ Files.save_raw (Some fname) (Some buf) false = None.
Proof.
  intros Hn Hl. split; [|by destruct fname].
  destruct fname as [|ch rest]; [done|].
  unfold Files.save_raw, Files.may_write. cbn [default].
  destruct (bmp_block 11078 54 100 100)
    as (Hlen & Hbm & Hsz & Hoff & H14 & Hw & Hh & _ & Hbpp & Hpal);
    [lia..|].
  set (hdr := Files.palette _ _ _) in *. clearbody hdr.
  change (id buf) with buf.
  rewrite take_ge by lia.
  eexists. split; [reflexivity|].
  assert (Hl32 : forall k, 0 <= k <= 1074 ->
            Files.le32 (hdr ++ buf) k = Files.le32 hdr k).
  { intros k Hk. unfold Files.le32. by rewrite !rd_app_l by lia. }
  rewrite !Hl32 by lia. rewrite length_app.
  split; [lia|]. split; [by rewrite take_app_le by lia|].
  split; [lia|]. split; [done|]. split; [done|]. split; [done|].
  split; [done|]. split; [by rewrite !rd_app_l by lia|].
  split; [by apply grey_table_app|].
  apply drop_app_length'. lia.
Qed.

Lemma save_raw_layout_witness :
  (exists f,
     Files.save_raw (Some name1) (Some img50) true = Some f
     /\ Z.of_nat (length f) = 11078 /\ take 2 f = [66; 77]
     /\ Files.le32 f 2 = Z.of_nat (length f) /\ Files.le32 f 10 = 54
     /\ Files.le32 f 14 = 40 /\ Files.le32 f 18 = 100 /\ Files.le32 f 22 = 100
     /\ rd f 28 + 256 * rd f 29 = 8
     /\ Files.grey_table f
     /\ drop (Z.to_nat 1078) f = img50)
  /\ Files.save_raw None (Some img50) true = None
  /\ Files.save_raw (Some []) (Some img50) true = None
  /\ Files.save_raw (Some name1) None true = None
  /\ Files.save_raw (Some name1) (Some img50) false = None.
Proof.
  apply (save_raw_layout name1 img50).
  - discriminate.
  - vm_compute; reflexivity.
Defined.

Section RasterFacts.

Import Files.

(** One row of the raster loop appends two bytes per pixel. *)
Lemma d16_row_cells n : forall buf k out,
  exists ext,
    d16_row n buf k out = out ++ ext
    /\ Z.of_nat (length ext) = 2 * Z.of_nat n
    /\ forall j, 0 <= j < Z.of_nat n ->
         rd ext (2 * j) = rd buf (k + j) mod 256
         /\ rd ext (2 * j + 1) = (rd buf (k + j) / 256) mod 256.
Proof.
  induction n as [|n IH]; intros buf k out.
  - exists []. rewrite app_nil_r. split; [done|]. split; [done|].
    intros j Hj. cbn in Hj. lia.
  - cbn [d16_row]. unfold putc. rewrite !land_255.
    rewrite Z.shiftr_div_pow2 by lia. change (2 ^ 8) with 256.
    unfold uchar. rewrite !Z.mod_mod by lia.
    destruct (IH buf (k + 1)
                ((out ++ [rd buf k mod 256])
                 ++ [(rd buf k / 256) mod 256])) as (ext & He & Hl & Hc).
    exists ([rd buf k mod 256; (rd buf k / 256) mod 256] ++ ext).
    rewrite He. split; [by rewrite <- !app_assoc|].
    split; [rewrite length_app; cbn [length]; lia|].
    intros j Hj. destruct (decide (j = 0)) as [->|Hj0].
    + rewrite Z.add_0_r. by vm_compute.
    + rewrite !rd_app_r by (cbn [length]; lia). cbn [length].
      destruct (Hc (j - 1)) as (H0 & H1); [lia|].
      replace (2 * j - Z.of_nat 2) with (2 * (j - 1)) by lia.
      replace (2 * j + 1 - Z.of_nat 2) with (2 * (j - 1) + 1) by lia.
      rewrite H0, H1. by replace (k + 1 + (j - 1)) with (k + j) by lia.
Qed.

(** The rows are appended one after the other while the read pointer
    goes back by one row each time. *)
Lemma d16_rows_cells n : forall buf s0 out,
  exists ext,
    d16_rows n buf s0 out = out ++ ext
    /\ Z.of_nat (length ext) = 1280 * Z.of_nat n
    /\ forall r c, 0 <= r < Z.of_nat n -> 0 <= c < 640 ->
         rd ext (1280 * r + 2 * c) = rd buf (s0 - 640 * r + c) mod 256
         /\ rd ext (1280 * r + 2 * c + 1)
            = (rd buf (s0 - 640 * r + c) / 256) mod 256.
Proof.
  induction n as [|n IH]; intros buf s0 out.
  - exists []. rewrite app_nil_r. split; [done|]. split; [done|].
    intros r c Hr. cbn in Hr. lia.
  - cbn [d16_rows].
    destruct (d16_row_cells (Z.to_nat 640) buf s0 out)
      as (e1 & -> & Hl1 & Hc1).
    destruct (IH buf (s0 - 640) (out ++ e1)) as (e2 & -> & Hl2 & Hc2).
    exists (e1 ++ e2). split; [by rewrite <- app_assoc|].
    split; [rewrite length_app; lia|].
    intros r c Hr Hc. destruct (decide (r = 0)) as [->|Hr0].
    + rewrite !rd_app_l by lia.
      destruct (Hc1 c) as (H0 & H1); [lia|].
      replace (1280 * 0 + 2 * c) with (2 * c) by lia.
      rewrite H0, H1. by replace (s0 - 640 * 0 + c) with (s0 + c) by lia.
    + rewrite !rd_app_r by lia.
      destruct (Hc2 (r - 1) c) as (H0 & H1); [lia..|].
      replace (1280 * r + 2 * c - Z.of_nat (length e1))
        with (1280 * (r - 1) + 2 * c) by lia.
      replace (1280 * r + 2 * c + 1 - Z.of_nat (length e1))
        with (1280 * (r - 1) + 2 * c + 1) by lia.
      rewrite H0, H1.
      by replace (s0 - 640 - 640 * (r - 1) + c)
        with (s0 - 640 * r + c) by lia.
Qed.

End RasterFacts.

(** X15. [save_d16] writes nothing on a null buffer or name, an empty
    name or a file that cannot be opened.  Otherwise it writes 614,432
    bytes: a header of eight 32-bit fields stored high byte first (the
    magic number 0x59A66A95, width 640, height 480, depth 16, the data
    length 614,400, type 1, and two zero fields), then the pixels with the
    rows in reverse order: the pixel of file row [r] and column [c] is the
    pixel of buffer row [479 - r] and column [c], stored low byte
    first. *)
Theorem save_d16_layout (fname buf : list Z) :
  fname <> [] -> Z.of_nat (length buf) = 307200 -> Debug.words buf ->
  (exists f,
     Files.save_d16 (Some fname) (Some buf) true = Some f
     /\ Z.of_nat (length f) = 614432
     /\ Files.be32 f 0 = 1504078485 /\ Files.be32 f 4 = 640
     /\ Files.be32 f 8 = 480 /\ Files.be32 f 12 = 16
     /\ Files.be32 f 16 = Z.of_nat (length f) - 32
     /\ Files.be32 f 20 = 1 /\ Files.be32 f 24 = 0 /\ Files.be32 f 28 = 0
     /\ forall r c, 0 <= r < 480 -> 0 <= c < 640 ->
          rd f (32 + 2 * (640 * r + c))
          + 256 * rd f (32 + 2 * (640 * r + c) + 1)
          = rd buf (640 * (479 - r) + c))
  /\ Files.save_d16 None (Some buf) true = None
  /\ Files.save_d16 (Some []) (Some buf) true = None
  /\ Files.save_d16 (Some fname) None true = None
  /\ Files.save_d16 (Some fname) (Some buf) false = None.
Proof.
  intros Hn Hl Hw. split; [|by destruct fname].
  destruct fname as [|ch rest]; [done|].
  unfold Files.save_d16, Files.may_write. cbn [default].
  change (id buf) with buf.
  set (hdr := Files.write32b _ 0).
  assert (Hhdr : hdr = [89; 166; 106; 149; 0; 0; 2; 128; 0; 0; 1; 224;
                        0; 0; 0; 16; 0; 9; 96; 0; 0; 0; 0; 1;
                        0; 0; 0; 0; 0; 0; 0; 0]) by (vm_compute; reflexivity).
  clearbody hdr. subst hdr.
  destruct (d16_rows_cells (Z.to_nat 480) buf (479 * 640)
              [89; 166; 106; 149; 0; 0; 2; 128; 0; 0; 1; 224;
               0; 0; 0; 16; 0; 9; 96; 0; 0; 0; 0; 1;
               0; 0; 0; 0; 0; 0; 0; 0]) as (ext & -> & Hle & Hc).
  eexists. split; [reflexivity|].
  split; [rewrite length_app; cbn [length]; lia|].
  assert (Hb32 : forall k hd, Z.of_nat (length hd) = 32 -> 0 <= k <= 28 ->
            Files.be32 (hd ++ ext) k = Files.be32 hd k).
  { intros k hd Hl' Hk. unfold Files.be32. by rewrite !rd_app_l by lia. }
  rewrite !Hb32 by (by cbn [length] || lia).
  rewrite length_app. cbn [length].
  split; [reflexivity|]. split; [reflexivity|]. split; [reflexivity|].
  split; [reflexivity|].
  split; [rewrite Nat2Z.inj_add, Hle; vm_compute; reflexivity|].
  split; [reflexivity|]. split; [reflexivity|]. split; [reflexivity|].
  intros r c Hr Hcc.
  rewrite !rd_app_r by (cbn [length]; lia). cbn [length].
  destruct (Hc r c) as (H0 & H1); [lia..|].
  replace (32 + 2 * (640 * r + c) - Z.of_nat 32)
    with (1280 * r + 2 * c) by lia.
  replace (32 + 2 * (640 * r + c) + 1 - Z.of_nat 32)
    with (1280 * r + 2 * c + 1) by lia.
  rewrite H0, H1.
  replace (479 * 640 - 640 * r + c) with (640 * (479 - r) + c) by lia.
  pose proof (words_rd buf (640 * (479 - r) + c) Hw ltac:(lia)) as Hv.
  Z.div_mod_to_equations. lia.
Qed.

Lemma save_d16_layout_witness :
  (exists f,
     Files.save_d16 (Some name1) (Some vga50) true = Some f
     /\ Z.of_nat (length f) = 614432
     /\ Files.be32 f 0 = 1504078485 /\ Files.be32 f 4 = 640
     /\ Files.be32 f 8 = 480 /\ Files.be32 f 12 = 16
     /\ Files.be32 f 16 = Z.of_nat (length f) - 32
     /\ Files.be32 f 20 = 1 /\ Files.be32 f 24 = 0 /\ Files.be32 f 28 = 0
     /\ forall r c, 0 <= r < 480 -> 0 <= c < 640 ->
          rd f (32 + 2 * (640 * r + c))
          + 256 * rd f (32 + 2 * (640 * r + c) + 1)
          = rd vga50 (640 * (479 - r) + c))
  /\ Files.save_d16 None (Some vga50) true = None
  /\ Files.save_d16 (Some []) (Some vga50) true = None
  /\ Files.save_d16 (Some name1) None true = None
  /\ Files.save_d16 (Some name1) (Some vga50) false = None.
Proof.
  apply (save_d16_layout name1 vga50).
  - discriminate.
  - vm_compute; reflexivity.
  - apply Forall_replicate. lia.
Defined.

(** ** The median filter on any image *)

Section MedianGeneral.

Import Median.

Lemma below_nil m : below [] m = 0.
Proof. done. Qed.

Lemma below_cons a w m :
  below (a :: w) m = (if decide (a < m) then 1 else 0) + below w m.
Proof. unfold below. rewrite filter_cons. case_decide; cbn [length]; lia. Qed.

Lemma below_app u w m : below (u ++ w) m = below u m + below w m.
Proof. unfold below. rewrite list.filter_app, length_app. lia. Qed.

Lemma below_range w m : 0 <= below w m <= Z.of_nat (length w).
Proof.
  unfold below. pose proof (length_filter (fun v => v < m) w). lia.
Qed.

Lemma ind_range a b : 0 <= ind a b <= 1.
Proof. unfold ind. case_decide; lia. Qed.

Lemma ind_same a : ind a a = 1.
Proof. unfold ind. by case_decide. Qed.

Lemma occ_nil b : occ [] b = 0.
Proof. done. Qed.

Lemma occ_cons a w b : occ (a :: w) b = ind a b + occ w b.
Proof. unfold occ, ind. rewrite !below_cons. repeat case_decide; lia. Qed.

Lemma occ_app u w b : occ (u ++ w) b = occ u b + occ w b.
Proof. unfold occ. rewrite !below_app. lia. Qed.

Lemma occ_nonneg w b : 0 <= occ w b.
Proof.
  induction w as [|a w IH]; [done|].
  rewrite occ_cons. pose proof (ind_range a b). lia.
Qed.

Lemma below_succ w b : below w (b + 1) = below w b + occ w b.
Proof. unfold occ. lia. Qed.

Lemma occ_elem a w : a ∈ w -> 1 <= occ w a.
Proof.
  induction 1 as [a w|a c w _ IH]; rewrite occ_cons.
  - rewrite ind_same. pose proof (occ_nonneg w a). lia.
  - pose proof (ind_range c a). lia.
Qed.

Lemma below_zero w m : (forall a, a ∈ w -> m <= a) -> below w m = 0.
Proof.
  induction w as [|a w IH]; intros H; [done|].
  rewrite below_cons, IH.
  - pose proof (H a ltac:(left)). case_decide; lia.
  - intros c Hc. apply H. by right.
Qed.

Lemma below_all w m :
  (forall a, a ∈ w -> a < m) -> below w m = Z.of_nat (length w).
Proof.
  induction w as [|a w IH]; intros H; [done|].
  rewrite below_cons, IH.
  - pose proof (H a ltac:(left)). case_decide; cbn [length]; lia.
  - intros c Hc. apply H. by right.
Qed.

Lemma below_floor w m :
  bytes w -> (forall b, 0 <= b < m -> occ w b = 0) -> below w m = 0.
Proof.
  intros Hw H. apply below_zero. intros a Ha.
  destruct (Z.le_gt_cases m a) as [|Hlt]; [done|].
  pose proof (occ_elem _ _ Ha) as H1.
  unfold bytes in Hw. rewrite list.Forall_forall in Hw.
  pose proof (Hw a Ha). rewrite H in H1 by lia. lia.
Qed.

Lemma below_256 w : bytes w -> below w 256 = Z.of_nat (length w).
Proof.
  intros Hw. apply below_all. intros a Ha.
  unfold bytes in Hw. rewrite list.Forall_forall in Hw.
  pose proof (Hw a Ha). lia.
Qed.

(** The scan *)

Lemma cache_skip w bot0 hi low k :
  cache_ok w bot0 hi low k -> occ w hi = 0 -> cache_ok w bot0 (hi + 1) low k.
Proof.
  intros (Hl & Hk & Hin & Hs & Ha) H0.
  split; [done|]. split; [done|].
  split; [intros i Hi; pose proof (Hin i Hi); lia|].
  split; [done|].
  intros b Hb Hp. apply Ha; [|done].
  destruct (decide (b = hi)) as [->|]; lia.
Qed.

Lemma cache_push w bot0 hi low k :
  cache_ok w bot0 hi low k -> bot0 <= hi -> k < 6 ->
  cache_ok w bot0 (hi + 1) (wr low k hi) (k + 1).
Proof.
  intros (Hl & Hk & Hin & Hs & Ha) Hb Hk6.
  split; [by rewrite length_wr|]. split; [lia|].
  split.
  { intros i Hi. destruct (decide (i = k)) as [->|].
    - rewrite rd_wr_same by lia. lia.
    - rewrite rd_wr_other by lia. pose proof (Hin i ltac:(lia)). lia. }
  split.
  { intros i j Hi Hj. rewrite (rd_wr_other _ k i) by lia.
    destruct (decide (j = k)) as [->|].
    - rewrite rd_wr_same by lia. pose proof (Hin i ltac:(lia)). lia.
    - rewrite rd_wr_other by lia. apply Hs; lia. }
  intros b Hbb Hp. left. destruct (decide (b = hi)) as [->|].
  - exists k. split; [lia|]. by rewrite rd_wr_same by lia.
  - destruct (Ha b ltac:(lia) Hp) as [(i & Hi & <-)|[? _]]; [|lia].
    exists i. split; [lia|]. by rewrite rd_wr_other by lia.
Qed.

Lemma cache_full w bot0 hi low :
  cache_ok w bot0 hi low 6 -> cache_ok w bot0 (hi + 1) low 6.
Proof.
  intros (Hl & Hk & Hin & Hs & Ha).
  split; [done|]. split; [done|].
  split; [intros i Hi; pose proof (Hin i Hi); lia|].
  split; [done|].
  intros b Hb Hp. destruct (decide (b = hi)) as [->|].
  - right. split; [done|]. pose proof (Hin 5 ltac:(lia)). lia.
  - apply Ha; [lia|done].
Qed.

Lemma scan_spec w v bot0 :
  tally v w -> bytes w -> Z.of_nat (length w) = 25 -> 0 <= bot0 ->
  forall n hi sub cnt low,
    Z.of_nat n = 256 - hi -> bot0 <= hi -> sub = below w hi -> sub < 13 ->
    cache_ok w bot0 hi low cnt ->
    exists hi' low' k,
      scan n v hi sub cnt low = (hi', low')
      /\ hi <= hi' <= 255 /\ median_of w hi'
      /\ cache_ok w bot0 (hi' + 1) low' k /\ 1 <= k.
Proof.
  intros [Hlv Hv] Hw Hlw Hb0.
  induction n as [|n IH]; intros hi sub cnt low Hn Hhi Hsub H13 Hc.
  - assert (hi = 256) as -> by lia.
    rewrite below_256 in Hsub by done. lia.
  - cbn [scan]. rewrite Hv by lia.
    pose proof (occ_nonneg w hi) as Hnn.
    pose proof (below_succ w hi) as Hsucc.
    destruct (Z.gtb_spec (occ w hi) 0) as [Hpos|Hzero].
    + assert (exists low1 cnt1,
                (if cnt <? 6 then (wr low cnt hi, cnt + 1) else (low, cnt))
                = (low1, cnt1)
                /\ cache_ok w bot0 (hi + 1) low1 cnt1 /\ 1 <= cnt1)
        as (low1 & cnt1 & -> & Hc1 & Hk1).
      { destruct (Z.ltb_spec cnt 6).
        - do 2 eexists. split; [done|].
          split; [by apply cache_push|]. destruct Hc as (_ & ? & _). lia.
        - assert (cnt = 6) as -> by (destruct Hc as (_ & ? & _); lia).
          do 2 eexists. split; [done|].
          split; [by apply cache_full|lia]. }
      destruct (Z.geb_spec (sub + occ w hi) 13) as [Hge|Hlt].
      * exists hi, low1, cnt1. split; [done|]. split; [lia|].
        split; [unfold median_of; lia|]. done.
      * destruct (IH (hi + 1) (sub + occ w hi) cnt1 low1)
          as (hi' & low' & k & He & Hr & Hm & Hc' & Hk); [lia..|done|].
        exists hi', low', k. split; [done|]. split; [lia|done].
    + assert (occ w hi = 0) as H0 by lia.
      destruct (IH (hi + 1) sub cnt low)
        as (hi' & low' & k & He & Hr & Hm & Hc' & Hk);
        [lia..| |].
      { by apply cache_skip. }
      exists hi', low', k. split; [done|]. split; [lia|done].
Qed.


Lemma below_mono w m m' : m <= m' -> below w m <= below w m'.
Proof.
  intros Hm. induction w as [|a w IH]; [done|].
  rewrite !below_cons. repeat case_decide; lia.
Qed.

Lemma cache_mono w bot0 hi low k i j :
  cache_ok w bot0 hi low k -> 0 <= i <= j -> j < k -> rd low i <= rd low j.
Proof.
  intros (_ & _ & _ & Hs & _) Hi Hj.
  destruct (decide (i = j)) as [->|]; [lia|].
  pose proof (Hs i j ltac:(lia) Hj). lia.
Qed.

(** Between two consecutive cache entries no bin was occupied. *)
Lemma cache_gap w bot0 hi low k i b :
  cache_ok w bot0 hi low k -> 0 <= i -> i + 1 < k ->
  rd low i < b < rd low (i + 1) -> occ w b = 0.
Proof.
  intros Hc Hi Hk Hb. pose proof Hc as (_ & Hk6 & Hin & Hs & Ha).
  pose proof (occ_nonneg w b).
  destruct (decide (occ w b = 0)) as [|Hne]; [done|exfalso].
  pose proof (Hin i ltac:(lia)). pose proof (Hin (i + 1) ltac:(lia)).
  destruct (Ha b ltac:(lia) ltac:(lia)) as [(j & Hj & Hjb)|[-> H5]].
  - destruct (Z.le_gt_cases j i).
    + pose proof (cache_mono _ _ _ _ _ j i Hc ltac:(lia) ltac:(lia)). lia.
    + pose proof (cache_mono _ _ _ _ _ (i + 1) j Hc ltac:(lia) ltac:(lia)).
      lia.
  - pose proof (cache_mono _ _ _ _ _ (i + 1) 5 Hc ltac:(lia) ltac:(lia)). lia.
Qed.

(** The lowest occupied bin is the first cache entry. *)
Lemma cache_first w bot0 hi low k :
  cache_ok w bot0 hi low k -> bot0 < hi -> 0 < occ w bot0 -> 1 <= k ->
  bot0 = rd low 0.
Proof.
  intros Hc Hb Hp Hk. pose proof Hc as (_ & Hk6 & Hin & Hs & Ha).
  destruct (Ha bot0 ltac:(lia) Hp) as [(j & Hj & Hjb)|[-> H5]].
  - pose proof (cache_mono _ _ _ _ _ 0 j Hc ltac:(lia) ltac:(lia)).
    pose proof (Hin 0 ltac:(lia)). lia.
  - pose proof (Hin 5 ltac:(lia)). lia.
Qed.

(** A cache of fewer than six entries ends with the median bin. *)
Lemma cache_last w bot0 him low k :
  cache_ok w bot0 (him + 1) low k -> bot0 <= him -> 0 < occ w him ->
  1 <= k < 6 -> him = rd low (k - 1).
Proof.
  intros Hc Hb Hp Hk. pose proof Hc as (_ & Hk6 & Hin & Hs & Ha).
  destruct (Ha him ltac:(lia) Hp) as [(j & Hj & Hjb)|[-> H5]]; [|lia].
  pose proof (cache_mono _ _ _ _ _ j (k - 1) Hc ltac:(lia) ltac:(lia)).
  pose proof (Hin (k - 1) ltac:(lia)). lia.
Qed.

Lemma median_of_unique w m m' : median_of w m -> median_of w m' -> m' = m.
Proof.
  intros [H1 H2] [H3 H4].
  destruct (Z.lt_trichotomy m m') as [Hlt|[->|Hlt]]; [|done|].
  - pose proof (below_mono w (m + 1) m' ltac:(lia)). lia.
  - pose proof (below_mono w (m' + 1) m ltac:(lia)). lia.
Qed.

Lemma tally_wr v w p d :
  tally v (p :: w) -> 0 <= p <= 255 -> d = rd v p - 1 -> tally (wr v p d) w.
Proof.
  intros [Hl Hv] Hp ->. split; [by rewrite length_wr|].
  intros b Hb. pose proof (Hv b Hb) as Hvb. rewrite occ_cons in Hvb.
  unfold ind in Hvb. case_decide as Hpb.
  - subst b. rewrite rd_wr_same by lia. lia.
  - rewrite rd_wr_other by lia. lia.
Qed.

Lemma add_pel_spec p k h w w' :
  tally (vals h) w -> floor_ok w (bot h) -> 0 <= p <= 255 -> 0 <= k ->
  (forall b, occ w' b = occ w b + k * ind p b) ->
  tally (vals (add_pel p k h)) w' /\ floor_ok w' (bot (add_pel p k h))
  /\ lowest (add_pel p k h) = lowest h.
Proof.
  intros [Hl Hv] [Hb Hfl] Hp Hk Hw. unfold add_pel. cbn [vals bot lowest].
  split; [|split; [|done]].
  - split; [by rewrite length_wr|]. intros b Hbb. rewrite Hw. unfold ind.
    case_decide as Hpb.
    + subst b. rewrite rd_wr_same by lia. rewrite Hv by lia. lia.
    + rewrite rd_wr_other by lia. rewrite Hv by lia. lia.
  - destruct (Z.ltb_spec p (bot h)); (split; [lia|]); intros b Hbb;
      rewrite Hw, Hfl by lia; unfold ind; case_decide; lia.
Qed.

Variable s : list Z.
Hypothesis s_bytes : bytes s.
Hypothesis s_length : Z.of_nat (length s) = 10000.

Lemma sample_byte y c j : 0 <= c <= 99 -> 0 <= sample s y c j <= 255.
Proof.
  intros Hc. unfold sample. pose proof (clamp_row_range (y + j)).
  apply bytes_rd; [done|lia].
Qed.

Lemma samples_bytes y c js : 0 <= c <= 99 -> bytes (sample s y c <$> js).
Proof.
  intros Hc. unfold bytes. apply Forall_fmap, Forall_true.
  intros j. by apply sample_byte.
Qed.

(** Removing the old column *)

Lemma drop_spec w0 bot0 him low k y nowx :
  0 <= nowx <= 99 ->
  cache_ok w0 bot0 (him + 1) low k -> 1 <= k -> 0 <= bot0 <= him ->
  him <= 255 -> median_of w0 him ->
  forall js gone rest h cnt,
    (forall m, below w0 m
               = below gone m + below ((sample s y nowx <$> js) ++ rest) m) ->
    Z.of_nat (length gone) + Z.of_nat (length js) <= 5 ->
    bytes rest -> lowest h = low ->
    tally (vals h) ((sample s y nowx <$> js) ++ rest) ->
    0 <= cnt <= Z.of_nat (length gone) -> cnt < k ->
    bot0 <= bot h ->
    floor_ok ((sample s y nowx <$> js) ++ rest) (bot h) ->
    (0 < occ ((sample s y nowx <$> js) ++ rest) (bot h) ->
     bot h = rd low cnt) ->
    exists h' cnt',
      fold_left (drop_pel s y nowx) js (h, cnt) = (h', cnt')
      /\ lowest h' = low /\ tally (vals h') rest /\ floor_ok rest (bot h').
Proof.
  intros Hx Hc Hk Hb0 Hhim [Hm1 Hm2].
  induction js as [|j js IH];
    intros gone rest h cnt Hsplit Hlen Hrest Hlow Ht Hcnt Hck Hbot Hfl Hiv.
  - by exists h, cnt.
  - cbn [fold_left]. rewrite fmap_cons in *.
    set (pel := sample s y nowx j) in *.
    set (cur := (sample s y nowx <$> js) ++ rest) in *.
    change ((pel :: (sample s y nowx <$> js)) ++ rest) with (pel :: cur) in *.
    pose proof (sample_byte y nowx j Hx) as Hpel. fold pel in Hpel.
    assert (Hcur : bytes cur).
    { apply Forall_app. split; [by apply samples_bytes|done]. }
    assert (Hocc : forall b, occ w0 b = occ gone b + ind pel b + occ cur b).
    { intros b. unfold occ at 1. rewrite !Hsplit.
      fold (occ gone b). pose proof (occ_cons pel cur b) as Ho.
      unfold occ in Ho |- *. lia. }
    destruct Ht as [Hlv Hv]. destruct Hfl as [Hbr Hfl].
    pose proof (Hv pel ltac:(lia)) as Hvp. rewrite occ_cons, ind_same in Hvp.
    pose proof (occ_nonneg cur pel) as Hcp.
    assert (Htl : tally (wr (vals h) pel (rd (vals h) pel - 1)) cur).
    { by apply (tally_wr _ _ pel); [split|lia|]. }
    assert (Hsplit' : forall m,
              below w0 m = below (pel :: gone) m + below cur m).
    { intros m. rewrite Hsplit, !below_cons. lia. }
    assert (Hstep : exists bot' cnt',
              drop_pel s y nowx (h, cnt) j
              = (Hist (wr (vals h) pel (rd (vals h) pel - 1)) (lowest h) bot',
                 cnt')
              /\ 0 <= cnt' <= Z.of_nat (length (pel :: gone)) /\ cnt' < k
              /\ bot0 <= bot' /\ floor_ok cur bot'
              /\ (0 < occ cur bot' -> bot' = rd low cnt')).
    { unfold drop_pel. fold (sample s y nowx j). fold pel.
      destruct (Z.eqb_spec pel (bot h)) as [Hpb|Hpb];
        [destruct (Z.leb_spec (rd (vals h) pel) 1) as [Hv1|Hv1]|];
        cbn [andb].
      - (* the bin at [bot] empties: move to the next cache entry *)
        assert (Hbl : bot h = rd low cnt).
        { apply Hiv. rewrite occ_cons, <- Hpb, ind_same. lia. }
        assert (Hb0c : below cur (bot h) = 0).
        { apply below_floor; [done|]. intros b Hb.
          pose proof (Hfl b Hb) as Hz. rewrite occ_cons in Hz.
          pose proof (ind_range pel b). pose proof (occ_nonneg cur b). lia. }
        assert (Hnext : cnt + 1 < k).
        { destruct (Z.lt_ge_cases (cnt + 1) k) as [|Hge]; [done|exfalso].
          cbn [length] in Hlen.
          assert (Hlast : him = rd low (k - 1)).
          { apply (cache_last w0 bot0); [done|lia| |lia].
            pose proof (below_succ w0 him). lia. }
          assert (k - 1 = cnt) as Hkc by lia. rewrite Hkc in Hlast.
          pose proof (Hsplit' (him + 1)) as Hs1.
          pose proof (below_range (pel :: gone) (him + 1)) as Hg.
          cbn [length] in Hg.
          pose proof (below_succ cur (bot h)) as Hs2.
          rewrite <- Hlast, <- Hbl in *. rewrite <- Hpb in Hs2 at 3. lia. }
        exists (rd low (cnt + 1)), (cnt + 1). rewrite Hlow.
        split; [done|]. split; [cbn [length]; lia|]. split; [done|].
        pose proof Hc as (_ & Hk6 & Hin & _).
        pose proof (Hin (cnt + 1) ltac:(lia)) as Hin1.
        split; [lia|]. split; [|done]. split; [lia|].
        intros b Hb.
        destruct (Z.lt_trichotomy b (bot h)) as [Hlt|[->|Hgt]].
        + pose proof (Hfl b ltac:(lia)) as Hz. rewrite occ_cons in Hz.
          pose proof (ind_range pel b). pose proof (occ_nonneg cur b). lia.
        + rewrite <- Hpb. lia.
        + pose proof (cache_gap w0 bot0 _ low k cnt b Hc ltac:(lia) Hnext
                        ltac:(lia)) as Hz.
          rewrite Hocc in Hz. pose proof (occ_nonneg gone b).
          pose proof (ind_range pel b). pose proof (occ_nonneg cur b). lia.
      - exists (bot h), cnt. split; [done|].
        split; [cbn [length]; lia|]. split; [done|]. split; [done|].
        split.
        + split; [done|]. intros b Hb.
          pose proof (Hfl b Hb) as Hz. rewrite occ_cons in Hz.
          pose proof (ind_range pel b). pose proof (occ_nonneg cur b). lia.
        + intros Hp. apply Hiv. rewrite occ_cons.
          pose proof (ind_range pel (bot h)). lia.
      - exists (bot h), cnt. split; [done|].
        split; [cbn [length]; lia|]. split; [done|]. split; [done|].
        split.
        + split; [done|]. intros b Hb.
          pose proof (Hfl b Hb) as Hz. rewrite occ_cons in Hz.
          pose proof (ind_range pel b). pose proof (occ_nonneg cur b). lia.
        + intros Hp. apply Hiv. rewrite occ_cons.
          pose proof (ind_range pel (bot h)). lia. }
    destruct Hstep as (bot' & cnt' & -> & Hcnt' & Hck' & Hbot' & Hfl' & Hiv').
    apply (IH (pel :: gone) rest); try done.
    cbn [length] in *. lia.
Qed.


(** Adding pixels *)

Lemma push_spec y nowx :
  0 <= nowx <= 99 ->
  forall js h w w',
    tally (vals h) w -> floor_ok w (bot h) ->
    (forall b, occ w' b = occ w b + occ (sample s y nowx <$> js) b) ->
    tally (vals (fold_left (push_pel s y nowx) js h)) w'
    /\ floor_ok w' (bot (fold_left (push_pel s y nowx) js h))
    /\ lowest (fold_left (push_pel s y nowx) js h) = lowest h.
Proof.
  intros Hx. induction js as [|j js IH]; intros h w w' Ht Hfl Hw.
  - cbn [fold_left]. split; [|split; [|done]].
    + destruct Ht as [Hl Hv]. split; [done|]. intros b Hb.
      rewrite Hw, fmap_nil, occ_nil. rewrite Hv by done. lia.
    + destruct Hfl as [Hb Hfl]. split; [done|]. intros b Hbb.
      rewrite Hw, fmap_nil, occ_nil, Hfl by done. lia.
  - cbn [fold_left]. unfold push_pel at 2 4 6.
    fold (sample s y nowx j).
    destruct (add_pel_spec (sample s y nowx j) 1 h w
                (sample s y nowx j :: w)) as (Ht1 & Hfl1 & Hl1);
      [done|done|by apply sample_byte|lia| |].
    { intros b. rewrite occ_cons. lia. }
    destruct (IH (add_pel (sample s y nowx j) 1 h)
                (sample s y nowx j :: w) w') as (Ht2 & Hfl2 & Hl2);
      [done|done| |].
    { intros b. rewrite Hw, fmap_cons, !occ_cons. lia. }
    split; [done|]. split; [done|]. by rewrite Hl2.
Qed.

Lemma seed_fold y :
  forall js h w w',
    tally (vals h) w -> floor_ok w (bot h) ->
    (forall b, occ w' b
               = occ w b + 3 * occ (sample s y 0 <$> js) b
                 + occ (sample s y 1 <$> js) b
                 + occ (sample s y 2 <$> js) b) ->
    tally (vals (fold_left (seed_row s y) js h)) w'
    /\ floor_ok w' (bot (fold_left (seed_row s y) js h))
    /\ lowest (fold_left (seed_row s y) js h) = lowest h.
Proof.
  induction js as [|j js IH]; intros h w w' Ht Hfl Hw.
  - cbn [fold_left]. split; [|split; [|done]].
    + destruct Ht as [Hl Hv]. split; [done|]. intros b Hb.
      rewrite Hw, !fmap_nil, !occ_nil. rewrite Hv by done. lia.
    + destruct Hfl as [Hb Hfl]. split; [done|]. intros b Hbb.
      rewrite Hw, !fmap_nil, !occ_nil, Hfl by done. lia.
  - cbn [fold_left].
    assert (Hrow : seed_row s y h j
                   = add_pel (sample s y 2 j) 1
                       (add_pel (sample s y 1 j) 1
                          (add_pel (sample s y 0 j) 3 h))).
    { unfold seed_row, sample. by rewrite Z.add_0_r. }
    rewrite Hrow. clear Hrow.
    set (p0 := sample s y 0 j). set (p1 := sample s y 1 j).
    set (p2 := sample s y 2 j).
    pose proof (sample_byte y 0 j ltac:(lia)) as H0.
    pose proof (sample_byte y 1 j ltac:(lia)) as H1.
    pose proof (sample_byte y 2 j ltac:(lia)) as H2.
    destruct (add_pel_spec p0 3 h w ([p0; p0; p0] ++ w))
      as (Ht0 & Hfl0 & Hl0); [done|done|done|lia| |].
    { intros b. rewrite occ_app, !occ_cons, occ_nil. lia. }
    destruct (add_pel_spec p1 1 (add_pel p0 3 h) ([p0; p0; p0] ++ w)
                ([p0; p0; p0; p1] ++ w))
      as (Ht1 & Hfl1 & Hl1); [done|done|done|lia| |].
    { intros b. rewrite !occ_app, !occ_cons, occ_nil. lia. }
    destruct (add_pel_spec p2 1 (add_pel p1 1 (add_pel p0 3 h))
                ([p0; p0; p0; p1] ++ w) ([p0; p0; p0; p1; p2] ++ w))
      as (Ht2 & Hfl2 & Hl2); [done|done|done|lia| |].
    { intros b. rewrite !occ_app, !occ_cons, occ_nil. lia. }
    destruct (IH (add_pel p2 1 (add_pel p1 1 (add_pel p0 3 h)))
                ([p0; p0; p0; p1; p2] ++ w) w') as (Ht3 & Hfl3 & Hl3);
      [done|done| |].
    { intros b. rewrite Hw, !fmap_cons, !occ_app, !occ_cons, occ_nil.
      fold p0 p1 p2. lia. }
    split; [done|]. split; [done|]. rewrite Hl3, Hl2, Hl1. done.
Qed.

(** The box of the specification and the pixels the loops read *)

Lemma clamp_row_edge r dr : clamp_row (100 * r + 100 * dr) = 100 * edge (r + dr).
Proof.
  unfold clamp_row, edge.
  destruct (Z.leb_spec (100 * r + 100 * dr) 0);
    [|destruct (Z.ltb_spec (100 * r + 100 * dr) 9900)]; lia.
Qed.

Lemma column_sample r c :
  column s r c = sample s (100 * r) (edge c) <$> rows5.
Proof.
  unfold column, rows5, pix, sample. cbn [fmap list_fmap].
  by rewrite <- !clamp_row_edge.
Qed.


Lemma column_bytes r c : bytes (column s r c).
Proof.
  rewrite column_sample. apply samples_bytes. unfold edge. lia.
Qed.

Lemma box_bytes r x : bytes (box s r x).
Proof.
  unfold box, bytes. rewrite !Forall_app.
  repeat split; apply column_bytes.
Qed.

Lemma box_length r x : Z.of_nat (length (box s r x)) = 25.
Proof. done. Qed.

Lemma seed_spec r h :
  Z.of_nat (length (lowest h)) = 6 -> primed s r 0 (seed s (100 * r) h).
Proof.
  intros Hl. unfold seed.
  destruct (seed_fold (100 * r) rows5
              (Hist (replicate (Z.to_nat 256) 0) (lowest h) 255) []
              (box s r 0)) as (Ht & Hfl & Hlow).
  - cbn [vals]. split; [by rewrite length_replicate|]. intros b Hb.
    by rewrite rd_replicate by lia.
  - split; [cbn [bot]; lia|done].
  - intros b. unfold box. rewrite !column_sample.
    change (edge (0 - 2)) with 0. change (edge (0 - 1)) with 0.
    change (edge 0) with 0. change (edge (0 + 1)) with 1.
    change (edge (0 + 2)) with 2.
    rewrite !occ_app, occ_nil. lia.
  - split; [done|]. split; [done|]. by rewrite Hlow.
Qed.

Lemma slide_spec r x h him k :
  0 <= x < 99 -> primed s r x h ->
  cache_ok (box s r x) (bot h) (him + 1) (lowest h) k -> 1 <= k ->
  bot h <= him <= 255 -> median_of (box s r x) him ->
  primed s r (x + 1) (slide s (100 * r) x h).
Proof.
  intros Hx (Ht & Hfl & Hl) Hc Hk Hhim Hm. unfold slide.
  set (rest := column s r (x - 1) ++ column s r x ++ column s r (x + 1)
               ++ column s r (x + 2)).
  assert (Hbox : box s r x
                 = (sample s (100 * r) (edge (x - 2)) <$> rows5) ++ rest).
  { unfold box. by rewrite (column_sample r (x - 2)). }
  assert (Hl1 : (if x - 2 <=? 0 then 0 else x - 2) = edge (x - 2)).
  { unfold edge. destruct (Z.leb_spec (x - 2) 0); lia. }
  assert (Hl2 : (if x + 3 <? 99 then x + 3 else 99) = edge (x + 3)).
  { unfold edge. destruct (Z.ltb_spec (x + 3) 99); lia. }
  rewrite Hl1, Hl2. rewrite Hbox in Ht, Hfl.
  destruct (drop_spec (box s r x) (bot h) him (lowest h) k (100 * r)
              (edge (x - 2)) ltac:(unfold edge; lia) Hc Hk
              ltac:(destruct Hfl; lia) ltac:(lia) Hm
              rows5 [] rest h 0)
    as (h1 & cnt1 & He & Hlow1 & Ht1 & Hfl1); try done.
  - intros m. by rewrite Hbox, below_nil.
  - unfold rest, bytes. rewrite !Forall_app.
    repeat split; apply column_bytes.
  - lia.
  - intros Hp. rewrite <- Hbox in Hp.
    apply (cache_first (box s r x) (bot h) (him + 1) (lowest h) k);
      [done|lia|done|done].
  - rewrite He. cbn [fst].
    destruct (push_spec (100 * r) (edge (x + 3)) ltac:(unfold edge; lia)
                rows5 h1 rest (box s r (x + 1)) Ht1 Hfl1)
      as (Ht2 & Hfl2 & Hlow2).
    + intros b. unfold box, rest.
      replace (x + 1 - 2) with (x - 1) by lia.
      replace (x + 1 - 1) with x by lia.
      replace (x + 1 + 1) with (x + 2) by lia.
      replace (x + 1 + 2) with (x + 3) by lia.
      rewrite <- (column_sample r (x + 3)), !occ_app. lia.
    + split; [done|]. split; [done|]. by rewrite Hlow2, Hlow1.
Qed.

(** The loops *)

Lemma row_loop_median r n : forall x d h med,
  Z.of_nat n = 100 - x -> 0 <= x -> 0 <= d ->
  d + Z.of_nat n <= Z.of_nat (length med) ->
  (0 < Z.of_nat n -> primed s r x h) ->
  exists h' med',
    row_loop n s (100 * r) x d h med = (h', med', d + Z.of_nat n)
    /\ length med' = length med
    /\ (0 < Z.of_nat n -> Z.of_nat (length (lowest h')) = 6)
    /\ (forall c, x <= c < 100 ->
          median_of (box s r c) (rd med' (d + (c - x))))
    /\ (forall i, 0 <= i < d -> rd med' i = rd med i).
Proof.
  induction n as [|n IH]; intros x d h med Hn Hx Hd Hlen Hp.
  - exists h, med. cbn [row_loop]. split; [f_equal; lia|].
    split; [done|]. split; [lia|]. split; [lia|done].
  - destruct Hp as (Ht & Hfl & Hl); [lia|].
    pose proof Hfl as [Hbot Hfl'].
    destruct (scan_spec (box s r x) (vals h) (bot h) Ht (box_bytes r x)
                (box_length r x) ltac:(lia)
                (Z.to_nat (256 - bot h)) (bot h) 0 0 (lowest h))
      as (hi & low & k & Hs & Hhi & Hm & Hc & Hk); [lia|lia| |lia| |].
    { symmetry. apply below_floor; [apply box_bytes|done]. }
    { split; [done|]. split; [lia|]. split; [lia|]. split; [lia|lia]. }
    cbn [row_loop]. rewrite Hs.
    assert (Hu : uchar hi = hi) by (apply uchar_byte; lia).
    rewrite Hu.
    set (h1 := Hist (vals h) low (bot h)).
    assert (Hlow : Z.of_nat (length low) = 6) by (by destruct Hc).
    assert (Hnext : exists h2,
              (if x >=? 99
               then row_loop n s (100 * r) (x + 1) (d + 1) h1 (wr med d hi)
               else row_loop n s (100 * r) (x + 1) (d + 1)
                      (slide s (100 * r) x h1) (wr med d hi))
              = row_loop n s (100 * r) (x + 1) (d + 1) h2 (wr med d hi)
              /\ (0 < Z.of_nat n -> primed s r (x + 1) h2)
              /\ (Z.of_nat n = 0 -> Z.of_nat (length (lowest h2)) = 6)).
    { destruct (Z.geb_spec x 99).
      - exists h1. split; [done|]. split; [lia|done].
      - exists (slide s (100 * r) x h1). split; [done|].
        assert (Hpr : primed s r (x + 1) (slide s (100 * r) x h1)).
        { apply (slide_spec r x h1 hi k); try done; lia. }
        split; [done|]. intros _. by destruct Hpr as (_ & _ & ?). }
    destruct Hnext as (h2 & -> & Hp2 & Hl2).
    destruct (IH (x + 1) (d + 1) h2 (wr med d hi))
      as (h' & med' & He & Hlen' & Hl' & Hmed & Hold);
      [lia|lia|lia|rewrite length_wr; lia|done|].
    exists h', med'. split; [rewrite He; f_equal; lia|].
    split; [by rewrite Hlen', length_wr|].
    split.
    { intros _. destruct n as [|n'].
      - cbn [row_loop] in He. injection He as <- _ _. by apply Hl2.
      - apply Hl'. lia. }
    split.
    + intros c Hc'. destruct (decide (c = x)) as [->|Hcx].
      * rewrite Z.sub_diag, Z.add_0_r, Hold by lia.
        by rewrite rd_wr_same by lia.
      * replace (d + (c - x)) with (d + 1 + (c - (x + 1))) by lia.
        apply Hmed. lia.
    + intros i Hi. rewrite Hold by lia. by rewrite rd_wr_other by lia.
Qed.

Lemma image_loop_median n : forall r h med,
  Z.of_nat n = 100 - r -> 0 <= r ->
  Z.of_nat (length med) = 10000 -> Z.of_nat (length (lowest h)) = 6 ->
  exists h' med',
    image_loop n s (100 * r) (100 * r) h med = (h', med')
    /\ length med' = length med
    /\ (forall r' c, r <= r' < 100 -> 0 <= c < 100 ->
          median_of (box s r' c) (rd med' (100 * r' + c)))
    /\ (forall i, 0 <= i < 100 * r -> rd med' i = rd med i).
Proof.
  induction n as [|n IH]; intros r h med Hn Hr Hlen Hl.
  - exists h, med. cbn [image_loop]. split; [done|]. split; [done|].
    split; [lia|done].
  - cbn [image_loop].
    destruct (row_loop_median r (Z.to_nat 100) 0 (100 * r)
                (seed s (100 * r) h) med)
      as (h1 & med1 & -> & Hlen1 & Hl1 & Hmed1 & Hold1);
      [lia|lia|lia|lia|intros _; by apply seed_spec|].
    replace (100 * r + Z.of_nat (Z.to_nat 100)) with (100 * (r + 1)) by lia.
    replace (100 * r + 100) with (100 * (r + 1)) by lia.
    destruct (IH (r + 1) h1 med1)
      as (h' & med' & He & Hlen' & Hmed & Hold);
      [lia|lia|lia|apply Hl1; lia|].
    exists h', med'. split; [done|]. split; [congruence|].
    split.
    + intros r' c Hr' Hc. destruct (decide (r' = r)) as [->|Hne].
      * rewrite Hold by lia.
        replace (100 * r + c) with (100 * r + (c - 0)) by lia.
        apply Hmed1. lia.
      * apply Hmed; lia.
    + intros i Hi. rewrite Hold by lia. apply Hold1. lia.
Qed.

Lemma median5x5_general h med r c :
  Z.of_nat (length med) = 10000 -> Z.of_nat (length (lowest h)) = 6 ->
  0 <= r < 100 -> 0 <= c < 100 ->
  median_of (box s r c) (rd (median5x5 s h med).2 (100 * r + c)).
Proof.
  intros Hlen Hl Hr Hc. unfold median5x5.
  destruct (image_loop_median (Z.to_nat 100) 0 h med)
    as (h' & med' & He & _ & Hmed & _); [lia..|].
  change (100 * 0) with 0 in He. rewrite He. cbn [snd].
  apply Hmed; lia.
Qed.

End MedianGeneral.

(** X16. [median5x5] computes the median of every 5 by 5 box.  For an
    image of 10,000 bytes and whatever the member arrays and [med] held
    before, the output pixel at row [r] and column [c] is the 13th
    smallest of the 25 samples of the box centred there, the rows and
    columns outside the image being replaced by the nearest ones inside:
    fewer than 13 samples are smaller and at least 13 are not larger; and
    no other value has this property. *)
Theorem median5x5_is_median (s med : list Z) (h : Median.hist) (r c : Z) :
  bytes s -> Z.of_nat (length s) = 10000 ->
  Z.of_nat (length med) = 10000 ->
  Z.of_nat (length (Median.lowest h)) = 6 ->
  0 <= r < 100 -> 0 <= c < 100 ->
  Median.median_of (Median.box s r c)
    (rd (Median.median5x5 s h med).2 (100 * r + c))
  /\ forall m, Median.median_of (Median.box s r c) m ->
       m = rd (Median.median5x5 s h med).2 (100 * r + c).
Proof.
  intros Hs Hls Hlm Hl Hr Hc.
  pose proof (median5x5_general s Hs Hls h med r c Hlm Hl Hr Hc) as Hm.
  split; [done|]. intros m Hm'.
  exact (median_of_unique (Median.box s r c) _ m Hm Hm').
Qed.

Lemma median5x5_is_median_witness :
  Median.median_of (Median.box ramp 0 99)
    (rd (Median.median5x5 ramp
           (Median.Hist (replicate 256 0) (replicate 6 0) 0) img0).2
        (100 * 0 + 99))
  /\ forall m, Median.median_of (Median.box ramp 0 99) m ->
       m = rd (Median.median5x5 ramp
                 (Median.Hist (replicate 256 0) (replicate 6 0) 0) img0).2
              (100 * 0 + 99).
Proof.
  apply (median5x5_is_median ramp img0
           (Median.Hist (replicate 256 0) (replicate 6 0) 0) 0 99).
  - apply Forall_fmap, Forall_true. intros i. simpl.
    pose proof (Z.mod_pos_bound (7 * i) 256). lia.
  - vm_compute; reflexivity.
  - vm_compute; reflexivity.
  - reflexivity.
  - lia.
  - lia.
Defined.

(** ** Opening the sensor *)

(** X17. [Start] returns 1 exactly when [open] gives a descriptor and both
    terminal calls succeed, and -1 in every other case: it never returns
    the 0 of [open_usb]; the value is also left in [ok].  On success it
    sends [AT+DISP=3] then [AT+UNIT=2], sets both resolutions to 2 and
    hands [d0] to the worker with nothing published, nothing held and
    [fresh = -2].  On failure it sends nothing, leaves the filter state and
    the thread flag alone, and [Range] returns [NULL] at once.  In both
    cases [ser] keeps what [open] returned, so a port that was opened but
    could not be configured is closed (after the two restoring commands)
    by the next [Done]. *)
Theorem Start_outcomes (fd ga sa : Z) (c : Driver.cam) (p : Life.port)
    (block : Z) (w : nat -> nat) (late : nat) :
  let rc := (Life.Start fd ga sa c p).1.1 in
  let c1 := (Life.Start fd ga sa c p).1.2 in
  let p1 := (Life.Start fd ga sa c p).2 in
  (rc = 1 \/ rc = -1)
  /\ (rc = 1 <-> 0 <= fd /\ ga = 0 /\ sa = 0)
  /\ Rotor.ok (Driver.rot c1) = rc
  /\ Life.ser p1 = fd
  /\ (rc = 1 ->
      Driver.sent c1 =
        Driver.sent c ++ [[65; 84; 43; 68; 73; 83; 80; 61; 51; 13];
                          [65; 84; 43; 85; 78; 73; 84; 61; 50; 13]]
      /\ Filter.unit (Driver.est c1) = 2 /\ Filter.pend (Driver.est c1) = 2
      /\ Rotor.fill (Driver.rot c1) = Some Rotor.d0
      /\ Rotor.done (Driver.rot c1) = None
      /\ Rotor.lock (Driver.rot c1) = None
      /\ Rotor.fresh (Driver.rot c1) = -2
      /\ Life.run p1 = 1)
  /\ (rc = -1 ->
      Driver.sent c1 = Driver.sent c /\ Driver.est c1 = Driver.est c
      /\ Life.run p1 = Life.run p
      /\ Rotor.Range block w late (Driver.rot c1)
         = Some (None, Driver.rot c1, O))
  /\ Life.ser (Life.Done c1 p1).2 < 0
  /\ Driver.sent (Life.Done c1 p1).1 =
       Driver.sent c1 ++
       (if fd >=? 0
        then [[65; 84; 43; 85; 78; 73; 84; 61; 48; 13];
              [65; 84; 43; 68; 73; 83; 80; 61; 49; 13]]
        else []).
Proof.
  destruct c as [e pk m h ce r b0 b1 b2 s], p as [sr rn].
  unfold Life.Start, Life.open_usb, Life.Done, Rotor.Start, Rotor.Range.
  destruct (Z.ltb_spec fd 0) as [Hfd|Hfd];
    [|destruct (Z.eqb_spec ga 0) as [Hga|Hga];
      [destruct (Z.eqb_spec sa 0) as [Hsa|Hsa]|]];
    cbn [negb fst snd Life.ser Life.run Driver.rot Driver.sent Driver.est
      Driver.pkt Driver.med Driver.hist Driver.cent Driver.d0c Driver.d1c
      Driver.d2c Rotor.ok Rotor.fill Rotor.done Rotor.lock Rotor.fresh
      Rotor.frame Filter.unit Filter.pend];
    change (-1 <=? 0) with true; change (0 <=? 0) with true;
    change (1 <=? 0) with false; cbv iota;
    cbn [negb fst snd Life.ser Life.run Driver.rot Driver.sent Driver.est
      Driver.pkt Driver.med Driver.hist Driver.cent Driver.d0c Driver.d1c
      Driver.d2c Rotor.ok Rotor.fill Rotor.done Rotor.lock Rotor.fresh
      Rotor.frame Filter.unit Filter.pend];
    change (-1 <=? 0) with true; cbv iota;
    destruct (Z.geb_spec fd 0) as [Hge|Hge]; try lia;
    cbn [fst snd Life.ser Driver.sent]; rewrite ?app_nil_r;
    (split; [lia|]); (split; [lia|]); (split; [reflexivity|]);
    (split; [reflexivity|]);
    (split; [first [by intros ?|by repeat split]|]);
    (split; [first [by intros ?|by repeat split]|]);
    (split; [lia|reflexivity]).
Qed.

(** ** The enlarged depth image *)

Section VgaFacts.

Import Vga.

Lemma blend_between a b f :
  0 <= a <= 65534 -> 0 <= b <= 65534 -> 0 <= f <= 256 ->
  Z.min a b <= blend a b f <= Z.max a b.
Proof.
  intros Ha Hb Hf. unfold blend, jump.
  destruct (Z.ltb_spec (Z.abs (b - a)) 406) as [Hj|Hj].
  - assert (-103936 <= f * (b - a) <= 103936) by nia.
    rewrite (int32_small (a * 256)), (int32_small (f * (b - a))) by lia.
    rewrite int32_small by lia.
    rewrite Z.shiftr_div_pow2 by lia. change (2 ^ 8) with 256.
    destruct (Z.le_ge_cases a b).
    + assert (0 <= f * (b - a) <= 256 * (b - a)) by nia.
      rewrite Z.min_l, Z.max_r by lia.
      split; [apply Z.div_le_lower_bound|apply Z.div_le_upper_bound]; lia.
    + assert (256 * (b - a) <= f * (b - a) <= 0) by nia.
      rewrite Z.min_r, Z.max_l by lia.
      split; [apply Z.div_le_lower_bound|apply Z.div_le_upper_bound]; lia.
  - destruct (Z.geb_spec f 128); lia.
Qed.

Lemma rd_tab (f : Z -> Z) n i : 0 <= i < n -> rd (f <$> seqZ 0 n) i = f i.
Proof.
  intros Hi. apply rd_lookup. rewrite lookup_tab by done.
  by rewrite Z.add_0_l.
Qed.

Lemma rd_store_in a d bs k :
  0 <= d -> d + Z.of_nat (length bs) <= Z.of_nat (length a) ->
  d <= k < d + Z.of_nat (length bs) -> rd (store a d bs) k = rd bs (k - d).
Proof.
  intros Hd Hl Hk. unfold store, rd.
  rewrite lookup_total_app_r by (rewrite length_take; lia).
  rewrite lookup_total_app_l by (rewrite length_take; lia).
  f_equal. rewrite length_take. lia.
Qed.

Lemma rd_store_out a d bs k :
  0 <= d -> d + Z.of_nat (length bs) <= Z.of_nat (length a) ->
  0 <= k -> k < d \/ d + Z.of_nat (length bs) <= k ->
  rd (store a d bs) k = rd a k.
Proof.
  intros Hd Hl Hk0 Hk. unfold store, rd. destruct Hk as [Hk|Hk].
  - rewrite lookup_total_app_l by (rewrite length_take; lia).
    rewrite lookup_total_take. case_decide; [done|lia].
  - rewrite lookup_total_app_r by (rewrite length_take; lia).
    rewrite lookup_total_app_r by (rewrite length_take; lia).
    rewrite lookup_total_drop. f_equal. rewrite length_take. lia.
Qed.

Lemma clamp16_range v : 0 <= clamp16 v <= 65535.
Proof.
  unfold clamp16, max_, min_.
  destruct (Z.ltb_spec v 65535); [destruct (Z.gtb_spec 0 v)|]; cbn; lia.
Qed.

Lemma level_range v : 0 <= max_ 0 (min_ v 254) <= 254.
Proof.
  unfold max_, min_.
  destruct (Z.ltb_spec v 254); [destruct (Z.gtb_spec 0 v)|]; cbn; lia.
Qed.

Lemma level_mono v v' :
  v <= v' -> max_ 0 (min_ v 254) <= max_ 0 (min_ v' 254).
Proof.
  intros Hv. unfold max_, min_.
  destruct (Z.ltb_spec v 254), (Z.ltb_spec v' 254); try lia;
    repeat match goal with |- context [?a >? ?b] =>
             destruct (Z.gtb_spec a b) end; lia.
Qed.

Lemma remap_pel_range f bot w :
  0 <= remap_pel f bot w <= 255 /\ (remap_pel f bot w = 0 <-> 40000 < w).
Proof.
  unfold remap_pel. destruct (Z.gtb_spec w 40000) as [Hw|Hw].
  - split; [lia|]. split; [done|lia].
  - cbv zeta.
    pose proof (level_range
                  (Z.shiftr (int32 (int32 (f * (w - bot)) + 32768)) 16)) as Hl.
    unfold uchar. rewrite Z.mod_small by lia. lia.
Qed.

Lemma remap_pel_linear f bot w :
  0 <= f <= 32768 -> 0 <= bot <= 65535 -> 0 <= w <= 40000 ->
  remap_pel f bot w
  = 255 - max_ 0 (min_ ((f * (w - bot) + 32768) / 65536) 254).
Proof.
  intros Hf Hb Hw. unfold remap_pel.
  destruct (Z.gtb_spec w 40000) as [|_]; [lia|]. cbv zeta.
  assert (-2147450880 <= f * (w - bot) <= 1310720000) by nia.
  rewrite (int32_small (f * (w - bot))) by lia.
  rewrite int32_small by lia.
  rewrite Z.shiftr_div_pow2 by lia. change (2 ^ 16) with 65536.
  pose proof (level_range ((f * (w - bot) + 32768) / 65536)).
  unfold uchar. rewrite Z.mod_small by lia. done.
Qed.

Lemma remap_pel_fits f bot w :
  0 <= f <= 32768 -> 0 <= bot <= 65535 -> 0 <= w <= 40000 ->
  remap_fits f bot w.
Proof.
  intros Hf Hb Hw. unfold remap_fits, in_int.
  assert (-2147450880 <= f * (w - bot) <= 1310720000) by nia. lia.
Qed.

Lemma remap_loop_rd n : forall i f bot d16 d8 j,
  0 <= i -> i + Z.of_nat n <= Z.of_nat (length d8) -> 0 <= j ->
  rd (remap_loop n i f bot d16 d8) j =
    if decide (i <= j < i + Z.of_nat n)
    then remap_pel f bot (rd d16 j)
    else rd d8 j.
Proof.
  induction n as [|n IH]; intros i f bot d16 d8 j Hi Hlen Hj;
    cbn [remap_loop].
  - case_decide; [lia|done].
  - rewrite IH by (rewrite ?length_wr; lia).
    destruct (decide (j = i)) as [->|Hne].
    + rewrite decide_False by lia. rewrite decide_True by lia.
      apply rd_wr_same. lia.
    + rewrite rd_wr_other by lia.
      repeat case_decide; try lia; done.
Qed.

Lemma length_remap_loop n : forall i f bot d16 d8,
  length (remap_loop n i f bot d16 d8) = length d8.
Proof.
  induction n as [|n IH]; intros i f bot d16 d8; cbn [remap_loop]; [done|].
  by rewrite IH, length_wr.
Qed.

Lemma remap_16_cases d8 d16 lo16 hi16 lo8 hi8 :
  Debug.words d16 -> 307200 <= Z.of_nat (length d16) ->
  Z.of_nat (length d8) = 307200 -> -32768 < hi8 - lo8 < 32768 ->
  exists out,
    remap_16 d8 d16 lo16 hi16 lo8 hi8 = Some out
    /\ length out = length d8
    /\ (forall i, 0 <= i < 307200 ->
          0 <= rd out i <= 255
          /\ (rd out i = 0 <->
              40000 < rd d16 i \/ clamp16 hi16 = clamp16 lo16))
    /\ (0 <= 2 * (hi8 - lo8) <= clamp16 hi16 - clamp16 lo16 ->
        (forall i j, 0 <= i < 307200 -> 0 <= j < 307200 ->
           rd d16 i <= rd d16 j <= 40000 -> rd out j <= rd out i)
        /\ (clamp16 hi16 <> clamp16 lo16 ->
            forall i, 0 <= i < 307200 -> rd d16 i = clamp16 lo16 ->
              clamp16 lo16 <= 40000 -> rd out i = 255)
        /\ (clamp16 hi16 <> clamp16 lo16 ->
            scale_fits lo8 hi8 (clamp16 hi16) (clamp16 lo16)
            /\ forall i, 0 <= i < 307200 -> rd d16 i <= 40000 ->
                 remap_fits
                   ((hi8 - lo8) * 65536
                    / (clamp16 hi16 - clamp16 lo16))
                   (clamp16 lo16) (rd d16 i)
                 /\ rd out i
                    = 255 - max_ 0
                              (min_
                                 (((hi8 - lo8) * 65536
                                   / (clamp16 hi16 - clamp16 lo16)
                                   * (rd d16 i - clamp16 lo16) + 32768)
                                  / 65536) 254))).
Proof.
  intros Hw Hl16 Hl8 Hd. unfold remap_16.
  pose proof (clamp16_range lo16) as Hbot.
  pose proof (clamp16_range hi16) as Htop.
  set (bot := clamp16 lo16) in *. set (top := clamp16 hi16) in *.
  change (640 * 480) with 307200.
  destruct (Z.eqb_spec top bot) as [Heq|Hne].
  - eexists. split; [done|].
    assert (Hz : forall i, 0 <= i < 307200 ->
              rd (store d8 0 (replicate (Z.to_nat 307200) 0)) i = 0).
    { intros i Hi. rewrite rd_store_in by (rewrite ?length_replicate; lia).
      by rewrite rd_replicate by lia. }
    split; [apply length_store; rewrite ?length_replicate; lia|].
    split.
    + intros i Hi. rewrite Hz by done. split; [lia|]. split; auto.
    + intros _. split; [|done]. intros i j Hi Hj _. by rewrite !Hz.
  - rewrite (int32_small (hi8 - lo8)) by lia.
    rewrite int32_small by lia. unfold idiv.
    destruct (Z.eqb_spec (top - bot) 0) as [|_]; [lia|].
    destruct (Z.eqb_spec ((hi8 - lo8) * 65536) (-2147483648)) as [|_]; [lia|].
    cbn [orb andb mbind option_bind].
    set (f := Z.quot ((hi8 - lo8) * 65536) (top - bot)).
    eexists. split; [done|]. split; [apply length_remap_loop|].
    assert (Hrd : forall i, 0 <= i < 307200 ->
              rd (remap_loop (Z.to_nat 307200) 0 f bot d16 d8) i
              = remap_pel f bot (rd d16 i)).
    { intros i Hi. rewrite remap_loop_rd by lia. by rewrite decide_True by lia. }
    split.
    + intros i Hi. rewrite Hrd by done.
      pose proof (remap_pel_range f bot (rd d16 i)) as [Hr Hz].
      split; [done|]. rewrite Hz. split; [auto|]. intros [|]; [done|lia].
    + intros Hlin.
      assert (Hf : 0 <= f <= 32768).
      { unfold f. rewrite Z.quot_div_nonneg by lia. split.
        - apply Z.div_pos; lia.
        - apply Z.div_le_upper_bound; lia. }
      split.
      * intros i j Hi Hj Hij. rewrite (Hrd i Hi), (Hrd j Hj).
        pose proof (words_rd d16 i Hw ltac:(lia)).
        pose proof (words_rd d16 j Hw ltac:(lia)).
        rewrite !remap_pel_linear by lia.
        assert (f * (rd d16 i - bot) <= f * (rd d16 j - bot)) by nia.
        pose proof (level_mono
                      ((f * (rd d16 i - bot) + 32768) / 65536)
                      ((f * (rd d16 j - bot) + 32768) / 65536)
                      ltac:(apply Z.div_le_mono; lia)).
        lia.
      * split.
        { intros _ i Hi Hib Hb4. rewrite Hrd by done.
          rewrite remap_pel_linear by lia.
          rewrite Hib, Z.sub_diag, Z.mul_0_r. done. }
        intros _. split; [unfold scale_fits, in_int; lia|].
        intros i Hi Hi4.
        pose proof (words_rd d16 i Hw ltac:(lia)).
        assert (Hfq : (hi8 - lo8) * 65536 / (top - bot) = f)
          by (unfold f; by rewrite Z.quot_div_nonneg by lia).
        rewrite Hfq.
        split; [apply remap_pel_fits; lia|].
        rewrite Hrd by done. apply remap_pel_linear; lia.
Qed.

Variable s : list Z.
Hypothesis s_words : Debug.words s.
Hypothesis s_length : Z.of_nat (length s) = 10000.

Lemma peek_inside k : 0 <= k < 10000 -> peek s k = Some (rd s k).
Proof.
  intros Hk. unfold peek. destruct (Z.ltb_spec k 0); [lia|].
  assert (Hlt : (Z.to_nat k < length s)%nat) by lia.
  destruct (lookup_lt_is_Some_2 s _ Hlt) as [x Hx].
  by rewrite (rd_lookup _ _ _ Hx).
Qed.

Lemma side_sound k hf lo hi :
  0 <= k < 10000 -> (0 < hf -> k + 1 < 10000) -> 0 <= hf <= 256 ->
  (forall j, j = k \/ j = k + 1 -> 0 <= j < 10000 ->
             rd s j <> 65535 -> lo <= rd s j <= hi) ->
  exists res,
    side s k hf = Some res
    /\ (rd s k = 65535 -> res = None)
    /\ (forall v, res = Some v -> 0 <= v <= 65534 /\ lo <= v <= hi).
Proof.
  intros Hk Hk1 Hhf Hq. unfold side.
  rewrite (peek_inside k) by done. cbn [mbind option_bind].
  pose proof (words_rd s k s_words ltac:(lia)) as Ha.
  destruct (Z.eqb_spec (rd s k) 65535) as [Hv|Hv].
  { exists None. by repeat split. }
  pose proof (Hq k ltac:(by left) Hk Hv) as Hak.
  destruct (Z.gtb_spec hf 0) as [Hpos|Hzero].
  - rewrite (peek_inside (k + 1)) by lia. cbn [mbind option_bind].
    pose proof (words_rd s (k + 1) s_words ltac:(lia)) as Hb.
    destruct (Z.eqb_spec (rd s (k + 1)) 65535) as [Hw|Hw].
    { exists None. by repeat split. }
    pose proof (Hq (k + 1) ltac:(by right) ltac:(lia) Hw) as Hbk.
    eexists. split; [reflexivity|]. split; [done|].
    intros v [= <-].
    pose proof (blend_between (rd s k) (rd s (k + 1)) hf
                  ltac:(lia) ltac:(lia) Hhf). lia.
  - eexists. split; [reflexivity|]. split; [done|]. intros v [= <-]. lia.
Qed.

Lemma z16_pel_sound i hf iy vf :
  0 <= i < 100 -> (0 < hf -> 0 < i < 99) -> 0 <= hf <= 256 ->
  -20000000 <= iy <= 20000000 ->
  (0 < vf -> 0 < iy < 99) -> 0 <= vf <= 256 ->
  exists v,
    z16_pel s i hf (int32 (100 * iy)) vf = Some v
    /\ 0 <= v <= 65535
    /\ (v <> 65535 ->
        0 <= iy < 100 /\ rd s (100 * iy + i) <> 65535 /\ v <= 65534
        /\ forall lo hi,
             quad_within s (100 * iy + i) lo hi -> lo <= v <= hi).
Proof.
  intros Hi Hhf Hhf' Hiy Hvf Hvf'. unfold z16_pel.
  rewrite (int32_small (100 * iy)) by lia.
  rewrite int32_small by lia.
  destruct (Z.ltb_spec (100 * iy + i) 0) as [Hlo|Hlo];
    [exists 65535; cbn [orb]; split; [done|]; split; [lia|done]|].
  destruct (Z.geb_spec (100 * iy + i) 10000) as [Hhi|Hhi];
    [exists 65535; cbn [orb]; split; [done|]; split; [lia|done]|].
  cbn [orb]. set (ref := 100 * iy + i) in *.
  assert (Hq1 : exists lower,
            side s ref hf = Some lower
            /\ (rd s ref = 65535 -> lower = None)
            /\ (forall v, lower = Some v -> 0 <= v <= 65534
                  /\ forall lo hi,
                       quad_within s ref lo hi -> lo <= v <= hi)).
  { destruct (side_sound ref hf 0 65534) as (res & He & Hn & Hv);
      [lia|lia|lia| |].
    { intros j _ Hj Hne. pose proof (words_rd s j s_words ltac:(lia)). lia. }
    exists res. split; [done|]. split; [done|]. intros v Hres.
    split; [by apply Hv|]. intros lo hi Hq.
    destruct (side_sound ref hf lo hi) as (res' & He' & _ & Hv');
      [lia|lia|lia| |].
    { intros j Hj Hj' Hne. apply Hq; [|done|done].
      destruct Hj as [->| ->]; cbn; auto. }
    rewrite He in He'. injection He' as <-. by apply Hv'. }
  destruct Hq1 as (lower & -> & Hn1 & Hv1). cbn [mbind option_bind].
  destruct lower as [bot|]; [|exists 65535; split; [done|]; split; [lia|done]].
  destruct (Hv1 bot eq_refl) as [Hb Hbq].
  assert (Href : rd s ref <> 65535) by (intros Hx; by specialize (Hn1 Hx)).
  destruct (Z.leb_spec vf 0) as [Hv0|Hv0].
  { exists (ushort bot). unfold ushort. rewrite Z.mod_small by lia.
    split; [done|]. split; [lia|]. intros _.
    split; [lia|]. split; [done|]. split; [lia|done]. }
  assert (Hq2 : exists upper,
            side s (ref + 100) hf = Some upper
            /\ (forall v, upper = Some v -> 0 <= v <= 65534
                  /\ forall lo hi,
                       quad_within s ref lo hi -> lo <= v <= hi)).
  { destruct (side_sound (ref + 100) hf 0 65534) as (res & He & Hn & Hv);
      [lia|lia|lia| |].
    { intros j _ Hj Hne. pose proof (words_rd s j s_words ltac:(lia)). lia. }
    exists res. split; [done|]. intros v Hres.
    split; [by apply Hv|]. intros lo hi Hq.
    destruct (side_sound (ref + 100) hf lo hi) as (res' & He' & _ & Hv');
      [lia|lia|lia| |].
    { intros j Hj Hj' Hne. apply Hq; [|done|done].
      destruct Hj as [->| ->]; cbn; [auto|].
      replace (ref + 100 + 1) with (ref + 101) by lia. auto. }
    rewrite He in He'. injection He' as <-. by apply Hv'. }
  destruct Hq2 as (upper & -> & Hv2). cbn [mbind option_bind].
  destruct upper as [top|]; [|exists 65535; split; [done|]; split; [lia|done]].
  destruct (Hv2 top eq_refl) as [Ht Htq].
  pose proof (blend_between bot top vf Hb Ht Hvf') as Hbl.
  exists (ushort (blend bot top vf)). unfold ushort.
  rewrite Z.mod_small by lia.
  split; [done|]. split; [lia|]. intros _.
  split; [lia|]. split; [done|]. split; [lia|].
  intros lo hi Hq. specialize (Hbq lo hi Hq). specialize (Htq lo hi Hq). lia.
Qed.


Lemma z16_cols_cells (P : Z -> Z -> Prop) T i hf n : forall dx d dest,
  0 <= d -> d + Z.of_nat n <= Z.of_nat (length dest) ->
  (forall j, dx <= j < dx + Z.of_nat n ->
     exists v, z16_pel s i hf (rd (sy T) j) (rd (fy T) j) = Some v /\ P j v) ->
  exists dest',
    z16_cols n T s i hf dx d dest = Some dest'
    /\ length dest' = length dest
    /\ (forall j, 0 <= j < Z.of_nat n -> P (dx + j) (rd dest' (d + j)))
    /\ (forall k, 0 <= k -> k < d \/ d + Z.of_nat n <= k ->
          rd dest' k = rd dest k).
Proof.
  induction n as [|n IH]; intros dx d dest Hd Hl Hp.
  - exists dest. cbn [z16_cols]. split; [done|]. split; [done|].
    split; [lia|done].
  - cbn [z16_cols]. destruct (Hp dx ltac:(lia)) as (v & -> & Hv).
    cbn [mbind option_bind].
    destruct (IH (dx + 1) (d + 1) (wr dest d v))
      as (dest' & -> & Hlen & Hin & Hout);
      [lia|rewrite length_wr; lia|intros j Hj; apply Hp; lia|].
    exists dest'. split; [done|]. split; [by rewrite Hlen, length_wr|].
    split.
    + intros j Hj. destruct (decide (j = 0)) as [->|Hj0].
      * rewrite !Z.add_0_r, Hout by lia. by rewrite rd_wr_same by lia.
      * replace (dx + j) with (dx + 1 + (j - 1)) by lia.
        replace (d + j) with (d + 1 + (j - 1)) by lia. apply Hin. lia.
    + intros k Hk0 Hk. rewrite Hout by lia. by rewrite rd_wr_other by lia.
Qed.

Lemma z16_rows_cells (Q : Z -> Z -> Z -> Prop) T n : forall dy d dest,
  0 <= d -> d + 640 * Z.of_nat n <= Z.of_nat (length dest) ->
  (forall r c, dy <= r < dy + Z.of_nat n -> 0 <= c < 640 ->
     if (rd (sx T) r <? 0) || (rd (sx T) r >=? 100) then Q r c 65535
     else exists v,
       z16_pel s (rd (sx T) r) (rd (fx T) r) (rd (sy T) c) (rd (fy T) c)
       = Some v /\ Q r c v) ->
  exists dest',
    z16_rows n T s dy d dest = Some dest'
    /\ length dest' = length dest
    /\ (forall r c, 0 <= r < Z.of_nat n -> 0 <= c < 640 ->
          Q (dy + r) c (rd dest' (d + 640 * r + c)))
    /\ (forall k, 0 <= k -> k < d \/ d + 640 * Z.of_nat n <= k ->
          rd dest' k = rd dest k).
Proof.
  induction n as [|n IH]; intros dy d dest Hd Hl Hq.
  - exists dest. cbn [z16_rows]. split; [done|]. split; [done|].
    split; [lia|done].
  - cbn [z16_rows].
    assert (Hrow : exists dest1,
              (if (rd (sx T) dy <? 0) || (rd (sx T) dy >=? 100)
               then z16_rows n T s (dy + 1) (d + 640)
                      (store dest d (replicate (Z.to_nat 640) 65535))
               else z16_cols (Z.to_nat 640) T s (rd (sx T) dy)
                      (rd (fx T) dy) 0 d dest
                    ≫= (fun dest => z16_rows n T s (dy + 1) (d + 640) dest))
              = z16_rows n T s (dy + 1) (d + 640) dest1
              /\ length dest1 = length dest
              /\ (forall c, 0 <= c < 640 -> Q dy c (rd dest1 (d + c)))
              /\ (forall k, 0 <= k -> k < d \/ d + 640 <= k ->
                    rd dest1 k = rd dest k)).
    { destruct ((rd (sx T) dy <? 0) || (rd (sx T) dy >=? 100)) eqn:Hi.
      - exists (store dest d (replicate (Z.to_nat 640) 65535)).
        split; [done|].
        split; [apply length_store; rewrite ?length_replicate; lia|].
        split.
        + intros c Hc.
          rewrite rd_store_in by (rewrite ?length_replicate; lia).
          rewrite rd_replicate by lia.
          specialize (Hq dy c ltac:(lia) Hc). by rewrite Hi in Hq.
        + intros k Hk0 Hk. apply rd_store_out;
            rewrite ?length_replicate; lia.
      - destruct (z16_cols_cells (Q dy) T (rd (sx T) dy) (rd (fx T) dy)
                    (Z.to_nat 640) 0 d dest)
          as (dest1 & -> & Hlen & Hin & Hout); [lia|lia| |].
        { intros j Hj. specialize (Hq dy j ltac:(lia) ltac:(lia)).
          by rewrite Hi in Hq. }
        exists dest1. split; [done|]. split; [done|]. split.
        + intros c Hc. apply (Hin c). lia.
        + intros k Hk0 Hk. apply Hout; lia. }
    destruct Hrow as (dest1 & -> & Hlen1 & Hin1 & Hout1).
    destruct (IH (dy + 1) (d + 640) dest1)
      as (dest' & -> & Hlen & Hin & Hout);
      [lia|lia|intros r c Hr Hc; apply Hq; lia|].
    exists dest'. split; [done|]. split; [congruence|]. split.
    + intros r c Hr Hc. destruct (decide (r = 0)) as [->|Hr0].
      * rewrite Z.add_0_r, Hout by lia.
        replace (d + 640 * 0 + c) with (d + c) by lia. by apply Hin1.
      * replace (dy + r) with (dy + 1 + (r - 1)) by lia.
        replace (d + 640 * r + c) with (d + 640 + 640 * (r - 1) + c) by lia.
        apply Hin; lia.
    + intros k Hk0 Hk. rewrite Hout by lia. apply Hout1; lia.
Qed.

Lemma set_z16_tof_cases F dest :
  plausible F -> Z.of_nat (length dest) = 614400 ->
  exists out,
    set_z16_tof (tof_sampling F) dest s = Some out
    /\ length out = length dest
    /\ (forall k, 307200 <= k -> rd out k = rd dest k)
    /\ forall dy dx, 0 <= dy < 480 -> 0 <= dx < 640 ->
         0 <= rd out (640 * dy + dx) <= 65535
         /\ (rd out (640 * dy + dx) <> 65535 ->
             0 <= ix_of F dy < 100 /\ 0 <= iy_of F dx < 100
             /\ rd s (100 * iy_of F dx + ix_of F dy) <> 65535
             /\ forall lo hi,
                  quad_within s (100 * iy_of F dx + ix_of F dy) lo hi ->
                  lo <= rd out (640 * dy + dx) <= hi).
Proof.
  intros (Hfx & Hfy & Hiy) Hl. unfold set_z16_tof.
  destruct (z16_rows_cells
              (fun dy dx v =>
                 0 <= v <= 65535
                 /\ (v <> 65535 ->
                     0 <= ix_of F dy < 100 /\ 0 <= iy_of F dx < 100
                     /\ rd s (100 * iy_of F dx + ix_of F dy) <> 65535
                     /\ forall lo hi,
                          quad_within s (100 * iy_of F dx + ix_of F dy) lo hi
                          -> lo <= v <= hi))
              (tof_sampling F) (Z.to_nat 480) 0 0 dest)
    as (out & -> & Hlen & Hin & Hout); [lia|lia| |].
  - intros r c Hr Hc. cbn [sx fx sy fy tof_sampling].
    rewrite !rd_tab by lia.
    destruct (Z.ltb_spec (ix_of F r) 0) as [Hi0|Hi0];
      [cbn [orb]; split; [lia|done]|].
    destruct (Z.geb_spec (ix_of F r) 100) as [Hi1|Hi1];
      [cbn [orb]; split; [lia|done]|].
    cbn [orb].
    destruct (z16_pel_sound (ix_of F r)
                (if (ix_of F r <=? 0) || (ix_of F r >=? 99) then 0
                 else fx_of F r)
                (iy_of F c)
                (if (iy_of F c <=? 0) || (iy_of F c >=? 99) then 0
                 else fy_of F c))
      as (v & He & Hv & Hval).
    + lia.
    + destruct (Z.leb_spec (ix_of F r) 0), (Z.geb_spec (ix_of F r) 99);
        cbn [orb]; lia.
    + pose proof (Hfx r ltac:(lia)).
      destruct (Z.leb_spec (ix_of F r) 0), (Z.geb_spec (ix_of F r) 99);
        cbn [orb]; lia.
    + apply Hiy. lia.
    + destruct (Z.leb_spec (iy_of F c) 0), (Z.geb_spec (iy_of F c) 99);
        cbn [orb]; lia.
    + pose proof (Hfy c ltac:(lia)).
      destruct (Z.leb_spec (iy_of F c) 0), (Z.geb_spec (iy_of F c) 99);
        cbn [orb]; lia.
    + exists v. split; [done|]. split; [done|]. intros Hne.
      destruct (Hval Hne) as (? & ? & ? & ?).
      split; [lia|]. split; [lia|]. split; [done|done].
  - exists out. split; [done|]. split; [done|]. split.
    + intros k Hk. apply Hout; lia.
    + intros dy dx Hdy Hdx.
      pose proof (Hin dy dx ltac:(lia) Hdx) as Hc.
      by replace (0 + 640 * dy + dx) with (640 * dy + dx) in Hc by lia.
Qed.

End VgaFacts.

(** X18. [set_z16_tof] with the arrays of [tof_sampling], whatever the
    floating-point unit returned for the fractions (between 0 and 256)
    and the integer parts: no read falls outside the 10,000 words of the
    source; the 307,200 first words of [dest] are written and the others
    kept.  An output word other than 65535 comes from a source position
    inside the image whose word is valid, it is at most 65534, and it
    lies in every interval that contains the valid words of the 2 by 2
    quad at that position: mixing never overshoots and never produces
    the invalid mark. *)
Theorem set_z16_tof_sound (F : Vga.fpu) (dest buf : list Z) :
  Vga.plausible F -> Debug.words buf -> Z.of_nat (length buf) = 10000 ->
  Z.of_nat (length dest) = 614400 ->
  exists out,
    Vga.set_z16_tof (Vga.tof_sampling F) dest buf = Some out
    /\ length out = length dest
    /\ (forall k, 307200 <= k -> rd out k = rd dest k)
    /\ forall dy dx, 0 <= dy < 480 -> 0 <= dx < 640 ->
         0 <= rd out (640 * dy + dx) <= 65535
         /\ (rd out (640 * dy + dx) <> 65535 ->
             0 <= Vga.ix_of F dy < 100 /\ 0 <= Vga.iy_of F dx < 100
             /\ rd buf (100 * Vga.iy_of F dx + Vga.ix_of F dy) <> 65535
             /\ forall lo hi,
                  Vga.quad_within buf
                    (100 * Vga.iy_of F dx + Vga.ix_of F dy) lo hi ->
                  lo <= rd out (640 * dy + dx) <= hi).
Proof.
  intros HF Hw Hl Hd. by apply set_z16_tof_cases.
Qed.

Lemma set_z16_tof_sound_witness :
  exists out,
    Vga.set_z16_tof (Vga.tof_sampling fpu_exact) vga0 slope = Some out
    /\ length out = length vga0
    /\ (forall k, 307200 <= k -> rd out k = rd vga0 k)
    /\ forall dy dx, 0 <= dy < 480 -> 0 <= dx < 640 ->
         0 <= rd out (640 * dy + dx) <= 65535
         /\ (rd out (640 * dy + dx) <> 65535 ->
             0 <= Vga.ix_of fpu_exact dy < 100
             /\ 0 <= Vga.iy_of fpu_exact dx < 100
             /\ rd slope (100 * Vga.iy_of fpu_exact dx
                          + Vga.ix_of fpu_exact dy) <> 65535
             /\ forall lo hi,
                  Vga.quad_within slope
                    (100 * Vga.iy_of fpu_exact dx + Vga.ix_of fpu_exact dy)
                    lo hi ->
                  lo <= rd out (640 * dy + dx) <= hi).
Proof.
  apply (set_z16_tof_sound fpu_exact vga0 slope).
  - unfold Vga.plausible. split; [|split]; intros i Hi; simpl;
      Z.to_euclidean_division_equations; lia.
  - apply Forall_fmap. apply Forall_seqZ. intros i Hi. simpl. lia.
  - vm_compute; reflexivity.
  - vm_compute; reflexivity.
Defined.

(** X19. [remap_16] with a difference [hi8 - lo8] of less than 32768 in
    size, on a depth image of at least 307,200 words, never traps and
    writes 307,200 bytes.  A byte is 0 exactly
    where the depth word exceeds 40000, or everywhere when the two
    clamped depth limits coincide; every other byte is in 1..255.  When
    the clamped depth range is at least twice [hi8 - lo8 >= 0], a nearer
    pixel is never darker than a farther one, a pixel at the lower limit
    gets 255, and no product overflows: the shifted difference and the
    divisor of the scale factor ([Vga.scale_fits]) and, for every depth
    word up to 40000, its offset, its product with the factor and the
    rounded sum ([Vga.remap_fits]) are values an [int] holds, the divisor
    is not zero, and the byte written is the one exact integer arithmetic
    gives. *)
Theorem remap_16_shades (d8 d16 : list Z) (lo16 hi16 lo8 hi8 : Z) :
  Debug.words d16 -> 307200 <= Z.of_nat (length d16) ->
  Z.of_nat (length d8) = 307200 -> -32768 < hi8 - lo8 < 32768 ->
  exists out,
    Vga.remap_16 d8 d16 lo16 hi16 lo8 hi8 = Some out
    /\ length out = length d8
    /\ (forall i, 0 <= i < 307200 ->
          0 <= rd out i <= 255
          /\ (rd out i = 0 <->
              40000 < rd d16 i \/ Vga.clamp16 hi16 = Vga.clamp16 lo16))
    /\ (0 <= 2 * (hi8 - lo8) <= Vga.clamp16 hi16 - Vga.clamp16 lo16 ->
        (forall i j, 0 <= i < 307200 -> 0 <= j < 307200 ->
           rd d16 i <= rd d16 j <= 40000 -> rd out j <= rd out i)
        /\ (Vga.clamp16 hi16 <> Vga.clamp16 lo16 ->
            forall i, 0 <= i < 307200 -> rd d16 i = Vga.clamp16 lo16 ->
              Vga.clamp16 lo16 <= 40000 -> rd out i = 255)
        /\ (Vga.clamp16 hi16 <> Vga.clamp16 lo16 ->
            Vga.scale_fits lo8 hi8 (Vga.clamp16 hi16) (Vga.clamp16 lo16)
            /\ forall i, 0 <= i < 307200 -> rd d16 i <= 40000 ->
                 Vga.remap_fits
                   ((hi8 - lo8) * 65536
                    / (Vga.clamp16 hi16 - Vga.clamp16 lo16))
                   (Vga.clamp16 lo16) (rd d16 i)
                 /\ rd out i
                    = 255 - Vga.max_ 0
                              (Vga.min_
                                 (((hi8 - lo8) * 65536
                                   / (Vga.clamp16 hi16 - Vga.clamp16 lo16)
                                   * (rd d16 i - Vga.clamp16 lo16) + 32768)
                                  / 65536) 254))).
Proof.
  intros Hw Hl16 Hl8 Hd. by apply remap_16_cases.
Qed.

Lemma remap_16_shades_witness :
  exists out,
    Vga.remap_16 vga50 vga50 0 1000 1 255 = Some out
    /\ length out = length vga50
    /\ (forall i, 0 <= i < 307200 ->
          0 <= rd out i <= 255
          /\ (rd out i = 0 <->
              40000 < rd vga50 i \/ Vga.clamp16 1000 = Vga.clamp16 0))
    /\ (0 <= 2 * (255 - 1) <= Vga.clamp16 1000 - Vga.clamp16 0 ->
        (forall i j, 0 <= i < 307200 -> 0 <= j < 307200 ->
           rd vga50 i <= rd vga50 j <= 40000 -> rd out j <= rd out i)
        /\ (Vga.clamp16 1000 <> Vga.clamp16 0 ->
            forall i, 0 <= i < 307200 -> rd vga50 i = Vga.clamp16 0 ->
              Vga.clamp16 0 <= 40000 -> rd out i = 255)
        /\ (Vga.clamp16 1000 <> Vga.clamp16 0 ->
            Vga.scale_fits 1 255 (Vga.clamp16 1000) (Vga.clamp16 0)
            /\ forall i, 0 <= i < 307200 -> rd vga50 i <= 40000 ->
                 Vga.remap_fits
                   ((255 - 1) * 65536
                    / (Vga.clamp16 1000 - Vga.clamp16 0))
                   (Vga.clamp16 0) (rd vga50 i)
                 /\ rd out i
                    = 255 - Vga.max_ 0
                              (Vga.min_
                                 (((255 - 1) * 65536
                                   / (Vga.clamp16 1000 - Vga.clamp16 0)
                                   * (rd vga50 i - Vga.clamp16 0) + 32768)
                                  / 65536) 254))).
Proof.
  apply (remap_16_shades vga50 vga50 0 1000 1 255).
  - apply Forall_replicate. lia.
  - unfold vga50. rewrite length_replicate. lia.
  - vm_compute; reflexivity.
  - lia.
Defined.

(** ** The display layout *)

Section ShowFacts.

Import Show.

Lemma rot3_i_cells n : forall v d dest,
  0 <= d -> d + Z.of_nat n <= Z.of_nat (length dest) ->
  exists dest',
    rot3_i n v d dest = (dest', d + Z.of_nat n)
    /\ length dest' = length dest
    /\ forall k, 0 <= k ->
         rd dest' k = if decide (d <= k < d + Z.of_nat n) then v
                      else rd dest k.
Proof.
  induction n as [|n IH]; intros v d dest Hd Hl.
  - exists dest. cbn [rot3_i]. split; [f_equal; lia|]. split; [done|].
    intros k Hk. case_decide; [lia|done].
  - cbn [rot3_i].
    destruct (IH v (d + 1) (wr dest d v)) as (dest' & -> & Hlen & Hrd);
      [lia|rewrite length_wr; lia|].
    exists dest'. split; [f_equal; lia|]. split; [by rewrite Hlen, length_wr|].
    intros k Hk. rewrite Hrd by done.
    destruct (decide (k = d)) as [->|Hne].
    + rewrite decide_False by lia. rewrite decide_True by lia.
      by rewrite rd_wr_same by lia.
    + rewrite rd_wr_other by lia. repeat case_decide; try lia; done.
Qed.

(** A block of [n] rows of three cells, starting at column [c0] of row
    [r0] of the 300 by 300 output. *)
Lemma rot3_j_cells n : forall v r0 c0 dest,
  0 <= r0 -> 0 <= c0 <= 297 ->
  300 * (r0 + Z.of_nat n) <= Z.of_nat (length dest) ->
  exists dest',
    rot3_j n v (300 * r0 + c0) dest
    = (dest', 300 * (r0 + Z.of_nat n) + c0)
    /\ length dest' = length dest
    /\ forall R C, 0 <= R -> 0 <= C < 300 ->
         rd dest' (300 * R + C)
         = if decide (r0 <= R < r0 + Z.of_nat n /\ c0 <= C < c0 + 3) then v
           else rd dest (300 * R + C).
Proof.
  induction n as [|n IH]; intros v r0 c0 dest Hr Hc Hl.
  - exists dest. cbn [rot3_j]. split; [f_equal; lia|]. split; [done|].
    intros R C HR HC. case_decide; [lia|done].
  - cbn [rot3_j].
    destruct (rot3_i_cells (Z.to_nat 3) v (300 * r0 + c0) dest)
      as (dest1 & -> & Hlen1 & Hrd1); [lia|lia|].
    replace (300 * r0 + c0 + Z.of_nat (Z.to_nat 3) + 297)
      with (300 * (r0 + 1) + c0) by lia.
    destruct (IH v (r0 + 1) c0 dest1) as (dest' & -> & Hlen & Hrd);
      [lia|lia|lia|].
    exists dest'. split; [f_equal; lia|]. split; [congruence|].
    intros R C HR HC. rewrite Hrd, Hrd1 by lia.
    repeat case_decide; try lia; done.
Qed.

Lemma rot3_y_cells n src : forall s y0 c0 dest,
  0 <= y0 -> 0 <= c0 <= 297 ->
  900 * (y0 + Z.of_nat n) <= Z.of_nat (length dest) ->
  exists dest',
    rot3_y n src s (900 * y0 + c0) dest = (dest', s + Z.of_nat n)
    /\ length dest' = length dest
    /\ forall R C, 0 <= R -> 0 <= C < 300 ->
         rd dest' (300 * R + C)
         = if decide (3 * y0 <= R < 3 * (y0 + Z.of_nat n)
                      /\ c0 <= C < c0 + 3)
           then rd src (s + (R / 3 - y0))
           else rd dest (300 * R + C).
Proof.
  induction n as [|n IH]; intros s y0 c0 dest Hy Hc Hl.
  - exists dest. cbn [rot3_y]. split; [f_equal; lia|]. split; [done|].
    intros R C HR HC. case_decide; [lia|done].
  - cbn [rot3_y].
    replace (900 * y0 + c0) with (300 * (3 * y0) + c0) by lia.
    destruct (rot3_j_cells (Z.to_nat 3) (rd src s) (3 * y0) c0 dest)
      as (dest1 & -> & Hlen1 & Hrd1); [lia|lia|lia|].
    replace (300 * (3 * y0 + Z.of_nat (Z.to_nat 3)) + c0)
      with (900 * (y0 + 1) + c0) by lia.
    destruct (IH (s + 1) (y0 + 1) c0 dest1) as (dest' & -> & Hlen & Hrd);
      [lia|lia|lia|].
    exists dest'. split; [f_equal; lia|]. split; [congruence|].
    intros R C HR HC. rewrite Hrd, Hrd1 by lia.
    repeat case_decide; try lia; try done;
      f_equal; Z.div_mod_to_equations; lia.
Qed.

Lemma rot3_x_cells n src : forall k0 dest,
  0 <= k0 -> k0 + Z.of_nat n <= 100 ->
  Z.of_nat (length dest) = 90000 ->
  exists dest',
    rot3_x n src (100 * k0) (297 - 3 * k0) dest = dest'
    /\ length dest' = length dest
    /\ forall R C, 0 <= R < 300 -> 0 <= C < 300 ->
         rd dest' (300 * R + C)
         = if decide (297 - 3 * (k0 + Z.of_nat n) < C - 2 <= 297 - 3 * k0)
           then rd src (100 * (99 - C / 3) + R / 3)
           else rd dest (300 * R + C).
Proof.
  induction n as [|n IH]; intros k0 dest Hk Hn Hl.
  - exists dest. cbn [rot3_x]. split; [done|]. split; [done|].
    intros R C HR HC. case_decide; [lia|done].
  - cbn [rot3_x].
    pose proof (rot3_y_cells (Z.to_nat 100) src (100 * k0) 0 (297 - 3 * k0)
                  dest ltac:(lia) ltac:(lia) ltac:(lia)) as Hy.
    replace (900 * 0 + (297 - 3 * k0)) with (297 - 3 * k0) in Hy by lia.
    destruct Hy as (dest1 & -> & Hlen1 & Hrd1).
    replace (100 * k0 + Z.of_nat (Z.to_nat 100)) with (100 * (k0 + 1)) by lia.
    replace (297 - 3 * k0 - 3) with (297 - 3 * (k0 + 1)) by lia.
    destruct (IH (k0 + 1) dest1) as (dest' & -> & Hlen & Hrd); [lia|lia|lia|].
    exists dest'. split; [done|]. split; [congruence|]. intros R C HR HC.
    rewrite Hrd, Hrd1 by lia.
    repeat case_decide; try lia; try done;
      f_equal; Z.div_mod_to_equations; lia.
Qed.

Lemma mono_rot3_cases dest src :
  Z.of_nat (length dest) = 90000 ->
  exists out,
    mono_rot3 (Some dest) (Some src) = Some out
    /\ length out = length dest
    /\ forall R C, 0 <= R < 300 -> 0 <= C < 300 ->
         rd out (300 * R + C) = rd src (100 * (99 - C / 3) + R / 3).
Proof.
  intros Hl. unfold mono_rot3. eexists. split; [done|].
  destruct (rot3_x_cells (Z.to_nat 100) src 0 dest ltac:(lia) ltac:(lia) Hl)
    as (out & He & Hlen & Hrd).
  change (100 * 0) with 0 in He. change (297 - 3 * 0) with 297 in He.
  rewrite He. split; [done|]. intros R C HR HC. rewrite Hrd by done.
  by rewrite decide_True by lia.
Qed.

End ShowFacts.

(** X20. [mono_rot3] leaves everything alone when a pointer is null.
    Otherwise it writes each of the 90,000 cells of the 300 by 300
    output: the cell at row [R] and column [C] receives the source byte
    number [100 * (99 - C / 3) + R / 3], so that every source pixel
    fills a block of 3 by 3 cells and the source lines, scanned from the
    right, become the columns of the display. *)
Theorem mono_rot3_layout (dest src : list Z) :
  Z.of_nat (length dest) = 90000 ->
  (exists out,
     Show.mono_rot3 (Some dest) (Some src) = Some out
     /\ length out = length dest
     /\ forall R C, 0 <= R < 300 -> 0 <= C < 300 ->
          rd out (300 * R + C) = rd src (100 * (99 - C / 3) + R / 3))
  /\ Show.mono_rot3 (Some dest) None = Some dest
  /\ Show.mono_rot3 None (Some src) = None.
Proof.
  intros Hl. split; [by apply mono_rot3_cases|done].
Qed.

Lemma mono_rot3_layout_witness :
  (exists out,
     Show.mono_rot3 (Some show0) (Some img50) = Some out
     /\ length out = length show0
     /\ forall R C, 0 <= R < 300 -> 0 <= C < 300 ->
          rd out (300 * R + C) = rd img50 (100 * (99 - C / 3) + R / 3))
  /\ Show.mono_rot3 (Some show0) None = Some show0
  /\ Show.mono_rot3 None (Some img50) = None.
Proof.
  apply (mono_rot3_layout show0 img50). vm_compute; reflexivity.
Defined.

(** ** Time-outs *)

(** X21. [abstime_wait] adds exactly [ms] milliseconds to the time the
    clock gave; for a normalised time and [ms >= 0] the result is
    normalised again, its nanoseconds staying within 0..999,999,999. *)
Theorem abstime_wait_exact (now : Clock.timespec) (ms : Z) :
  0 <= Clock.tv_nsec now < 1000000000 -> 0 <= ms ->
  Clock.nanos (Clock.abstime_wait now ms) = Clock.nanos now + 1000000 * ms
  /\ 0 <= Clock.tv_nsec (Clock.abstime_wait now ms) < 1000000000.
Proof.
  intros Hn Hms. unfold Clock.abstime_wait, Clock.nanos.
  pose proof (Z.quot_rem' ms 1000) as Hqr.
  pose proof (Z.rem_bound_pos ms 1000 Hms ltac:(lia)) as Hr.
  destruct (Z.geb_spec (Clock.tv_nsec now + 1000000 * Z.rem ms 1000)
              1000000000); cbn [Clock.tv_sec Clock.tv_nsec]; lia.
Qed.

Lemma abstime_wait_exact_witness :
  Clock.nanos (Clock.abstime_wait (Clock.Timespec 5 999000000) 1500)
  = Clock.nanos (Clock.Timespec 5 999000000) + 1000000 * 1500
  /\ 0 <= Clock.tv_nsec (Clock.abstime_wait (Clock.Timespec 5 999000000) 1500)
     < 1000000000.
Proof.
  apply (abstime_wait_exact (Clock.Timespec 5 999000000) 1500).
  - simpl. lia.
  - lia.
Defined.

(** ** The dead band of the temporal filter *)

Section FlywheelDeadBand.

Import Filter.

Variables fi mn : Z.
Hypothesis fi_range : 0 <= fi <= 128.
Hypothesis mn_range : 0 < mn < 1073741824.

(** A pixel with no variance whose measurement is close to its average
    is left as it is. *)
Lemma flywheel_pel_dead m p :
  0 <= m <= 255 -> 0 <= p <= 255 ->
  fi * (m - p) * (m - p) < 128 ->
  2 * (fi * (m - p) * (m - p)) * Z.abs (m - p)
    < fi * (m - p) * (m - p) + mn ->
  flywheel_pel fi (256 - fi) mn m p 0 = Some (p, 0).
Proof using fi_range mn_range.
  intros Hm Hp Hq Hd. unfold flywheel_pel.
  set (d := m - p) in *.
  replace ((256 - fi) * 0 + fi * d * d) with (fi * d * d) by lia.
  set (q := fi * d * d) in *.
  assert (Hq0 : 0 <= q).
  { unfold q. pose proof (Z.square_nonneg d). nia. }
  rewrite (int32_small q) by lia.
  rewrite !Z.shiftl_mul_pow2 by lia. change (2 ^ 8) with 256.
  rewrite (int32_small (q * 256)), (int32_small (q + mn)) by lia.
  unfold idiv.
  destruct (Z.eqb_spec (q + mn) 0) as [|_]; [lia|].
  destruct (Z.eqb_spec (q * 256) (-2147483648)) as [|_]; [lia|].
  cbn [orb andb mbind option_bind].
  rewrite Z.quot_div_nonneg by lia.
  set (k := q * 256 / (q + mn)).
  assert (Hk : 0 <= k /\ k * (q + mn) <= q * 256).
  { unfold k. split; [apply Z.div_pos; lia|].
    rewrite Z.mul_comm. apply Z.mul_div_le. lia. }
  assert (Hkd : -128 < k * d < 128).
  { assert (k * Z.abs d * (q + mn) < 128 * (q + mn)) by nia.
    assert (k * Z.abs d < 128) by nia. nia. }
  rewrite (int32_small (p * 256 + k * d + 128)) by lia.
  rewrite Z.shiftr_div_pow2 by lia. change (2 ^ 8) with 256.
  assert ((p * 256 + k * d + 128) / 256 = p) as ->.
  { symmetry. apply Z.div_unique with (k * d + 128). lia. lia. }
  rewrite clamp255_byte by lia.
  assert (Hh : 0 <= Z.shiftr q 1 <= 63).
  { rewrite Z.shiftr_div_pow2 by lia. change (2 ^ 1) with 2.
    Z.div_mod_to_equations. lia. }
  assert (Hk2 : k <= 256).
  { assert (k * (q + mn) <= 256 * (q + mn)) by nia. nia. }
  assert (0 <= (256 - k) * Z.shiftr q 1 <= 16128) by nia.
  rewrite int32_small by lia.
  rewrite Z.shiftr_div_pow2 by lia. change (2 ^ 15) with 32768.
  rewrite Z.div_small by lia. done.
Qed.

Lemma flywheel_loop_dead n : forall j m p v,
  0 <= j ->
  (forall i, j <= i < j + Z.of_nat n ->
     0 <= rd m i <= 255 /\ 0 <= rd p i <= 255 /\ rd v i = 0
     /\ fi * (rd m i - rd p i) * (rd m i - rd p i) < 128
     /\ 2 * (fi * (rd m i - rd p i) * (rd m i - rd p i))
          * Z.abs (rd m i - rd p i)
        < fi * (rd m i - rd p i) * (rd m i - rd p i) + mn) ->
  flywheel_loop n j fi (256 - fi) mn m p v = Some (p, v).
Proof using fi_range mn_range.
  induction n as [|n IH]; intros j m p v Hj Hcell; [done|].
  cbn [flywheel_loop].
  destruct (Hcell j) as (Hm & Hp & Hv & Hq & Hd); [lia|].
  rewrite Hv, flywheel_pel_dead, bind_Some by done.
  replace (wr v j 0) with v by (by rewrite <- Hv, wr_rd_id).
  rewrite wr_rd_id.
  apply IH; [lia|]. intros i Hi. apply Hcell. lia.
Qed.

Lemma flywheel_frames_dead n : forall frame med avg var,
  0 < frame -> frame + Z.of_nat n < 2147483648 ->
  (forall i, 0 <= i < 10000 ->
     0 <= rd med i <= 255 /\ 0 <= rd avg i <= 255 /\ rd var i = 0
     /\ fi * (rd med i - rd avg i) * (rd med i - rd avg i) < 128
     /\ 2 * (fi * (rd med i - rd avg i) * (rd med i - rd avg i))
          * Z.abs (rd med i - rd avg i)
        < fi * (rd med i - rd avg i) * (rd med i - rd avg i) + mn) ->
  flywheel_frames n fi mn frame med avg var = Some (avg, var).
Proof using fi_range mn_range.
  induction n as [|n IH]; intros frame med avg var Hf Hn Hc; [done|].
  cbn [flywheel_frames]. unfold flywheel at 1.
  destruct (Z.leb_spec frame 0) as [|_]; [lia|].
  rewrite flywheel_loop_dead, bind_Some; [|lia|intros i Hi; apply Hc; lia].
  apply IH; [|unfold next_frame; rewrite int32_small by lia; lia|done].
  unfold next_frame. rewrite int32_small by lia. lia.
Qed.

End FlywheelDeadBand.

(** X22. The temporal filter has a dead band.  Take a learning weight
    [fi] in 0..128, a noise floor [mn] in 1..2^30 - 1, a variance image
    that is zero, and a median image whose offset [d] from the running
    average satisfies [fi * d^2 < 128] and
    [2 * fi * |d|^3 < fi * d^2 + mn] at every pixel.  Then, from any
    frame after the first, no number of frames with that median image
    changes the average or the variance: the offset is never tracked.
    With the constructor's values [fi = 26] and [mn = 16384] this holds
    for every offset up to 2. *)
Theorem flywheel_dead_band (fi mn frame : Z) (med avg var : list Z)
    (n : nat) :
  0 <= fi <= 128 -> 0 < mn < 1073741824 ->
  0 < frame -> frame + Z.of_nat n < 2147483648 ->
  bytes med -> bytes avg ->
  Z.of_nat (length med) = 10000 -> Z.of_nat (length avg) = 10000 ->
  (forall i, 0 <= i < 10000 -> rd var i = 0) ->
  (forall i, 0 <= i < 10000 ->
     fi * (rd med i - rd avg i) * (rd med i - rd avg i) < 128
     /\ 2 * (fi * (rd med i - rd avg i) * (rd med i - rd avg i))
          * Z.abs (rd med i - rd avg i)
        < fi * (rd med i - rd avg i) * (rd med i - rd avg i) + mn) ->
  Filter.flywheel_frames n fi mn frame med avg var = Some (avg, var).
Proof.
  intros Hfi Hmn Hf Hn Bm Ba Lm La Hv Hd.
  apply flywheel_frames_dead; try done.
  intros i Hi. destruct (Hd i Hi) as [H1 H2].
  split; [apply bytes_rd; [done|lia]|].
  split; [apply bytes_rd; [done|lia]|].
  split; [by apply Hv|done].
Qed.

Lemma flywheel_dead_band_witness :
  Filter.flywheel_frames 3 26 16384 1
    (replicate (Z.to_nat 10000) 52) img50 img0
  = Some (img50, img0).
Proof.
  apply (flywheel_dead_band 26 16384 1
           (replicate (Z.to_nat 10000) 52) img50 img0 3).
  - lia.
  - lia.
  - lia.
  - simpl. lia.
  - apply Forall_replicate. lia.
  - apply Forall_replicate. lia.
  - vm_compute; reflexivity.
  - vm_compute; reflexivity.
  - intros i Hi. apply rd_replicate. lia.
  - intros i Hi. unfold img50. rewrite !rd_replicate by lia. lia.
Defined.

(** ** The histogram of automatic ranging *)

Section RoiFacts.

Import Median Driver.

Lemma tally_incr v w p :
  tally v w -> 0 <= p <= 255 -> tally (wr v p (rd v p + 1)) (p :: w).
Proof.
  intros [Hl Hv] Hp. split; [by rewrite length_wr|].
  intros b Hb. rewrite occ_cons. unfold ind. case_decide as Hpb.
  - subst b. rewrite rd_wr_same by lia. rewrite Hv by lia. lia.
  - rewrite rd_wr_other by lia. rewrite Hv by lia. lia.
Qed.

Lemma tally_ext v w w' :
  tally v w -> (forall b, occ w' b = occ w b) -> tally v w'.
Proof.
  intros [Hl Hv] He. split; [done|]. intros b Hb. by rewrite He, Hv.
Qed.

Lemma seqZ_S m n : seqZ m (Z.of_nat (S n)) = m :: seqZ (m + 1) (Z.of_nat n).
Proof.
  rewrite Nat2Z.inj_succ. rewrite seqZ_cons by lia.
  by replace (Z.pred (Z.succ (Z.of_nat n))) with (Z.of_nat n) by lia.
Qed.

Lemma roi_x_tally s n : forall k cent w,
  bytes s -> 0 <= k -> k + Z.of_nat n <= Z.of_nat (length s) ->
  tally cent w ->
  exists cent',
    roi_x n s k cent = (cent', k + Z.of_nat n)
    /\ forall w', (forall b, occ w' b
                             = occ w b + occ (rd s <$> seqZ k (Z.of_nat n)) b) ->
         tally cent' w'.
Proof.
  induction n as [|n IH]; intros k cent w Hs Hk Hl Ht.
  - exists cent. cbn [roi_x]. split; [f_equal; lia|].
    intros w' Hw. apply (tally_ext _ w); [done|].
    intros b. rewrite Hw. cbn. rewrite occ_nil. lia.
  - cbn [roi_x].
    pose proof (bytes_rd s k Hs ltac:(lia)) as Hp.
    destruct (IH (k + 1) (wr cent (rd s k) (rd cent (rd s k) + 1))
                (rd s k :: w)) as (cent' & -> & Hc);
      [done|lia|lia|by apply tally_incr|].
    exists cent'. split; [f_equal; lia|].
    intros w' Hw. apply Hc. intros b.
    rewrite Hw, seqZ_S, fmap_cons, !occ_cons. lia.
Qed.

Lemma roi_y_tally s cw0 n : forall k cent w,
  bytes s -> 0 <= cw0 -> 0 <= k ->
  k + cw0 + 100 * (Z.of_nat n - 1) <= Z.of_nat (length s) ->
  tally cent w ->
  forall w',
    (forall b, occ w' b
               = occ w b
                 + occ (concat ((fun r => rd s <$> seqZ (100 * r + k) cw0)
                                  <$> seqZ 0 (Z.of_nat n))) b) ->
    tally (roi_y n cw0 (100 - cw0) s k cent) w'.
Proof.
  induction n as [|n IH]; intros k cent w Hs Hcw Hk Hl Ht w' Hw.
  - cbn [roi_y]. apply (tally_ext _ w); [done|].
    intros b. rewrite Hw. cbn. rewrite occ_nil. lia.
  - cbn [roi_y].
    destruct (roi_x_tally s (Z.to_nat cw0) k cent w) as (cent1 & -> & Hc);
      [done|lia|lia|done|].
    rewrite Z2Nat.id in Hc by lia.
    apply (IH (k + Z.of_nat (Z.to_nat cw0) + (100 - cw0)) cent1
             ((rd s <$> seqZ k cw0) ++ w)); [done|lia|lia|lia| |].
    + apply Hc. intros b. rewrite occ_app. lia.
    + intros b. rewrite Hw, seqZ_S, fmap_cons. cbn [concat].
      rewrite !occ_app. replace (100 * 0 + k) with k by lia.
      change (0 + 1) with 1.
      assert (Hshift :
        (fun r => rd s <$> seqZ (100 * r + k) cw0) <$> seqZ 1 (Z.of_nat n)
        = (fun r => rd s <$> seqZ
                      (100 * r + (k + Z.of_nat (Z.to_nat cw0) + (100 - cw0)))
                      cw0) <$> seqZ 0 (Z.of_nat n)).
      { assert (seqZ 1 (Z.of_nat n) = Z.add 1 <$> seqZ 0 (Z.of_nat n)) as ->
          by (by rewrite fmap_add_seqZ).
        rewrite <- list_fmap_compose.
        apply list_fmap_ext. intros _ r _. cbn. do 2 f_equal. lia. }
      rewrite Hshift. lia.
Qed.

Lemma roi_length T raw :
  0 <= cw T -> 0 <= ch T -> Z.of_nat (length (roi T raw)) = cw T * ch T.
Proof.
  intros Hw Hh. unfold roi.
  assert (Hl : forall l : list Z,
            Z.of_nat (length (concat ((fun y => rd raw <$> seqZ (100 * y + cx0 T)
                                                (cw T)) <$> l)))
            = cw T * Z.of_nat (length l)).
  { induction l as [|y l IH]; [cbn; lia|].
    rewrite fmap_cons. cbn [concat length].
    rewrite length_app, length_fmap, length_seqZ. lia. }
  rewrite Hl, length_seqZ. lia.
Qed.

Lemma auto_range_tally F T frame raw cent unit pend :
  2 <= frame -> bytes raw -> Z.of_nat (length raw) = 10000 ->
  0 <= cx0 T -> 0 <= cw T -> cx0 T + cw T <= 100 ->
  0 <= cy0 T -> 0 <= ch T -> cy0 T + ch T <= 100 ->
  tally (auto_range F T frame raw cent unit pend).1.1 (roi T raw).
Proof.
  intros Hf Hb Hl Hx Hw Hxw Hy Hh Hyh. unfold auto_range.
  destruct (Z.ltb_spec frame 2) as [|_]; [lia|]. cbv zeta.
  set (cent' := roi_y _ _ _ _ _ _).
  assert (Ht : tally cent' (roi T raw)).
  { unfold cent'.
    apply (roi_y_tally raw (cw T) (Z.to_nat (ch T)) (100 * cy0 T + cx0 T)
             (replicate (Z.to_nat 256) 0) []); try done; try lia.
    - split; [by rewrite length_replicate|]. intros b Hb'.
      by rewrite rd_replicate by lia.
    - intros b. rewrite occ_nil, Z.add_0_l, Z2Nat.id by lia.
      unfold roi. do 2 f_equal.
      assert (seqZ (cy0 T) (ch T) = Z.add (cy0 T) <$> seqZ 0 (ch T)) as ->
        by (by rewrite fmap_add_seqZ, Z.add_0_r).
      rewrite <- list_fmap_compose.
      apply list_fmap_ext. intros _ r _. cbn. do 2 f_equal. lia. }
  by destruct (negb _ && _).
Qed.

Lemma pct_scan_spec cent w stop :
  tally cent w -> bytes w ->
  forall n bulk sum,
    Z.of_nat n = 255 - bulk -> 0 <= bulk -> sum = below w bulk ->
    (forall b, 0 <= b < bulk -> below w (b + 1) < stop) ->
    bulk <= pct_scan n cent bulk sum stop <= 255
    /\ (forall b, 0 <= b < pct_scan n cent bulk sum stop ->
          below w (b + 1) < stop)
    /\ (pct_scan n cent bulk sum stop < 255 ->
        stop <= below w (pct_scan n cent bulk sum stop + 1)).
Proof.
  intros [Hl Hv] Hw.
  induction n as [|n IH]; intros bulk sum Hn Hb Hs Hlow; cbn [pct_scan].
  - split; [lia|]. split; [done|lia].
  - rewrite Hv by lia. pose proof (below_succ w bulk) as Hsucc.
    destruct (Z.geb_spec (sum + occ w bulk) stop) as [Hge|Hlt].
    + split; [lia|]. split; [done|]. intros _. lia.
    + destruct (IH (bulk + 1) (sum + occ w bulk)) as (Hr & Hbel & Hst);
        [lia|lia|lia| |].
      { intros b Hb'. destruct (decide (b = bulk)) as [->|]; [lia|].
        apply Hlow. lia. }
      split; [lia|]. split; [done|done].
Qed.

End RoiFacts.

(** X23. From the third frame on, [auto_range] leaves in [cent] the
    histogram of the region of interest of the raw image: 256 cells,
    cell [b] holding the number of pixels equal to [b] among the [ch]
    rows of [cw] pixels that start at row [cy0] and column [cx0], which
    are [cw * ch] pixels in all; what [cent] held before does not
    matter. *)
Theorem auto_range_histogram (F : Driver.fpu) (T : Driver.tuning)
    (frame : Z) (raw cent : list Z) (unit pend : Z) :
  2 <= frame -> bytes raw -> Z.of_nat (length raw) = 10000 ->
  0 <= Driver.cx0 T -> 0 <= Driver.cw T ->
  Driver.cx0 T + Driver.cw T <= 100 ->
  0 <= Driver.cy0 T -> 0 <= Driver.ch T ->
  Driver.cy0 T + Driver.ch T <= 100 ->
  Median.tally (Driver.auto_range F T frame raw cent unit pend).1.1
    (Driver.roi T raw)
  /\ Z.of_nat (length (Driver.roi T raw)) = Driver.cw T * Driver.ch T.
Proof.
  intros Hf Hb Hl Hx Hw Hxw Hy Hh Hyh.
  split; [by apply auto_range_tally|by apply roi_length].
Qed.

Lemma auto_range_histogram_witness :
  Median.tally (Driver.auto_range fpu0 tuning0 2 img50 [] 2 2).1.1
    (Driver.roi tuning0 img50)
  /\ Z.of_nat (length (Driver.roi tuning0 img50))
     = Driver.cw tuning0 * Driver.ch tuning0.
Proof.
  apply (auto_range_histogram fpu0 tuning0 2 img50 [] 2 2).
  - lia.
  - apply Forall_replicate. lia.
  - vm_compute; reflexivity.
  - simpl; lia.
  - simpl; lia.
  - simpl; lia.
  - simpl; lia.
  - simpl; lia.
  - simpl; lia.
Defined.

(** X24. The percentile scan of [auto_range], run on the histogram of
    byte samples [w], stops at the lowest grey level for which at least
    [stop] samples are at or below it, and at 255 when there is no such
    level below 255. *)
Theorem pct_scan_percentile (cent w : list Z) (stop : Z) :
  Median.tally cent w -> bytes w ->
  0 <= Driver.pct_scan (Z.to_nat 255) cent 0 0 stop <= 255
  /\ (forall b, 0 <= b < Driver.pct_scan (Z.to_nat 255) cent 0 0 stop ->
        Median.below w (b + 1) < stop)
  /\ (Driver.pct_scan (Z.to_nat 255) cent 0 0 stop < 255 ->
      stop <= Median.below w (Driver.pct_scan (Z.to_nat 255) cent 0 0 stop
                              + 1)).
Proof.
  intros Ht Hw.
  apply (pct_scan_spec cent w stop Ht Hw); [lia|lia| |lia].
  symmetry. apply below_zero. intros a Ha.
  unfold bytes in Hw. rewrite list.Forall_forall in Hw.
  pose proof (Hw a Ha). lia.
Qed.

Lemma pct_scan_percentile_witness :
  0 <= Driver.pct_scan (Z.to_nat 255) (wr (replicate 256 0) 5 1) 0 0 1 <= 255
  /\ (forall b,
        0 <= b < Driver.pct_scan (Z.to_nat 255) (wr (replicate 256 0) 5 1)
                   0 0 1 ->
        Median.below [5] (b + 1) < 1)
  /\ (Driver.pct_scan (Z.to_nat 255) (wr (replicate 256 0) 5 1) 0 0 1 < 255 ->
      1 <= Median.below [5]
             (Driver.pct_scan (Z.to_nat 255) (wr (replicate 256 0) 5 1)
                0 0 1 + 1)).
Proof.
  apply (pct_scan_percentile (wr (replicate 256 0) 5 1) [5] 1).
  - split; [reflexivity|]. intros b Hb.
    rewrite occ_cons, occ_nil. unfold Median.ind.
    destruct (decide (5 = b)) as [<-|Hne]; [reflexivity|].
    rewrite rd_wr_other by lia. rewrite rd_replicate by lia. lia.
  - repeat constructor; lia.
Defined.
